(** * Resume heuristic scorer: a shallow embedding of [analyzeResume]

    The scorer of the [ResumeScoring] component is a closure over the constant
    [jobKeywords] that maps the resume text to a [ResumeAnalysis] record.  The
    embedding below follows the TypeScript statement by statement.

    - A JavaScript number is an IEEE 754 binary64 value.  It is modelled by
      [spec_float] with the operations of the Standard Library's [SpecFloat]
      at precision 53 and maximal exponent 1024, so that rounding, infinities
      and NaN are those of the engine.
    - A JavaScript string is a sequence of code units.  It is modelled by
      [string]; an [ascii] stands for a code unit below 256, so the model
      covers the texts of the Latin-1 range, on which case mapping, white
      space and the regular expression classes are written out in full.
    - An array length is a [nat]; it becomes a number where the source does
      arithmetic on it.
    - The keyword analysis is modelled a second time, in [Wide], on texts of
      Latin-1 code units and the three code units outside Latin-1 whose case
      mapping meets the basic alphabet. *)

From Stdlib Require Import ZArith List Bool Ascii String Lia.
From Stdlib Require Import Floats.SpecFloat.
From Stdlib Require Import DecimalString DecimalN.
Import ListNotations.

Local Open Scope string_scope.
Local Open Scope Z_scope.

(** ** JavaScript numbers *)

Module JSNumber.

Definition prec : Z := 53.
Definition emax : Z := 1024.

Definition number : Type := spec_float.

Definition NaN : number := S754_nan.
Definition Infinity : number := S754_infinity false.
Definition NegInfinity : number := S754_infinity true.

(** The number denoted by an integer literal or held by an integer value. *)
Definition of_Z (z : Z) : number := binary_normalize prec emax z 0 false.
Definition of_nat (n : nat) : number := of_Z (Z.of_nat n).

Definition add : number -> number -> number := SFadd prec emax.
Definition sub : number -> number -> number := SFsub prec emax.
Definition mul : number -> number -> number := SFmul prec emax.
Definition div : number -> number -> number := SFdiv prec emax.
Definition abs : number -> number := SFabs.

(** The relational operators [<] and [<=]; both are false on NaN. *)
Definition lt : number -> number -> bool := SFltb.
Definition le : number -> number -> bool := SFleb.

(** [Math.min(x, y)]: NaN if either argument is NaN; [-0] is below [+0]. *)
Definition Math_min (x y : number) : number :=
  match x, y with
  | S754_nan, _ | _, S754_nan => NaN
  | S754_zero false, S754_zero true => y
  | _, _ => if lt y x then y else x
  end.

(** [Math.max(x, y)]: NaN if either argument is NaN; [+0] is above [-0]. *)
Definition Math_max (x y : number) : number :=
  match x, y with
  | S754_nan, _ | _, S754_nan => NaN
  | S754_zero true, S754_zero false => y
  | _, _ => if lt x y then y else x
  end.

(** [Math.round(x)]: [x] itself when it is not finite or is integral;
    otherwise the integer nearest to [x], a tie going toward +Infinity;
    a result of zero keeps the sign of [x].  For a finite [x = +-m * 2^e]
    with [e < 0] the nearest integer is [floor ((+-2m + 2^-e) / 2^(1-e))]. *)
Definition Math_round (x : number) : number :=
  match x with
  | S754_finite s m e =>
      if 0 <=? e then x
      else
        let k := - e in
        let n := Z.shiftr (cond_Zopp s (2 * Zpos m) + 2 ^ k) (k + 1) in
        if n =? 0 then S754_zero s else of_Z n
  | _ => x
  end.

End JSNumber.

(** ** JavaScript strings *)

Module JSString.

Definition code (c : ascii) : N := N_of_ascii c.

Definition in_range (lo hi : N) (c : ascii) : bool :=
  ((lo <=? code c) && (code c <=? hi))%N.

(** White space and line terminators, the class [\s] and what [trim]
    strips: TAB, LF, VT, FF, CR, SPACE and NO-BREAK SPACE. *)
Definition is_whitespace (c : ascii) : bool :=
  in_range 9 13 c || (code c =? 32)%N || (code c =? 160)%N.

(** The class [\d]. *)
Definition is_digit (c : ascii) : bool := in_range 48 57 c.

(** The class [\w]: letters of the basic alphabet, digits and underscore. *)
Definition is_word (c : ascii) : bool :=
  in_range 65 90 c || in_range 97 122 c || is_digit c || (code c =? 95)%N.

(** The class [[.!?]]. *)
Definition is_sentence_end (c : ascii) : bool :=
  (code c =? 46)%N || (code c =? 33)%N || (code c =? 63)%N.

(** Code units that have a distinct lower case form: A-Z, and in the
    Latin-1 supplement U+00C0-U+00DE without the multiplication sign. *)
Definition is_upper (c : ascii) : bool :=
  in_range 65 90 c || in_range 192 214 c || in_range 216 222 c.

Definition lower_char (c : ascii) : ascii :=
  if is_upper c then ascii_of_N (code c + 32) else c.

(** [s.toLowerCase()] on a string of Latin-1 code units; [Wide] below has
    the code units outside Latin-1 that matter to the keywords. *)
Fixpoint toLowerCase (s : string) : string :=
  match s with
  | EmptyString => EmptyString
  | String c s' => String (lower_char c) (toLowerCase s')
  end.

(** [s.includes(t)]: [t] occurs in [s] at some position. *)
Fixpoint includes (s t : string) : bool :=
  prefix t s ||
  match s with
  | EmptyString => false
  | String _ s' => includes s' t
  end.

Fixpoint trimStart (s : string) : string :=
  match s with
  | EmptyString => EmptyString
  | String c s' => if is_whitespace c then trimStart s' else s
  end.

Fixpoint trimEnd (s : string) : string :=
  match s with
  | EmptyString => EmptyString
  | String c s' =>
      match trimEnd s' with
      | EmptyString => if is_whitespace c then EmptyString else String c EmptyString
      | t => String c t
      end
  end.

Definition trim (s : string) : string := trimEnd (trimStart s).

(** [s.split(/[C]+/)] for a character class [C] given by [sep]: the
    fragments between the maximal runs of separators.  A run at the start
    or at the end of [s] leaves an empty fragment there, and a string with
    no separator is returned whole (the empty string too).  [cur] is the
    fragment being read and [inrun] tells that the previous code unit was
    a separator. *)
Fixpoint split_from (sep : ascii -> bool) (inrun : bool) (cur s : string)
  : list string :=
  match s with
  | EmptyString => [cur]
  | String c s' =>
      if sep c then
        if inrun then split_from sep true cur s'
        else cur :: split_from sep true EmptyString s'
      else split_from sep false (cur ++ String c EmptyString) s'
  end.

Definition split (sep : ascii -> bool) (s : string) : list string :=
  split_from sep false EmptyString s.

(** [/[C]$/.test(s)]: the last code unit of [s] is in the class. *)
Fixpoint test_class_at_end (cls : ascii -> bool) (s : string) : bool :=
  match s with
  | EmptyString => false
  | String c EmptyString => cls c
  | String _ s' => test_class_at_end cls s'
  end.

(** Four digits at the head of [s] followed by a word boundary. *)
Definition four_digits_then_boundary (s : string) : bool :=
  match s with
  | String a (String b (String c (String d rest))) =>
      is_digit a && is_digit b && is_digit c && is_digit d &&
      match rest with
      | EmptyString => true
      | String e _ => negb (is_word e)
      end
  | _ => false
  end.

(** [/\b\d{4}\b/.test(s)], scanning left to right; [prev_word] tells
    whether the code unit before the current position is a word character
    (false at the start of the string). *)
Fixpoint test_year_from (prev_word : bool) (s : string) : bool :=
  match s with
  | EmptyString => false
  | String c s' =>
      (negb prev_word && four_digits_then_boundary s)
      || test_year_from (is_word c) s'
  end.

Definition test_year (s : string) : bool := test_year_from false s.

End JSString.

(** ** The scorer *)

Module ResumeScoring.

Import JSNumber JSString.

Record ScoreBreakdown : Type := {
  formatting : number;
  keywords : number;
  grammar : number;
  readability : number
}.

Record ReadabilityMetrics : Type := {
  sentences : nat;
  avgWordsPerSentence : number;
  complexWords : nat
}.

Record ResumeAnalysis : Type := {
  overall : number;
  breakdown : ScoreBreakdown;
  suggestions : list string;
  matchedKeywords : list string;
  grammarIssues : list string;
  readabilityMetrics : ReadabilityMetrics
}.

(** Common job keywords for tech/business roles. *)
Definition jobKeywords : list string := [
  "react"; "javascript"; "typescript"; "python"; "node.js"; "aws"; "docker";
  "leadership"; "management"; "team"; "project"; "agile"; "scrum";
  "communication"; "problem-solving"; "analytical"; "strategic";
  "experience"; "skills"; "education"; "certification"; "achievement";
  "development"; "design"; "implementation"; "optimization"; "collaboration"
].

(** [arr.push(x)] on a local array. *)
Definition push {A : Type} (arr : list A) (x : A) : list A := arr ++ [x].

Definition dquote : string := String (ascii_of_N 34) EmptyString.

Definition msg_lowercase_i : string :=
  "Use of lowercase " ++ dquote ++ "i" ++ dquote ++ " instead of "
    ++ dquote ++ "I" ++ dquote.
Definition msg_missing_punctuation : string :=
  "Missing punctuation at the end".
Definition msg_multiple_spaces : string :=
  "Multiple consecutive spaces found".

Definition sug_keywords : string :=
  "Include more relevant industry keywords and technical skills".
Definition sug_grammar : string :=
  "Review grammar and punctuation throughout the document".
Definition sug_readability : string :=
  "Simplify sentence structure and reduce complex terminology".
Definition sug_formatting : string :=
  "Ensure proper formatting with consistent structure and contact information".
Definition sug_skills : string :=
  "Add more specific technical skills and industry-relevant terms".

(** The locals of [analyzeResume], one definition per [const]. *)

Definition text_of (content : string) : string := toLowerCase content.

Definition sentences_of (content : string) : list string :=
  filter (fun s => (0 <? String.length (trim s))%nat)
         (split is_sentence_end content).

Definition words_of (content : string) : list string :=
  filter (fun w => (0 <? String.length w)%nat)
         (split is_whitespace content).

(** Keyword analysis. *)
Definition matchedKeywords_of (content : string) : list string :=
  filter (fun keyword => includes (text_of content) (toLowerCase keyword))
         jobKeywords.

Definition keywordScore (content : string) : number :=
  Math_min
    (mul (div (of_nat (List.length (matchedKeywords_of content)))
              (of_nat (List.length jobKeywords)))
         (of_Z 100))
    (of_Z 100).

(** Grammar analysis (basic): three checks pushing onto [grammarIssues]. *)
Definition grammarIssues_of (content : string) : list string :=
  let grammarIssues := [] in
  let grammarIssues :=
    if includes (text_of content) " i "
    then push grammarIssues msg_lowercase_i else grammarIssues in
  let grammarIssues :=
    if negb (test_class_at_end is_sentence_end (trim content))
    then push grammarIssues msg_missing_punctuation else grammarIssues in
  let grammarIssues :=
    if includes content "  "
    then push grammarIssues msg_multiple_spaces else grammarIssues in
  grammarIssues.

Definition grammarScore (content : string) : number :=
  Math_max
    (sub (of_Z 100)
         (mul (of_nat (List.length (grammarIssues_of content))) (of_Z 15)))
    (of_Z 0).

(** Readability analysis. *)
Definition avgWordsPerSentence_of (content : string) : number :=
  div (of_nat (List.length (words_of content)))
      (of_nat (List.length (sentences_of content))).

Definition complexWords_of (content : string) : nat :=
  List.length (filter (fun word => (7 <? String.length word)%nat)
                      (words_of content)).

Definition readabilityScore (content : string) : number :=
  Math_min
    (sub (sub (of_Z 100)
              (mul (abs (sub (avgWordsPerSentence_of content) (of_Z 15)))
                   (of_Z 2)))
         (mul (div (of_nat (complexWords_of content))
                   (of_nat (List.length (words_of content))))
              (of_Z 50)))
    (of_Z 100).

(** Formatting analysis (basic checks) on the mutable [formattingScore]. *)
Definition formattingScore (content : string) : number :=
  let formattingScore := of_Z 100 in
  let formattingScore :=
    if (String.length content <? 200)%nat
    then sub formattingScore (of_Z 30) else formattingScore in
  let formattingScore :=
    if (5000 <? String.length content)%nat
    then sub formattingScore (of_Z 20) else formattingScore in
  let formattingScore :=
    if negb (includes content "@")
    then sub formattingScore (of_Z 10) else formattingScore in
  let formattingScore :=
    if negb (test_year content)
    then sub formattingScore (of_Z 10) else formattingScore in
  Math_max formattingScore (of_Z 0).

Definition breakdown_of (content : string) : ScoreBreakdown :=
  {| formatting := Math_round (formattingScore content);
     keywords := Math_round (keywordScore content);
     grammar := Math_round (grammarScore content);
     readability := Math_round (readabilityScore content) |}.

Definition overall_of (b : ScoreBreakdown) : number :=
  Math_round
    (div (add (add (add (formatting b) (keywords b)) (grammar b))
              (readability b))
         (of_Z 4)).

(** Generate suggestions: five checks pushing onto [suggestions]. *)
Definition suggestions_of (b : ScoreBreakdown) (matched : list string)
  : list string :=
  let suggestions := [] in
  let suggestions :=
    if lt (keywords b) (of_Z 60)
    then push suggestions sug_keywords else suggestions in
  let suggestions :=
    if lt (grammar b) (of_Z 80)
    then push suggestions sug_grammar else suggestions in
  let suggestions :=
    if lt (readability b) (of_Z 70)
    then push suggestions sug_readability else suggestions in
  let suggestions :=
    if lt (formatting b) (of_Z 80)
    then push suggestions sug_formatting else suggestions in
  let suggestions :=
    if (List.length matched <? 5)%nat
    then push suggestions sug_skills else suggestions in
  suggestions.

Definition analyzeResume (content : string) : ResumeAnalysis :=
  let matched := matchedKeywords_of content in
  let breakdown := breakdown_of content in
  let overall := overall_of breakdown in
  let suggestions := suggestions_of breakdown matched in
  let avg := avgWordsPerSentence_of content in
  {| overall := overall;
     breakdown := breakdown;
     suggestions := suggestions;
     matchedKeywords := matched;
     grammarIssues := grammarIssues_of content;
     readabilityMetrics :=
       {| sentences := List.length (sentences_of content);
          avgWordsPerSentence :=
            div (Math_round (mul avg (of_Z 10))) (of_Z 10);
          complexWords := complexWords_of content |} |}.

End ResumeScoring.

(** ** The body of [analyzeResume] over its mutable bindings

    The source builds [grammarIssues] and [suggestions] with [push] and
    updates [formattingScore] in place.  [Imperative] runs the same
    statements over a store that holds these three bindings; the store a
    call starts from is whatever an earlier call left behind. *)

Module Imperative.

Import JSNumber JSString ResumeScoring.

Record Store : Type := {
  st_grammarIssues : list string;
  st_suggestions : list string;
  st_formattingScore : number
}.

Definition M (A : Type) : Type := Store -> A * Store.

Definition ret {A : Type} (a : A) : M A := fun st => (a, st).

Definition bind {A B : Type} (m : M A) (f : A -> M B) : M B :=
  fun st => let (a, st') := m st in f a st'.

Notation "x <- m ;; k" := (bind m (fun x => k))
  (at level 61, m at next level, right associativity).
Notation "m ;;; k" := (bind m (fun _ => k))
  (at level 61, right associativity).

Definition get_grammarIssues : M (list string) :=
  fun st => (st_grammarIssues st, st).
Definition get_suggestions : M (list string) :=
  fun st => (st_suggestions st, st).
Definition get_formattingScore : M number :=
  fun st => (st_formattingScore st, st).

Definition set_grammarIssues (v : list string) : M unit :=
  fun st => (tt, {| st_grammarIssues := v;
                    st_suggestions := st_suggestions st;
                    st_formattingScore := st_formattingScore st |}).
Definition set_suggestions (v : list string) : M unit :=
  fun st => (tt, {| st_grammarIssues := st_grammarIssues st;
                    st_suggestions := v;
                    st_formattingScore := st_formattingScore st |}).
Definition set_formattingScore (v : number) : M unit :=
  fun st => (tt, {| st_grammarIssues := st_grammarIssues st;
                    st_suggestions := st_suggestions st;
                    st_formattingScore := v |}).

(** [if (c) stmt] *)
Definition when (c : bool) (stmt : M unit) : M unit :=
  if c then stmt else ret tt.

Definition push_grammarIssue (msg : string) : M unit :=
  l <- get_grammarIssues ;; set_grammarIssues (push l msg).
Definition push_suggestion (msg : string) : M unit :=
  l <- get_suggestions ;; set_suggestions (push l msg).
(** [formattingScore -= d] *)
Definition decrease_formattingScore (d : number) : M unit :=
  v <- get_formattingScore ;; set_formattingScore (sub v d).

(** Grammar analysis (basic): the statements on [grammarIssues]. *)
Definition grammar_checks (text content : string) : M unit :=
  set_grammarIssues [] ;;;
  when (includes text " i ") (push_grammarIssue msg_lowercase_i) ;;;
  when (negb (test_class_at_end is_sentence_end (trim content)))
       (push_grammarIssue msg_missing_punctuation) ;;;
  when (includes content "  ") (push_grammarIssue msg_multiple_spaces).

(** Formatting analysis (basic checks): the statements on
    [formattingScore]. *)
Definition formatting_checks (content : string) : M unit :=
  set_formattingScore (of_Z 100) ;;;
  when (String.length content <? 200)%nat
       (decrease_formattingScore (of_Z 30)) ;;;
  when (5000 <? String.length content)%nat
       (decrease_formattingScore (of_Z 20)) ;;;
  when (negb (includes content "@")) (decrease_formattingScore (of_Z 10)) ;;;
  when (negb (test_year content)) (decrease_formattingScore (of_Z 10)) ;;;
  fs <- get_formattingScore ;;
  set_formattingScore (Math_max fs (of_Z 0)).

(** Generate suggestions: the statements on [suggestions]. *)
Definition generate_suggestions
  (breakdown : ScoreBreakdown) (matchedKeywords : list string) : M unit :=
  set_suggestions [] ;;;
  when (lt (keywords breakdown) (of_Z 60)) (push_suggestion sug_keywords) ;;;
  when (lt (grammar breakdown) (of_Z 80)) (push_suggestion sug_grammar) ;;;
  when (lt (readability breakdown) (of_Z 70))
       (push_suggestion sug_readability) ;;;
  when (lt (formatting breakdown) (of_Z 80))
       (push_suggestion sug_formatting) ;;;
  when (List.length matchedKeywords <? 5)%nat (push_suggestion sug_skills).

Definition analyzeResume_body (content : string) : M ResumeAnalysis :=
  let text := toLowerCase content in
  let sentences := sentences_of content in
  let words := words_of content in
  let matchedKeywords :=
    filter (fun keyword => includes text (toLowerCase keyword)) jobKeywords in
  let keywordScore :=
    Math_min
      (mul (div (of_nat (List.length matchedKeywords))
                (of_nat (List.length jobKeywords)))
           (of_Z 100))
      (of_Z 100) in
  grammar_checks text content ;;;
  grammarIssues <- get_grammarIssues ;;
  let grammarScore :=
    Math_max
      (sub (of_Z 100) (mul (of_nat (List.length grammarIssues)) (of_Z 15)))
      (of_Z 0) in
  let avgWordsPerSentence :=
    div (of_nat (List.length words)) (of_nat (List.length sentences)) in
  let complexWords :=
    List.length (filter (fun word => (7 <? String.length word)%nat) words) in
  let readabilityScore :=
    Math_min
      (sub (sub (of_Z 100)
                (mul (abs (sub avgWordsPerSentence (of_Z 15))) (of_Z 2)))
           (mul (div (of_nat complexWords) (of_nat (List.length words)))
                (of_Z 50)))
      (of_Z 100) in
  formatting_checks content ;;;
  formattingScore <- get_formattingScore ;;
  let breakdown :=
    {| formatting := Math_round formattingScore;
       keywords := Math_round keywordScore;
       grammar := Math_round grammarScore;
       readability := Math_round readabilityScore |} in
  let overall :=
    Math_round
      (div (add (add (add (formatting breakdown) (keywords breakdown))
                     (grammar breakdown))
                (readability breakdown))
           (of_Z 4)) in
  generate_suggestions breakdown matchedKeywords ;;;
  suggestions <- get_suggestions ;;
  ret {| overall := overall;
         breakdown := breakdown;
         suggestions := suggestions;
         matchedKeywords := matchedKeywords;
         grammarIssues := grammarIssues;
         readabilityMetrics :=
           {| sentences := List.length sentences;
              avgWordsPerSentence :=
                div (Math_round (mul avgWordsPerSentence (of_Z 10)))
                    (of_Z 10);
              complexWords := complexWords |} |}.

(** What the component does with a text once its delay has elapsed: the
    guard on [resumeContent.trim()], then the call. *)
Record ComponentState : Type := {
  analysis : option ResumeAnalysis;
  isAnalyzing : bool
}.

Definition effect_fired (resumeContent : string) (cs : ComponentState)
  : ComponentState :=
  if (0 <? String.length (trim resumeContent))%nat
  then {| analysis := Some (analyzeResume resumeContent);
          isAnalyzing := false |}
  else {| analysis := None; isAnalyzing := isAnalyzing cs |}.

End Imperative.

(** ** Notions the properties are stated with *)

Module Spec.

Import JSNumber JSString ResumeScoring.

(** [t] occurs in [s] as a substring. *)
Definition contains (s t : string) : Prop :=
  exists pre post, s = pre ++ t ++ post.

(** Every code unit of [s] satisfies [p]. *)
Fixpoint all_chars (p : ascii -> bool) (s : string) : bool :=
  match s with
  | EmptyString => true
  | String c s' => p c && all_chars p s'
  end.

(** Whether the text read so far ends in a word character; [init] is the
    answer for the empty text. *)
Fixpoint ends_in_word (init : bool) (pre : string) : bool :=
  match pre with
  | EmptyString => init
  | String c pre' => ends_in_word (is_word c) pre'
  end.

Definition starts_with_word (post : string) : bool :=
  match post with
  | EmptyString => false
  | String c _ => is_word c
  end.

(** [t] occurs in [s] with no word character next to it on either side. *)
Definition standalone (s t : string) : Prop :=
  exists pre post,
    s = pre ++ t ++ post /\
    ends_in_word false pre = false /\ starts_with_word post = false.

Definition four_digits (t : string) : Prop :=
  exists a b c d,
    t = String a (String b (String c (String d EmptyString))) /\
    is_digit a = true /\ is_digit b = true /\
    is_digit c = true /\ is_digit d = true.

(** Two code units that are the same letter in possibly different case. *)
Inductive same_letter : ascii -> ascii -> Prop :=
| same_letter_refl : forall a, same_letter a a
| same_letter_lower : forall a, is_upper a = true -> same_letter a (lower_char a)
| same_letter_upper : forall a, is_upper a = true -> same_letter (lower_char a) a.

(** Two strings that differ only in the casing of their code units. *)
Inductive case_variant : string -> string -> Prop :=
| case_variant_nil : case_variant EmptyString EmptyString
| case_variant_cons : forall a b s t,
    same_letter a b -> case_variant s t ->
    case_variant (String a s) (String b t).

(** The number [x] holds an integer between [lo] and [hi]. *)
Definition integer_between (lo hi : Z) (x : number) : Prop :=
  exists z, lo <= z <= hi /\ x = of_Z z.

(** The mean of four numbers as the source computes it. *)
Definition mean4 (a b c d : number) : number :=
  div (add (add (add a b) c) d) (of_Z 4).

(** The deductions of the formatting score, over the integers. *)
Definition formatting_points (content : string) : Z :=
  Z.max 0
    (100
     - (if (String.length content <? 200)%nat then 30 else 0)
     - (if (5000 <? String.length content)%nat then 20 else 0)
     - (if includes content "@" then 0 else 10)
     - (if test_year content then 0 else 10)).

(** The nearest integer to [100 * n / 27], a tie going up. *)
Definition keyword_points (n : nat) : Z := (200 * Z.of_nat n + 27) / 54.

(** [n] copies of [s]. *)
Fixpoint repeat_string (s : string) (n : nat) : string :=
  match n with
  | O => EmptyString
  | S n' => s ++ repeat_string s n'
  end.

(** White space or one of the marks that end a sentence. *)
Definition blank_or_end (c : ascii) : bool :=
  is_whitespace c || is_sentence_end c.

(** A text for scenario C: an address, a year, and more than 5000
    characters. *)
Definition scenario_C_text : string :=
  "Contact john@example.com, since 2023. "
    ++ repeat_string "Led teams. " 500.

Ltac same_letter_tac :=
  match goal with
  | |- same_letter ?x ?y =>
      first [ exact (same_letter_refl x)
            | exact (same_letter_lower x eq_refl)
            | exact (same_letter_upper y eq_refl) ]
  end.

(** A number with the sign [s] that is not NaN and whose mantissa, when
    finite, is below [2^prec]. *)
Definition signed (s : bool) (x : number) : Prop :=
  match x with
  | S754_zero s' | S754_infinity s' => s' = s
  | S754_finite s' m _ => s' = s /\ Zpos m < 2 ^ prec
  | S754_nan => False
  end.

(** A finite number whose mantissa is below [2^prec], as every result of
    an arithmetic operation is. *)
Definition bounded_mantissa (x : number) : Prop :=
  match x with
  | S754_finite _ m _ => Zpos m < 2 ^ prec
  | _ => True
  end.

Definition not_nan (x : number) : Prop := x <> S754_nan.

Definition not_infinite (x : number) : Prop :=
  match x with S754_infinity _ => False | _ => True end.

(** A finite number above zero; zero or such a number. *)
Definition pos_finite (x : number) : Prop :=
  exists m e, x = S754_finite false m e.

Definition zero_or_pos (x : number) : Prop :=
  x = S754_zero false \/ pos_finite x.

Definition not_pos_infinity (x : number) : Prop :=
  x <> S754_infinity false.

(** The raw readability score for [w] words, [s] sentences and [c] complex
    words, as [readabilityScore] computes it before the cap. *)
Definition readability_formula (w s c : nat) : number :=
  sub (sub (of_Z 100)
           (mul (abs (sub (div (of_nat w) (of_nat s)) (of_Z 15))) (of_Z 2)))
      (mul (div (of_nat c) (of_nat w)) (of_Z 50)).

(** A text of 100 one-letter words in a single sentence. *)
Definition many_words_text : string := repeat_string "a " 100.

End Spec.

(** ** Further notions used in the statements *)

Module Notions.

Import JSNumber JSString.

(** Integers [lo], [lo+1], ..., [lo+n-1]. *)
Definition Zrange (lo : Z) (n : nat) : list Z :=
  map (fun i => lo + Z.of_nat i) (seq 0 n).

(** Structural equality of two numbers, as a test. *)
Definition number_eqb (x y : number) : bool :=
  match x, y with
  | S754_zero a, S754_zero b => Bool.eqb a b
  | S754_infinity a, S754_infinity b => Bool.eqb a b
  | S754_nan, S754_nan => true
  | S754_finite s m e, S754_finite s' m' e' =>
      Bool.eqb s s' && Pos.eqb m m' && Z.eqb e e'
  | _, _ => false
  end.

(** The text is empty or white space only: the test [!content.trim()]. *)
Definition blank (content : string) : Prop :=
  (0 <? String.length (trim content))%nat = false.

(** The last code unit of [s] that is not white space, if any. *)
Fixpoint last_nonblank (s : string) : option ascii :=
  match s with
  | EmptyString => None
  | String c s' =>
      match last_nonblank s' with
      | Some d => Some d
      | None => if is_whitespace c then None else Some c
      end
  end.

(** The number [x] is the integer [z]. *)
Definition is_integer (x : number) (z : Z) : Prop :=
  match x with
  | S754_zero _ => z = 0
  | S754_finite s m e =>
      if 0 <=? e then z = cond_Zopp s (Zpos m * 2 ^ e)
      else cond_Zopp s (Zpos m) = z * 2 ^ (- e)
  | _ => False
  end.

(** The integer [n] is the nearest to the number [x], a tie going up:
    [n - 1/2 <= x < n + 1/2]. *)
Definition nearest_integer (x : number) (n : Z) : Prop :=
  match x with
  | S754_zero _ => n = 0
  | S754_finite s m e =>
      if 0 <=? e then n = cond_Zopp s (Zpos m * 2 ^ e)
      else (2 * n - 1) * 2 ^ (- e) <= 2 * cond_Zopp s (Zpos m)
           < (2 * n + 1) * 2 ^ (- e)
  | _ => False
  end.

(** The number [x] is finite and below [2^p] in magnitude. *)
Definition mag_le (p : Z) (x : number) : Prop :=
  match x with
  | S754_zero _ => True
  | S754_finite _ m e => Zdigits2 (Zpos m) + e <= p
  | _ => False
  end.

(** The operator [===] on two numbers: false when either is NaN. *)
Definition strict_equal (x y : number) : bool := SFeqb x y.

End Notions.

(** ** The keyword analysis beyond Latin-1

    [toLowerCase] acts on every code unit of a text.  Outside Latin-1 three
    code units have a case mapping that meets the basic alphabet: the long
    s (U+017F) and the dotless i (U+0131), which are lower case letters
    whose upper case is S and I, and the Kelvin sign (U+212A), whose lower
    case is k.  The keyword analysis of [analyzeResume] is modelled here a
    second time, on texts of Latin-1 code units and these three; on such
    texts [toLowerCase] maps code unit by code unit. *)

Module Wide.

Import JSNumber JSString ResumeScoring.

Inductive code_unit : Type :=
| Latin1 (c : ascii)
| LongS
| DotlessI
| KelvinSign.

Definition text : Type := list code_unit.

Definition code_unit_eqb (a b : code_unit) : bool :=
  match a, b with
  | Latin1 x, Latin1 y => Ascii.eqb x y
  | LongS, LongS | DotlessI, DotlessI | KelvinSign, KelvinSign => true
  | _, _ => false
  end.

(** The text of a string of Latin-1 code units. *)
Fixpoint of_string (s : string) : text :=
  match s with
  | EmptyString => []
  | String c s' => Latin1 c :: of_string s'
  end.

Definition lower_unit (u : code_unit) : code_unit :=
  match u with
  | Latin1 c => Latin1 (lower_char c)
  | LongS => LongS
  | DotlessI => DotlessI
  | KelvinSign => Latin1 "k"
  end.

Definition toLowerCase (s : text) : text := map lower_unit s.

Fixpoint prefix (t s : text) : bool :=
  match t, s with
  | [], _ => true
  | a :: t', b :: s' => code_unit_eqb a b && prefix t' s'
  | _ :: _, [] => false
  end.

(** [s.includes(t)] *)
Fixpoint includes (s t : text) : bool :=
  prefix t s ||
  match s with
  | [] => false
  | _ :: s' => includes s' t
  end.

Definition text_of (content : text) : text := toLowerCase content.

Definition matchedKeywords_of (content : text) : list string :=
  filter (fun keyword =>
            includes (text_of content) (toLowerCase (of_string keyword)))
         jobKeywords.

Definition keywordScore (content : text) : number :=
  Math_min
    (mul (div (of_nat (List.length (matchedKeywords_of content)))
              (of_nat (List.length jobKeywords)))
         (of_Z 100))
    (of_Z 100).

(** The field [keywords] of the breakdown. *)
Definition keywords_of (content : text) : number :=
  Math_round (keywordScore content).

End Wide.

(** ** Casing, on the wider alphabet *)

Module WideSpec.

Import JSString Wide.

(** The code unit [u.toUpperCase()], when it is one code unit of the
    alphabet of [Wide]: the sharp s becomes two code units, and the micro
    sign and the y with diaeresis leave the alphabet. *)
Definition upper_unit (u : code_unit) : option code_unit :=
  match u with
  | Latin1 c =>
      if in_range 97 122 c || in_range 224 246 c || in_range 248 254 c
      then Some (Latin1 (ascii_of_N (code c - 32)))
      else if (code c =? 223)%N || (code c =? 181)%N || (code c =? 255)%N
           then None
           else Some u
  | LongS => Some (Latin1 "S")
  | DotlessI => Some (Latin1 "I")
  | KelvinSign => Some KelvinSign
  end.

(** Two code units of which one is the lower case of the other. *)
Inductive lower_pair : code_unit -> code_unit -> Prop :=
| lower_pair_refl : forall a, lower_pair a a
| lower_pair_lower : forall a, lower_pair a (lower_unit a)
| lower_pair_lowered : forall a, lower_pair (lower_unit a) a.

(** Two code units that are forms of one letter: one is the lower case or
    the upper case of the other. *)
Inductive case_forms : code_unit -> code_unit -> Prop :=
| case_forms_lower : forall a b, lower_pair a b -> case_forms a b
| case_forms_upper : forall a b, upper_unit a = Some b -> case_forms a b
| case_forms_uppered : forall a b, upper_unit a = Some b -> case_forms b a.

(** Two texts that differ only in the casing of their code units. *)
Definition differ_in_casing (s t : text) : Prop := Forall2 case_forms s t.

(** Two texts that differ only by code units mapped to lower case. *)
Definition lower_variant (s t : text) : Prop := Forall2 lower_pair s t.

(** The word [skills] spelt with the long s. *)
Definition long_s_kills : text := LongS :: of_string "kills".

(** The word [docker] spelt with the Kelvin sign for its [k]. *)
Definition docker_with_kelvin : text :=
  (of_string "doc" ++ KelvinSign :: of_string "er")%list.

Ltac lower_pair_tac :=
  match goal with
  | |- lower_pair ?x ?y =>
      first [ exact (lower_pair_refl x)
            | exact (lower_pair_lower x)
            | exact (lower_pair_lowered y) ]
  end.

End WideSpec.

(** ** What the scoring component shows *)

Module Display.

Import JSNumber JSString ResumeScoring.

(** The relational operator [>=]; false on NaN. *)
Definition ge (x y : number) : bool :=
  match SFcompare x y with
  | Some (Gt | Eq) => true
  | _ => false
  end.

Inductive Icon : Type := CheckCircle | AlertCircle | XCircle.

Definition getScoreColor (score : number) : string :=
  if ge score (of_Z 80) then "success"
  else if ge score (of_Z 60) then "warning"
  else "destructive".

Definition getScoreIcon (score : number) : Icon :=
  if ge score (of_Z 80) then CheckCircle
  else if ge score (of_Z 60) then AlertCircle
  else XCircle.

(** The badge under the overall score: its variant and its label. *)
Definition badgeVariant (overall : number) : string :=
  if ge overall (of_Z 80) then "default"
  else if ge overall (of_Z 60) then "secondary"
  else "destructive".

Definition badgeLabel (overall : number) : string :=
  if ge overall (of_Z 80) then "Excellent"
  else if ge overall (of_Z 60) then "Good"
  else "Needs Improvement".

End Display.

(** ** The scoring component as a transition system

    The state holds the prop [resumeContent], the two state variables, the
    pending timeout with the text its callback closes over, and whether the
    effect of the last render has still to run.  An effect runs when the
    prop has changed; the cleanup of the previous effect runs first, and
    pending effects are flushed before the next render. *)

Module Component.

Import JSNumber JSString ResumeScoring.

Record State : Type := {
  resumeContent : string;
  analysis : option ResumeAnalysis;
  isAnalyzing : bool;
  timer : option string;
  effectPending : bool
}.

(** A string in a condition: true unless empty. *)
Definition truthy (s : string) : bool := (0 <? String.length s)%nat.

Definition mount (content : string) : State :=
  {| resumeContent := content; analysis := None; isAnalyzing := false;
     timer := None; effectPending := true |}.

(** The cleanup [clearTimeout(timer)] of the previous run, then the body of
    the effect. *)
Definition run_effect (st : State) : State :=
  if truthy (trim (resumeContent st)) then
    {| resumeContent := resumeContent st; analysis := analysis st;
       isAnalyzing := true; timer := Some (resumeContent st);
       effectPending := false |}
  else
    {| resumeContent := resumeContent st; analysis := None;
       isAnalyzing := isAnalyzing st; timer := None;
       effectPending := false |}.

Definition flush (st : State) : State :=
  if effectPending st then run_effect st else st.

(** The callback of [setTimeout]. *)
Definition timer_fired (st : State) : State :=
  match timer st with
  | Some content =>
      {| resumeContent := resumeContent st;
         analysis := Some (analyzeResume content);
         isAnalyzing := false; timer := None;
         effectPending := effectPending st |}
  | None => st
  end.

(** A render with the prop [content]. *)
Definition rerender (content : string) (st : State) : State :=
  let st' := flush st in
  if String.eqb content (resumeContent st') then st'
  else {| resumeContent := content; analysis := analysis st';
          isAnalyzing := isAnalyzing st'; timer := timer st';
          effectPending := true |}.

Inductive Event : Type :=
| Rerender (content : string)
| FlushEffects
| TimerFired.

Definition step (st : State) (ev : Event) : State :=
  match ev with
  | Rerender content => rerender content st
  | FlushEffects => flush st
  | TimerFired => timer_fired st
  end.

Definition run (content : string) (evs : list Event) : State :=
  fold_left step evs (mount content).

(** What the component returns. *)
Inductive View : Type :=
| Placeholder
| Analyzing
| Nothing
| Results (a : ResumeAnalysis).

Definition render (st : State) : View :=
  if negb (truthy (trim (resumeContent st))) then Placeholder
  else if isAnalyzing st then Analyzing
  else match analysis st with
       | None => Nothing
       | Some a => Results a
       end.

(** What holds in every state the component can reach.  A pending timer
    belongs to a run of the effect on a text that is not blank, and
    [isAnalyzing] is set while it is pending.  Once the effect of the last
    render has run: the timer is for the current text; an analysis in
    progress has its timer; a finished one is that of the current text; and
    for a blank text there is neither an analysis nor a timer. *)
Definition Inv (st : State) : Prop :=
  (forall c, timer st = Some c ->
     isAnalyzing st = true /\ truthy (trim c) = true /\
     (effectPending st = false -> c = resumeContent st)) /\
  (effectPending st = false ->
   truthy (trim (resumeContent st)) = true ->
   isAnalyzing st = true -> timer st = Some (resumeContent st)) /\
  (effectPending st = false ->
   truthy (trim (resumeContent st)) = true ->
   isAnalyzing st = false ->
   analysis st = Some (analyzeResume (resumeContent st))) /\
  (effectPending st = false ->
   truthy (trim (resumeContent st)) = false ->
   analysis st = None /\ timer st = None).

End Component.

(** ** The upload component

    A handler is one step: it maps the state of the component to the state
    after it, together with the calls it makes to the outside, in order.
    What the outside answers (the clock, the libraries that extract the
    text, the two storage calls that report an error) is a parameter of the
    step.  Other handlers running while [processFile] awaits are outside the
    model. *)

Module Upload.

Import JSString ResumeScoring.

Record File : Type := {
  name : string;
  type : string;
  size : nat
}.

Record State : Type := {
  isDragging : bool;
  isProcessing : bool;
  pastedText : string;
  uploadedFile : option File
}.

(** The calls the handlers make to the outside, in order. *)
Inductive Call : Type :=
| OnResumeContent (content : string) (filename : option string)
| Toast (title description : string) (destructive : bool)
| StorageUpload (path : string) (file : File)
| DbInsert (filename file_path : string) (file_size : nat)
           (content_preview : option string)
| DbUpdatePreview (file_path content_preview : string)
| ConsoleError.

(** A thrown value: an [Error] with its message, or something else. *)
Inductive Thrown : Type :=
| ErrorWith (message : string)
| NotAnError.

(** What the outside answers during one [processFile]: the clock, the text
    the libraries extract (or what they throw), and the [error] fields of
    the two storage calls. *)
Record Outcomes : Type := {
  now : N;
  pdf_pages : Thrown + list (list string);
  docx_value : Thrown + string;
  txt_text : Thrown + string;
  uploadError : option string;
  dbError : option string
}.

Definition string_of_N (n : N) : string :=
  NilEmpty.string_of_uint (N.to_uint n).

(** [items.join(' ')] *)
Fixpoint join_space (items : list string) : string :=
  match items with
  | [] => ""
  | [x] => x
  | x :: rest => x ++ " " ++ join_space rest
  end.

(** The loop over the pages of a PDF. *)
Fixpoint pdf_text (pages : list (list string)) : string :=
  match pages with
  | [] => ""
  | items :: rest => (join_space items ++ String (ascii_of_N 10) "") ++ pdf_text rest
  end.

Definition mime_pdf : string := "application/pdf".
Definition mime_docx : string :=
  "application/vnd.openxmlformats-officedocument.wordprocessingml.document".
Definition mime_txt : string := "text/plain".

Definition msg_unsupported : string :=
  "Unsupported file format. Please use PDF, DOCX, or TXT files.".

(** The branch on [file.type]. *)
Definition extract (file : File) (o : Outcomes) : Thrown + string :=
  if String.eqb (type file) mime_pdf then
    match pdf_pages o with
    | inl t => inl t
    | inr pages => inr (pdf_text pages)
    end
  else if String.eqb (type file) mime_docx then docx_value o
  else if String.eqb (type file) mime_txt then txt_text o
  else inl (ErrorWith msg_unsupported).

Definition storage_path (now : N) (file : File) : string :=
  string_of_N now ++ "_" ++ name file.

Definition uploadToStorage (file : File) (o : Outcomes)
  : (Thrown + string) * list Call :=
  let filePath := storage_path (now o) file in
  match uploadError o with
  | Some message =>
      (inl (ErrorWith ("Upload failed: " ++ message)),
       [StorageUpload filePath file])
  | None =>
      match dbError o with
      | Some message =>
          (inl (ErrorWith ("Database error: " ++ message)),
           [StorageUpload filePath file;
            DbInsert (name file) filePath (size file) None])
      | None =>
          (inr filePath,
           [StorageUpload filePath file;
            DbInsert (name file) filePath (size file) None])
      end
  end.

Definition msg_uploaded (file : File) : string :=
  "Resume " ++ dquote ++ name file ++ dquote
    ++ " uploaded and saved successfully!".

(** The [catch] block. *)
Definition on_error (t : Thrown) : list Call :=
  [ConsoleError;
   Toast "Error"
         (match t with
          | ErrorWith message => message
          | NotAnError => "Failed to process file"
          end)
         true].

Definition processFile (st : State) (file : File) (o : Outcomes)
  : State * list Call :=
  let finished (uploaded : option File) :=
    {| isDragging := isDragging st; isProcessing := false;
       pastedText := pastedText st; uploadedFile := uploaded |} in
  match extract file o with
  | inl t => (finished (uploadedFile st), on_error t)
  | inr content =>
      match uploadToStorage file o with
      | (inl t, calls) => (finished (uploadedFile st), calls ++ on_error t)
      | (inr filePath, calls) =>
          (finished (Some file),
           calls ++
           [DbUpdatePreview filePath (substring 0 1000 content);
            OnResumeContent content (Some (name file));
            Toast "Success" (msg_uploaded file) false])
      end
  end%list.

(** [handleFileSelect]: the first file, if any. *)
Definition handleFileSelect (st : State) (files : list File) (o : Outcomes)
  : State * list Call :=
  match files with
  | file :: _ => processFile st file o
  | [] => (st, [])
  end.

(** [handleDrop]: the drag ends, then the first file, if any. *)
Definition handleDrop (st : State) (files : list File) (o : Outcomes)
  : State * list Call :=
  handleFileSelect
    {| isDragging := false; isProcessing := isProcessing st;
       pastedText := pastedText st; uploadedFile := uploadedFile st |}
    files o.

Definition handleTextSubmit (st : State) : State * list Call :=
  if (0 <? String.length (trim (pastedText st)))%nat then
    ({| isDragging := isDragging st; isProcessing := isProcessing st;
        pastedText := pastedText st; uploadedFile := None |},
     [OnResumeContent (pastedText st) (Some "Pasted Resume");
      Toast "Success" "Resume text submitted successfully!" false])
  else (st, []).

Definition clearUpload (st : State) : State * list Call :=
  ({| isDragging := isDragging st; isProcessing := isProcessing st;
      pastedText := ""; uploadedFile := None |},
   [OnResumeContent "" None]).

(** The [onChange] of the text area: [setPastedText(e.target.value)]. *)
Definition textChanged (value : string) (st : State) : State :=
  {| isDragging := isDragging st; isProcessing := isProcessing st;
     pastedText := value; uploadedFile := uploadedFile st |}.

(** The button [Analyze Pasted Text] is disabled. *)
Definition submit_disabled (st : State) : bool :=
  negb (0 <? String.length (trim (pastedText st)))%nat
  || match uploadedFile st with Some _ => true | None => false end.

End Upload.

(** ** Notions about the calls of the upload component *)

Module UploadNotions.

Import Upload.

Definition is_OnResumeContent (c : Call) : bool :=
  match c with OnResumeContent _ _ => true | _ => false end.
Definition is_StorageUpload (c : Call) : bool :=
  match c with StorageUpload _ _ => true | _ => false end.
Definition is_DbInsert (c : Call) : bool :=
  match c with DbInsert _ _ _ _ => true | _ => false end.
Definition is_Toast (c : Call) : bool :=
  match c with Toast _ _ _ => true | _ => false end.
Definition is_error_Toast (c : Call) : bool :=
  match c with Toast _ _ true => true | _ => false end.

(** The text was extracted. *)
Definition extracted (file : File) (o : Outcomes) : bool :=
  match extract file o with inr _ => true | inl _ => false end.

Definition no_error (e : option string) : bool :=
  match e with None => true | Some _ => false end.

(** Extraction and both storage calls went through. *)
Definition succeeded (file : File) (o : Outcomes) : bool :=
  extracted file o && no_error (uploadError o) && no_error (dbError o).

Definition supported (file : File) : bool :=
  String.eqb (type file) mime_pdf || String.eqb (type file) mime_docx
  || String.eqb (type file) mime_txt.

End UploadNotions.

(** ** The page: the upload component feeds the scoring component *)

Module Page.

Record State : Type := {
  resumeContent : string;
  filename : option string;
  upload : Upload.State;
  scoring : Component.State
}.

(** [handleResumeContent], followed by the render it causes. *)
Definition handleResumeContent (content : string) (file : option string)
  (st : State) : State :=
  {| resumeContent := content; filename := file; upload := upload st;
     scoring := Component.rerender content (scoring st) |}.

(** The calls a handler made, delivered to the page. *)
Fixpoint deliver (calls : list Upload.Call) (st : State) : State :=
  match calls with
  | [] => st
  | Upload.OnResumeContent content file :: rest =>
      deliver rest (handleResumeContent content file st)
  | _ :: rest => deliver rest st
  end.

Definition initial : State :=
  {| resumeContent := ""; filename := None;
     upload := {| Upload.isDragging := false; Upload.isProcessing := false;
                  Upload.pastedText := ""; Upload.uploadedFile := None |};
     scoring := Component.mount "" |}.

Definition textTyped (value : string) (st : State) : State :=
  {| resumeContent := resumeContent st; filename := filename st;
     upload := Upload.textChanged value (upload st);
     scoring := scoring st |}.

Definition textSubmitted (st : State) : State :=
  let (u, calls) := Upload.handleTextSubmit (upload st) in
  deliver calls
    {| resumeContent := resumeContent st; filename := filename st;
       upload := u; scoring := scoring st |}.

Definition uploadCleared (st : State) : State :=
  let (u, calls) := Upload.clearUpload (upload st) in
  deliver calls
    {| resumeContent := resumeContent st; filename := filename st;
       upload := u; scoring := scoring st |}.

Definition fileProcessed (file : Upload.File) (o : Upload.Outcomes)
  (st : State) : State :=
  let (u, calls) := Upload.processFile (upload st) file o in
  deliver calls
    {| resumeContent := resumeContent st; filename := filename st;
       upload := u; scoring := scoring st |}.

(** The timer of the scoring component fires, after its effects. *)
Definition delayElapsed (st : State) : State :=
  {| resumeContent := resumeContent st; filename := filename st;
     upload := upload st;
     scoring := Component.timer_fired (Component.flush (scoring st)) |}.

End Page.

(** ** Row level security of the table of resumes *)

Module RowLevelSecurity.

(** A value of SQL's three-valued logic: [None] is NULL. *)
Definition sql_bool : Type := option bool.

Definition UUID : Type := N.

(** [a = b] *)
Definition sql_eq (a b : option UUID) : sql_bool :=
  match a, b with
  | Some x, Some y => Some (N.eqb x y)
  | _, _ => None
  end.

(** [p OR q] *)
Definition sql_or (p q : sql_bool) : sql_bool :=
  match p, q with
  | Some true, _ | _, Some true => Some true
  | Some false, Some false => Some false
  | _, _ => None
  end.

(** [x IS NULL] *)
Definition sql_is_null (x : option UUID) : sql_bool :=
  match x with None => Some true | Some _ => Some false end.

(** The columns of [public.resumes]. *)
Record Row : Type := {
  id : UUID;
  user_id : option UUID;
  filename : string;
  file_path : string;
  file_size : nat;
  content_preview : option string;
  uploaded_at : N;
  updated_at : N
}.

(** The expression of the four policies on the table:
    [auth.uid() = user_id OR user_id IS NULL]. *)
Definition policy (auth_uid : option UUID) (row : Row) : sql_bool :=
  sql_or (sql_eq auth_uid (user_id row)) (sql_is_null (user_id row)).

(** A policy admits a row when its expression is true (not false, not
    NULL). *)
Definition admits (auth_uid : option UUID) (row : Row) : bool :=
  match policy auth_uid row with Some true => true | _ => false end.

(** The row the client's [insert] creates: it names four columns; [id] and
    the two timestamps take their defaults and [user_id], which has none,
    is NULL. *)
Definition inserted_row (new_id : UUID) (current_time : N)
  (call : Upload.Call) : option Row :=
  match call with
  | Upload.DbInsert fname path fsize preview =>
      Some {| id := new_id; user_id := None; filename := fname;
              file_path := path; file_size := fsize;
              content_preview := preview;
              uploaded_at := current_time; updated_at := current_time |}
  | _ => None
  end.

(** The trigger [update_resumes_updated_at], before each update of a
    row. *)
Definition update_updated_at_column (current_time : N) (new_row : Row) : Row :=
  {| id := id new_row; user_id := user_id new_row;
     filename := filename new_row; file_path := file_path new_row;
     file_size := file_size new_row;
     content_preview := content_preview new_row;
     uploaded_at := uploaded_at new_row; updated_at := current_time |}.

End RowLevelSecurity.

Import JSNumber JSString ResumeScoring Spec.

(** * Properties *)

(** ** Strings *)

Section StringFacts.

Lemma append_nil_r (s : string) : s ++ "" = s.
Proof. induction s as [|c s IH]; simpl; [reflexivity | now rewrite IH]. Qed.

Lemma append_assoc (s t u : string) : (s ++ t) ++ u = s ++ (t ++ u).
Proof. induction s as [|c s IH]; simpl; [reflexivity | now rewrite IH]. Qed.

Lemma length_append (s t : string) :
  String.length (s ++ t) = (String.length s + String.length t)%nat.
Proof. induction s as [|c s IH]; simpl; [reflexivity | now rewrite IH]. Qed.

Lemma prefix_spec (t s : string) :
  prefix t s = true <-> exists post, s = t ++ post.
Proof.
  revert s; induction t as [|a t IH]; intros s.
  - split; [intros _; now exists s | now destruct s].
  - destruct s as [|b s]; simpl.
    + split; [discriminate | intros [post H]; discriminate].
    + destruct (ascii_dec a b) as [->|Hab].
      * rewrite IH. split; intros [post H]; exists post.
        -- now subst.
        -- now inversion H.
      * split; [discriminate | intros [post H]; inversion H; congruence].
Qed.

Lemma includes_spec (s t : string) : includes s t = true <-> contains s t.
Proof.
  unfold contains. induction s as [|c s IH].
  - cbn [includes]. rewrite orb_false_r, prefix_spec. split.
    + intros [post H]. now exists "", post.
    + intros [[|a pre] [post H]]; [now exists post | discriminate].
  - cbn [includes]. rewrite orb_true_iff, IH, prefix_spec. split.
    + intros [[post H] | [pre [post H]]].
      * now exists "", post.
      * exists (String c pre), post. now rewrite H.
    + intros [[|a pre] [post H]].
      * left. now exists post.
      * right. exists pre, post. now inversion H.
Qed.

Lemma contains_trans (s t u : string) :
  contains s t -> contains t u -> contains s u.
Proof.
  intros [p1 [q1 ->]] [p2 [q2 ->]].
  exists (p1 ++ p2), (q2 ++ q1). now rewrite !append_assoc.
Qed.

End StringFacts.

(** ** The primitives on examples *)

Example Math_round_ties :
  Math_round (div (of_Z 5) (of_Z 2)) = of_Z 3 /\
  Math_round (div (of_Z (-5)) (of_Z 2)) = of_Z (-2) /\
  Math_round (div (of_Z (-1)) (of_Z 2)) = S754_zero true /\
  Math_round (div (of_Z 1600) (of_Z 27)) = of_Z 59 /\
  Math_round NaN = NaN /\ Math_round NegInfinity = NegInfinity.
Proof. vm_compute. repeat split. Qed.

Example division_by_zero :
  div (of_Z 0) (of_Z 0) = NaN /\ div (of_Z 1) (of_Z 0) = Infinity.
Proof. vm_compute. repeat split. Qed.

Example split_examples :
  split is_sentence_end "Hi there. Bye!" = ["Hi there"; " Bye"; ""] /\
  split is_sentence_end "..a?!b" = [""; "a"; "b"] /\
  split is_sentence_end "Resume" = ["Resume"] /\
  split is_sentence_end "" = [""] /\
  split is_whitespace " a  b " = [""; "a"; "b"; ""].
Proof. vm_compute. repeat split. Qed.

Example test_year_examples :
  test_year "since 2023." = true /\ test_year "2023-2024" = true /\
  test_year "a2023" = false /\ test_year "20234" = false /\
  test_year "in 202" = false.
Proof. vm_compute. repeat split. Qed.

(** ** Scenario B *)

(** C8.  On the text of scenario B the grammar score is 100 (the lower-cased
    text has no isolated i between spaces, the text has no double space and
    ends with a period), the formatting score is 50 (100 - 30 for a length
    under 200, - 10 for no at-sign, - 10 for no four-digit run), and the
    matched keywords include react, python and experience. *)
Theorem scenario_B_scores :
  let content :=
    "I am a software engineer with experience in react and python." in
  let r := analyzeResume content in
  grammar (breakdown r) = of_Z 100 /\
  grammarIssues r = [] /\
  includes (toLowerCase content) " i " = false /\
  includes content "  " = false /\
  test_class_at_end is_sentence_end (trim content) = true /\
  formatting (breakdown r) = of_Z 50 /\
  (String.length content <? 200)%nat = true /\
  includes content "@" = false /\
  test_year content = false /\
  In "react" (matchedKeywords r) /\
  In "python" (matchedKeywords r) /\
  In "experience" (matchedKeywords r).
Proof.
  vm_compute. repeat split; auto.
Qed.

(** ** Grammar *)

Lemma grammarIssues_cases (content : string) :
  grammarIssues_of content =
    ((if includes (toLowerCase content) " i " then [msg_lowercase_i] else [])
     ++ (if test_class_at_end is_sentence_end (trim content)
         then [] else [msg_missing_punctuation])
     ++ (if includes content "  " then [msg_multiple_spaces] else []))%list.
Proof.
  unfold grammarIssues_of, text_of, push.
  destruct (includes (toLowerCase content) " i "),
           (test_class_at_end is_sentence_end (trim content)),
           (includes content "  "); reflexivity.
Qed.

(** The first grammar check reads the lower-cased text: it fires exactly
    when the text has an isolated i of either case between two spaces. *)
Lemma lowercase_i_issue_iff (content : string) :
  In msg_lowercase_i (grammarIssues (analyzeResume content)) <->
  contains (toLowerCase content) " i ".
Proof.
  rewrite <- includes_spec.
  unfold analyzeResume; cbn [grammarIssues]. rewrite grammarIssues_cases.
  destruct (includes (toLowerCase content) " i "),
           (test_class_at_end is_sentence_end (trim content)),
           (includes content "  "); cbn; split; intros H;
    try discriminate; auto;
    repeat (destruct H as [H|H]; try discriminate H); try contradiction.
Qed.

(** C3.  A text with a capitalised, isolated I and no lower-case isolated i:
    the first grammar check fires all the same, the issue is appended and
    15 points are deducted. *)
Theorem lowercase_i_check_fires_on_capital_I :
  let content := "Yesterday I went home." in
  let r := analyzeResume content in
  includes content " i " = false /\
  includes content " I " = true /\
  grammarIssues r = [msg_lowercase_i] /\
  grammar (breakdown r) = of_Z 85.
Proof.
  vm_compute. repeat split.
Qed.

(** C10.  The grammar score takes one of the four values 100, 85, 70, 55:
    there are at most three issues, each deducts 15 points, the difference
    is positive so that the lower clamp at 0 leaves it unchanged, and the
    score is at least 55.  Each of the four values is taken. *)
Theorem grammar_score_four_values (content : string) :
  let r := analyzeResume content in
  let g := grammar (breakdown r) in
  let n := List.length (grammarIssues r) in
  (n <= 3)%nat /\
  grammarScore content = sub (of_Z 100) (mul (of_nat n) (of_Z 15)) /\
  lt (of_Z 0) (sub (of_Z 100) (mul (of_nat n) (of_Z 15))) = true /\
  g = of_Z (100 - 15 * Z.of_nat n) /\
  (g = of_Z 100 \/ g = of_Z 85 \/ g = of_Z 70 \/ g = of_Z 55) /\
  le (of_Z 55) g = true /\
  grammar (breakdown (analyzeResume "Hi.")) = of_Z 100 /\
  grammar (breakdown (analyzeResume "Hi")) = of_Z 85 /\
  grammar (breakdown (analyzeResume "Hi  there")) = of_Z 70 /\
  grammar (breakdown (analyzeResume "so i  am")) = of_Z 55.
Proof.
  cbv zeta. unfold analyzeResume, breakdown_of, grammarScore.
  cbn [grammarIssues breakdown grammar].
  rewrite grammarIssues_cases.
  destruct (includes (toLowerCase content) " i "),
           (test_class_at_end is_sentence_end (trim content)),
           (includes content "  ");
    vm_compute; repeat split; auto; try discriminate.
Qed.

(** ** Suggestions *)


(** ** Formatting *)

Lemma test_year_from_intro (pre rest : string) (pw : bool) :
  ends_in_word pw pre = false ->
  four_digits_then_boundary rest = true ->
  test_year_from pw (pre ++ rest) = true.
Proof.
  revert pw; induction pre as [|c pre IH]; intros pw Hpre Hrest.
  - simpl in *. subst pw. destruct rest as [|a rest]; [discriminate|].
    cbn [test_year_from negb andb]. now rewrite Hrest.
  - cbn [append test_year_from]. rewrite (IH (is_word c)) by assumption.
    apply orb_true_r.
Qed.

Lemma test_year_from_elim (s : string) (pw : bool) :
  test_year_from pw s = true ->
  exists pre rest,
    s = pre ++ rest /\ ends_in_word pw pre = false /\
    four_digits_then_boundary rest = true.
Proof.
  revert pw; induction s as [|c s IH]; intros pw H; [discriminate|].
  cbn [test_year_from] in H. apply orb_true_iff in H as [H|H].
  - apply andb_true_iff in H as [Hpw H].
    exists "", (String c s). repeat split; [|assumption].
    now destruct pw.
  - destruct (IH _ H) as [pre [rest [-> [Hpre Hrest]]]].
    now exists (String c pre), rest.
Qed.

Lemma four_digits_then_boundary_spec (rest : string) :
  four_digits_then_boundary rest = true <->
  exists t post,
    rest = t ++ post /\ four_digits t /\ starts_with_word post = false.
Proof.
  split.
  - destruct rest as [|a [|b [|c [|d post]]]]; try discriminate.
    cbn [four_digits_then_boundary]. rewrite !andb_true_iff.
    intros [[[[Ha Hb] Hc] Hd] Hpost].
    exists (String a (String b (String c (String d "")))), post.
    repeat split.
    + now exists a, b, c, d.
    + destruct post; [reflexivity | now apply negb_true_iff].
  - intros [t [post [-> [[a [b [c [d [-> [Ha [Hb [Hc Hd]]]]]]]] Hpost]]]].
    cbn [append four_digits_then_boundary]. rewrite Ha, Hb, Hc, Hd.
    destruct post; [reflexivity|]. cbn in *. now rewrite Hpost.
Qed.

(** The year check holds exactly when four digits stand in the text with
    no word character next to them. *)
Lemma test_year_spec (s : string) :
  test_year s = true <-> exists t, four_digits t /\ standalone s t.
Proof.
  unfold test_year, standalone. split.
  - intros H. apply test_year_from_elim in H as [pre [rest [-> [Hpre H]]]].
    apply four_digits_then_boundary_spec in H as [t [post [-> [Ht Hpost]]]].
    exists t. split; [assumption|]. now exists pre, post.
  - intros [t [Ht [pre [post [-> [Hpre Hpost]]]]]].
    apply test_year_from_intro; [assumption|].
    apply four_digits_then_boundary_spec. now exists t, post.
Qed.

Lemma formattingScore_points (content : string) :
  formattingScore content = of_Z (formatting_points content).
Proof.
  unfold formattingScore, formatting_points.
  destruct (String.length content <? 200)%nat,
           (5000 <? String.length content)%nat,
           (includes content "@"), (test_year content);
    vm_compute; reflexivity.
Qed.

Lemma formatting_points_range (content : string) :
  30 <= formatting_points content <= 100.
Proof.
  unfold formatting_points.
  destruct (String.length content <? 200)%nat,
           (5000 <? String.length content)%nat,
           (includes content "@"), (test_year content); lia.
Qed.

Lemma Math_round_small_integer (z : Z) :
  0 <= z <= 100 -> Math_round (of_Z z) = of_Z z.
Proof.
  intros H.
  assert (Hn : z = Z.of_nat (Z.to_nat z)) by lia.
  assert (Hle : (Z.to_nat z <= 100)%nat) by lia.
  rewrite Hn. revert Hle. generalize (Z.to_nat z). intros n Hle.
  do 101 (destruct n as [|n]; [vm_compute; reflexivity|]).
  exfalso. lia.
Qed.

Lemma formatting_rounded_points (content : string) :
  formatting (breakdown (analyzeResume content)) =
  of_Z (formatting_points content).
Proof.
  unfold analyzeResume, breakdown_of. cbn [breakdown formatting].
  rewrite formattingScore_points. apply Math_round_small_integer.
  pose proof (formatting_points_range content). lia.
Qed.

(** C6.  The formatting score is 100 minus 30 for a length below 200, minus
    20 for a length above 5000, minus 10 when the text has no at-sign, minus
    10 when no four digits stand in the text between word boundaries,
    floored at 0.  A text of more than 5000 characters with the address
    john@example.com and a standalone 2023 scores 80. *)
Theorem formatting_score_deductions (content : string) :
  formattingScore content = of_Z (formatting_points content) /\
  formatting (breakdown (analyzeResume content)) =
    of_Z (formatting_points content) /\
  (includes content "@" = true <-> contains content "@") /\
  (test_year content = true <->
   exists t, four_digits t /\ standalone content t) /\
  ((5000 < String.length content)%nat ->
   contains content "john@example.com" ->
   standalone content "2023" ->
   formatting (breakdown (analyzeResume content)) = of_Z 80).
Proof.
  split; [apply formattingScore_points|].
  split; [apply formatting_rounded_points|].
  split; [apply includes_spec|].
  split; [apply test_year_spec|].
  intros Hlen Hmail Hyear.
  rewrite formatting_rounded_points. unfold formatting_points.
  assert (H1 : (String.length content <? 200)%nat = false)
    by (apply Nat.ltb_ge; lia).
  assert (H2 : (5000 <? String.length content)%nat = true)
    by (apply Nat.ltb_lt; lia).
  assert (H3 : includes content "@" = true).
  { apply includes_spec. apply (contains_trans _ _ _ Hmail).
    now exists "john", "example.com". }
  assert (H4 : test_year content = true).
  { apply test_year_spec. exists "2023". split; [|assumption].
    exists "2"%char, "0"%char, "2"%char, "3"%char. now vm_compute. }
  now rewrite H1, H2, H3, H4.
Qed.

Lemma formatting_score_deductions_witness :
  formatting (breakdown (analyzeResume scenario_C_text)) = of_Z 80.
Proof.
  apply (proj2 (proj2 (proj2 (proj2
           (formatting_score_deductions scenario_C_text))))).
  - apply Nat.ltb_lt. vm_compute. reflexivity.
  - exists "Contact ", (", since 2023. " ++ repeat_string "Led teams. " 500).
    reflexivity.
  - exists "Contact john@example.com, since ",
      (". " ++ repeat_string "Led teams. " 500).
    repeat split.
Defined.

(** ** Keywords and casing *)

Lemma lower_char_idempotent (a : ascii) :
  lower_char (lower_char a) = lower_char a.
Proof.
  destruct a as [[] [] [] [] [] [] [] []]; vm_compute; reflexivity.
Qed.

Lemma same_letter_lower_char (a b : ascii) :
  same_letter a b -> lower_char a = lower_char b.
Proof.
  intros [c | c Hc | c Hc]; auto using lower_char_idempotent.
Qed.

Lemma case_variant_toLowerCase (s t : string) :
  case_variant s t -> toLowerCase s = toLowerCase t.
Proof.
  induction 1 as [|a b s t Hab Hst IH]; [reflexivity|].
  cbn [toLowerCase]. now rewrite IH, (same_letter_lower_char a b Hab).
Qed.

Lemma case_variant_length (s t : string) :
  case_variant s t -> String.length s = String.length t.
Proof.
  induction 1; [reflexivity | simpl; congruence].
Qed.

(** ** Sentences *)

Lemma trimEnd_empty_iff (s : string) :
  trimEnd s = "" <-> all_chars is_whitespace s = true.
Proof.
  induction s as [|c s IH]; [easy|].
  cbn [trimEnd all_chars]. rewrite andb_true_iff, <- IH.
  destruct (trimEnd s); destruct (is_whitespace c); split; easy.
Qed.

Lemma trimStart_all_chars (s : string) :
  all_chars is_whitespace (trimStart s) = all_chars is_whitespace s.
Proof.
  induction s as [|c s IH]; [reflexivity|].
  cbn [trimStart]. destruct (is_whitespace c) eqn:E.
  - cbn [all_chars]. now rewrite E, IH.
  - reflexivity.
Qed.

Lemma trim_blank_iff (s : string) :
  (0 <? String.length (trim s))%nat = false <->
  all_chars is_whitespace s = true.
Proof.
  rewrite <- trimStart_all_chars, <- trimEnd_empty_iff. unfold trim.
  destruct (trimEnd (trimStart s)); split; easy.
Qed.

Lemma all_chars_append (p : ascii -> bool) (s t : string) :
  all_chars p (s ++ t) = all_chars p s && all_chars p t.
Proof.
  induction s as [|c s IH]; [reflexivity|].
  cbn [append all_chars]. now rewrite IH, andb_assoc.
Qed.

Lemma split_from_all_blank (inrun : bool) (cur s : string) :
  forallb (fun f => negb (0 <? String.length (trim f))%nat)
          (split_from is_sentence_end inrun cur s) =
  all_chars is_whitespace cur && all_chars blank_or_end s.
Proof.
  assert (Hb : forall f, negb (0 <? String.length (trim f))%nat
                         = all_chars is_whitespace f).
  { intros f. generalize (trim_blank_iff f).
    destruct (0 <? String.length (trim f))%nat,
             (all_chars is_whitespace f); intros [H1 H2];
      first [ reflexivity
            | discriminate (H1 eq_refl) | discriminate (H2 eq_refl) ]. }
  revert inrun cur; induction s as [|c s IH]; intros inrun cur.
  - cbn [split_from forallb all_chars]. now rewrite Hb, !andb_true_r.
  - cbn [split_from all_chars]. unfold blank_or_end at 1.
    destruct (is_sentence_end c) eqn:Ec.
    + rewrite orb_true_r. cbn [andb]. destruct inrun.
      * apply IH.
      * cbn [forallb]. rewrite Hb, IH. reflexivity.
    + rewrite orb_false_r, IH, all_chars_append. cbn [all_chars].
      now rewrite andb_true_r, andb_assoc.
Qed.

Lemma filter_length_zero_iff {A : Type} (p : A -> bool) (l : list A) :
  List.length (filter p l) = 0%nat <-> forallb (fun x => negb (p x)) l = true.
Proof.
  induction l as [|x l IH]; [easy|].
  cbn [filter forallb]. destruct (p x); cbn; [easy|]. exact IH.
Qed.

(** The text has no sentence exactly when it consists of white space and
    sentence punctuation only. *)
Lemma sentence_count_zero_iff (content : string) :
  List.length (sentences_of content) = 0%nat <->
  all_chars blank_or_end content = true.
Proof.
  unfold sentences_of, split.
  rewrite filter_length_zero_iff, split_from_all_blank. reflexivity.
Qed.

(** C4, as the code has it.  The single word Resume is one sentence, with
    an average of one word per sentence; the sentence count is 0 exactly for
    the texts made of white space and of the marks [.], [!], [?] only. *)
Theorem sentence_count_of_single_word (content : string) :
  sentences (readabilityMetrics (analyzeResume "Resume")) = 1%nat /\
  avgWordsPerSentence (readabilityMetrics (analyzeResume "Resume")) = of_Z 1 /\
  (sentences (readabilityMetrics (analyzeResume content)) = 0%nat <->
   all_chars blank_or_end content = true).
Proof.
  split; [reflexivity|]. split; [vm_compute; reflexivity|].
  apply sentence_count_zero_iff.
Qed.

Lemma sentence_count_of_single_word_witness :
  sentences (readabilityMetrics (analyzeResume "?! ...")) = 0%nat.
Proof.
  apply (proj2 (proj2 (sentence_count_of_single_word "?! ..."))).
  reflexivity.
Defined.

(** C4, as stated, fails on its own example: the word Resume has no
    sentence punctuation and still counts as one sentence. *)
Lemma single_word_is_one_sentence :
  all_chars (fun c => negb (is_sentence_end c)) "Resume" = true /\
  sentences (readabilityMetrics (analyzeResume "Resume")) = 1%nat /\
  sentences (readabilityMetrics (analyzeResume "Resume")) <> 0%nat.
Proof.
  repeat split. discriminate.
Qed.

(** ** Purity *)

Section Purity.

Import Imperative.

Lemma grammar_checks_run (content : string) g s f :
  grammar_checks (toLowerCase content) content
    {| st_grammarIssues := g; st_suggestions := s; st_formattingScore := f |}
  = (tt, {| st_grammarIssues := grammarIssues_of content;
            st_suggestions := s; st_formattingScore := f |}).
Proof.
  unfold grammar_checks, grammarIssues_of, text_of.
  destruct (includes (toLowerCase content) " i "),
           (test_class_at_end is_sentence_end (trim content)),
           (includes content "  "); reflexivity.
Qed.

Lemma formatting_checks_run (content : string) g s f :
  formatting_checks content
    {| st_grammarIssues := g; st_suggestions := s; st_formattingScore := f |}
  = (tt, {| st_grammarIssues := g; st_suggestions := s;
            st_formattingScore := formattingScore content |}).
Proof.
  unfold formatting_checks, formattingScore.
  destruct (String.length content <? 200)%nat,
           (5000 <? String.length content)%nat,
           (includes content "@"), (test_year content); reflexivity.
Qed.

Lemma generate_suggestions_run (b : ScoreBreakdown) (matched : list string)
  g s f :
  generate_suggestions b matched
    {| st_grammarIssues := g; st_suggestions := s; st_formattingScore := f |}
  = (tt, {| st_grammarIssues := g;
            st_suggestions := suggestions_of b matched;
            st_formattingScore := f |}).
Proof.
  unfold generate_suggestions, suggestions_of.
  destruct (lt (keywords b) (of_Z 60)), (lt (grammar b) (of_Z 80)),
           (lt (readability b) (of_Z 70)), (lt (formatting b) (of_Z 80)),
           (List.length matched <? 5)%nat; reflexivity.
Qed.

(** Running the body from any store returns the value of [analyzeResume]
    and leaves the three bindings at the values the call computed. *)
Lemma analyzeResume_body_run (content : string) (st : Store) :
  analyzeResume_body content st =
  (analyzeResume content,
   {| st_grammarIssues := grammarIssues_of content;
      st_suggestions := suggestions (analyzeResume content);
      st_formattingScore := formattingScore content |}).
Proof.
  destruct st as [g s f]. unfold analyzeResume_body. cbv zeta.
  unfold bind at 1. rewrite grammar_checks_run.
  unfold bind at 1, get_grammarIssues at 1. cbn [st_grammarIssues].
  unfold bind at 1. rewrite formatting_checks_run.
  unfold bind at 1, get_formattingScore at 1. cbn [st_formattingScore].
  unfold bind at 1. rewrite generate_suggestions_run.
  cbv beta iota delta [bind ret get_suggestions st_suggestions].
  unfold analyzeResume, breakdown_of, overall_of, keywordScore, grammarScore,
    readabilityScore, avgWordsPerSentence_of, complexWords_of,
    matchedKeywords_of, text_of.
  cbv zeta. cbn [suggestions]. reflexivity.
Qed.

(** C9.  The result of a call depends on the text only: it is the same
    from any two stores, it is the value of the function [analyzeResume],
    a second call from the store the first one left returns the same
    record, and what the component stores for a text does not depend on
    its earlier state. *)
Theorem analyzeResume_deterministic
  (content : string) (st1 st2 : Store) (cs1 cs2 : ComponentState) :
  fst (analyzeResume_body content st1) = fst (analyzeResume_body content st2)
  /\ fst (analyzeResume_body content st1) = analyzeResume content
  /\ fst (analyzeResume_body content (snd (analyzeResume_body content st1)))
     = fst (analyzeResume_body content st1)
  /\ analysis (effect_fired content cs1) = analysis (effect_fired content cs2).
Proof.
  rewrite !analyzeResume_body_run. cbn [fst snd].
  repeat split. unfold effect_fired.
  destruct (0 <? String.length (trim content))%nat; reflexivity.
Qed.

End Purity.

(** ** Numbers *)

Section NumberFacts.

Lemma digits2_pos_size (p : positive) : digits2_pos p = Pos.size p.
Proof. induction p; simpl; congruence. Qed.

Lemma Zdigits2_log2 (m : Z) : 0 < m -> Zdigits2 m = Z.log2 m + 1.
Proof.
  destruct m as [|p|p]; try lia. intros _. simpl.
  rewrite digits2_pos_size. destruct p; simpl; lia.
Qed.

Lemma Zdigits2_nonneg (m : Z) : 0 <= Zdigits2 m.
Proof. destruct m; simpl; lia. Qed.

Lemma Zdigits2_lt_pow (m : Z) : 0 <= m -> m < 2 ^ Zdigits2 m.
Proof.
  intros H. destruct (Z.eq_dec m 0) as [->|Hm]; [reflexivity|].
  rewrite Zdigits2_log2 by lia.
  apply Z.log2_spec. lia.
Qed.

Lemma Zdigits2_le_of_lt_pow (m k : Z) : 0 <= k -> 0 <= m < 2 ^ k -> Zdigits2 m <= k.
Proof.
  intros Hk [H0 H]. destruct (Z.eq_dec m 0) as [->|Hm]; [simpl; lia|].
  rewrite Zdigits2_log2 by lia.
  assert (Z.log2 m < k) by (apply Z.log2_lt_pow2; lia). lia.
Qed.

Lemma shr_1_m (mrs : shr_record) :
  0 <= shr_m mrs -> shr_m (shr_1 mrs) = Z.div2 (shr_m mrs).
Proof.
  destruct mrs as [m r s]. simpl. destruct m as [|[p|p|]|p]; simpl; try reflexivity; lia.
Qed.

Lemma iter_pos_shr_1_m (p : positive) (mrs : shr_record) :
  0 <= shr_m mrs ->
  shr_m (iter_pos shr_1 p mrs) = Z.shiftr (shr_m mrs) (Zpos p).
Proof.
  revert mrs. induction p as [p IH|p IH|]; intros mrs H; cbn [iter_pos].
  - assert (H1 : 0 <= shr_m (shr_1 mrs))
      by (rewrite shr_1_m by assumption; now apply Z.div2_nonneg).
    assert (H2 : 0 <= shr_m (iter_pos shr_1 p (shr_1 mrs)))
      by (rewrite IH by assumption; now apply Z.shiftr_nonneg).
    rewrite IH, IH, shr_1_m by assumption.
    rewrite Z.div2_spec, !Z.shiftr_shiftr by lia. f_equal. lia.
  - assert (H2 : 0 <= shr_m (iter_pos shr_1 p mrs))
      by (rewrite IH by assumption; now apply Z.shiftr_nonneg).
    rewrite IH, IH by assumption.
    rewrite Z.shiftr_shiftr by lia. f_equal. lia.
  - rewrite shr_1_m by assumption. apply Z.div2_spec.
Qed.

Lemma shr_record_of_loc_m (m : Z) (l : location) :
  shr_m (shr_record_of_loc m l) = m.
Proof. destruct l as [|[]]; reflexivity. Qed.

(** What [shr_fexp] returns on a non-negative mantissa. *)
Lemma shr_fexp_spec (m e : Z) (l : location) :
  0 <= m ->
  let n := Z.max 0 (fexp prec emax (Zdigits2 m + e) - e) in
  shr_m (fst (shr_fexp prec emax m e l)) = Z.shiftr m n /\
  snd (shr_fexp prec emax m e l) = e + n.
Proof.
  intros Hm n. unfold shr_fexp, shr. subst n.
  destruct (fexp prec emax (Zdigits2 m + e) - e) as [|p|p] eqn:E; cbn [fst snd].
  - rewrite shr_record_of_loc_m. split; [reflexivity | lia].
  - rewrite iter_pos_shr_1_m, shr_record_of_loc_m
      by (now rewrite shr_record_of_loc_m).
    rewrite Z.max_r by lia. split; reflexivity.
  - rewrite shr_record_of_loc_m. rewrite Z.max_l by lia. split; [reflexivity | lia].
Qed.

Lemma shr_fexp_bounds (m e : Z) (l : location) :
  0 <= m ->
  0 <= shr_m (fst (shr_fexp prec emax m e l)) < 2 ^ prec.
Proof.
  intros Hm. destruct (shr_fexp_spec m e l Hm) as [-> _].
  set (n := Z.max 0 (fexp prec emax (Zdigits2 m + e) - e)).
  assert (Hn : 0 <= n) by (subst n; lia).
  split; [now apply Z.shiftr_nonneg|].
  rewrite Z.shiftr_div_pow2 by assumption.
  apply Z.div_lt_upper_bound; [apply Z.pow_pos_nonneg; lia|].
  rewrite <- Z.pow_add_r by (unfold prec; lia).
  apply Z.lt_le_trans with (2 ^ Zdigits2 m); [now apply Zdigits2_lt_pow|].
  apply Z.pow_le_mono_r; [lia|].
  pose proof (Zdigits2_nonneg m).
  subst n. unfold fexp, prec. lia.
Qed.

Lemma round_nearest_even_range (m : Z) (l : location) :
  m <= round_nearest_even m l <= m + 1.
Proof.
  destruct l as [|[]]; simpl; try lia. destruct (Z.even m); lia.
Qed.

Lemma signed_bounded s x : signed s x -> bounded_mantissa x.
Proof. destruct x; simpl; tauto. Qed.

Lemma signed_not_nan s x : signed s x -> not_nan x.
Proof. unfold not_nan. destruct x; simpl; intros H; try contradiction; discriminate. Qed.

Lemma binary_round_aux_signed (s : bool) (mx ex : Z) (lx : location) :
  0 <= mx -> signed s (binary_round_aux prec emax s mx ex lx).
Proof.
  intros Hm. unfold binary_round_aux.
  pose proof (shr_fexp_bounds mx ex lx Hm) as H1.
  destruct (shr_fexp prec emax mx ex lx) as [mrs' e']. cbn [fst] in H1.
  pose proof (round_nearest_even_range (shr_m mrs') (loc_of_shr_record mrs')) as H2.
  set (m1 := round_nearest_even (shr_m mrs') (loc_of_shr_record mrs')) in *.
  pose proof (shr_fexp_bounds m1 e' loc_Exact ltac:(lia)) as H3.
  destruct (shr_fexp prec emax m1 e' loc_Exact) as [mrs'' e'']. cbn [fst] in H3.
  destruct (shr_m mrs'') as [|m|m]; [reflexivity | | lia].
  match goal with |- context [Z.leb ?a ?b] => destruct (Z.leb a b) end;
    cbn [signed]; [split; [reflexivity | apply H3] | reflexivity].
Qed.

Lemma binary_round_signed (s : bool) (mx : positive) (ex : Z) :
  signed s (binary_round prec emax s mx ex).
Proof.
  unfold binary_round.
  destruct (shl_align mx ex (fexp prec emax (Z.pos (digits2_pos mx) + ex))) as [mz ez].
  now apply binary_round_aux_signed.
Qed.

Lemma binary_normalize_ok (z e : Z) :
  bounded_mantissa (binary_normalize prec emax z e false) /\
  not_nan (binary_normalize prec emax z e false).
Proof.
  destruct z as [|p|p]; simpl.
  - split; [exact I | discriminate].
  - pose proof (binary_round_signed false p e). eauto using signed_bounded, signed_not_nan.
  - pose proof (binary_round_signed true p e). eauto using signed_bounded, signed_not_nan.
Qed.

Lemma of_Z_bounded z : bounded_mantissa (of_Z z).
Proof. apply binary_normalize_ok. Qed.

Lemma abs_bounded x : bounded_mantissa x -> bounded_mantissa (abs x).
Proof. destruct x; simpl; auto. Qed.

Lemma mul_bounded x y :
  bounded_mantissa x -> bounded_mantissa y -> bounded_mantissa (mul x y).
Proof.
  destruct x as [sx|sx| |sx mx ex], y as [sy|sy| |sy my ey]; simpl; auto.
  intros _ _. eapply signed_bounded. apply binary_round_aux_signed. lia.
Qed.

Lemma SFdiv_core_binary_nonneg (m1 m2 : positive) (e1 e2 : Z) :
  0 <= fst (fst (SFdiv_core_binary prec emax (Zpos m1) e1 (Zpos m2) e2)).
Proof.
  unfold SFdiv_core_binary.
  set (s := e1 - e2 - _).
  set (m' := match s with Z0 => Zpos m1 | Zpos _ => Z.shiftl (Zpos m1) s | Zneg _ => 0 end).
  assert (Hm' : 0 <= m').
  { subst m'. destruct s; try lia. apply Z.shiftl_nonneg. lia. }
  pose proof (Z_div_mod m' (Zpos m2) ltac:(lia)) as H.
  destruct (Z.div_eucl m' (Zpos m2)) as [q r]. cbn [fst].
  destruct H as [H1 H2]. nia.
Qed.

Lemma div_bounded x y :
  bounded_mantissa x -> bounded_mantissa y -> bounded_mantissa (div x y).
Proof.
  destruct x as [sx|sx| |sx mx ex], y as [sy|sy| |sy my ey]; simpl; auto.
  intros _ _.
  pose proof (SFdiv_core_binary_nonneg mx my ex ey) as H.
  destruct (SFdiv_core_binary prec emax (Zpos mx) ex (Zpos my) ey) as [[mz ez] lz].
  eapply signed_bounded. apply binary_round_aux_signed. exact H.
Qed.

Lemma sub_bounded x y :
  bounded_mantissa x -> bounded_mantissa y -> bounded_mantissa (sub x y).
Proof.
  destruct x as [[]|[]| |sx mx ex], y as [[]|[]| |sy my ey]; simpl; auto.
  intros _ _. apply binary_normalize_ok.
Qed.

Lemma add_bounded x y :
  bounded_mantissa x -> bounded_mantissa y -> bounded_mantissa (add x y).
Proof.
  destruct x as [[]|[]| |sx mx ex], y as [[]|[]| |sy my ey]; simpl; auto.
  intros _ _. apply binary_normalize_ok.
Qed.

Lemma Math_min_bounded x y :
  bounded_mantissa x -> bounded_mantissa y -> bounded_mantissa (Math_min x y).
Proof.
  intros Hx Hy. unfold Math_min.
  destruct x as [[]|[]| |sx mx ex], y as [[]|[]| |sy my ey]; try exact I;
    try (destruct (lt _ _); assumption); assumption.
Qed.

Lemma Zdigits2_mono (a b : Z) : 0 <= a <= b -> Zdigits2 a <= Zdigits2 b.
Proof.
  intros [Ha Hab]. apply Zdigits2_le_of_lt_pow; [apply Zdigits2_nonneg|].
  split; [assumption|]. apply Z.le_lt_trans with b; [assumption|].
  apply Zdigits2_lt_pow. lia.
Qed.

(** Rounding does not overflow when the magnitude is below [2^1023]. *)
Lemma binary_round_aux_no_overflow (s : bool) (mx ex : Z) (lx : location) :
  0 <= mx -> ex <= 970 -> Zdigits2 mx + ex <= 1023 ->
  not_infinite (binary_round_aux prec emax s mx ex lx).
Proof.
  intros Hm He Hd. unfold binary_round_aux.
  pose proof (shr_fexp_bounds mx ex lx Hm) as H1.
  pose proof (shr_fexp_spec mx ex lx Hm) as [_ E1]. cbv zeta in E1.
  destruct (shr_fexp prec emax mx ex lx) as [mrs' e']. cbn [fst snd] in *.
  pose proof (round_nearest_even_range (shr_m mrs') (loc_of_shr_record mrs')) as H2.
  set (m1 := round_nearest_even (shr_m mrs') (loc_of_shr_record mrs')) in *.
  assert (Hm1 : 0 <= m1) by lia.
  pose proof (shr_fexp_spec m1 e' loc_Exact Hm1) as [_ E2]. cbv zeta in E2.
  assert (Hd1 : Zdigits2 m1 <= 54).
  { apply Zdigits2_le_of_lt_pow; [lia|].
    assert (2 ^ prec < 2 ^ 54) by reflexivity. lia. }
  destruct (shr_fexp prec emax m1 e' loc_Exact) as [mrs'' e'']. cbn [fst snd] in *.
  assert (He'' : e'' <= emax - prec).
  { subst e'' e'. unfold fexp, SpecFloat.emin, emax, prec in *. lia. }
  destruct (shr_m mrs'') as [|m|m]; try exact I.
  apply Z.leb_le in He''. rewrite He''. exact I.
Qed.

Lemma digits2_pos_iter_xO (m d : positive) :
  digits2_pos (Pos.iter xO m d) = (digits2_pos m + d)%positive.
Proof.
  induction d as [|d IH] using Pos.peano_ind.
  - simpl. lia.
  - rewrite Pos.iter_succ. simpl. rewrite IH. lia.
Qed.

Lemma shl_align_spec (mx : positive) (ex ex' : Z) :
  let mz := fst (shl_align mx ex ex') in
  let ez := snd (shl_align mx ex ex') in
  ez = Z.min ex ex' /\
  Zpos (digits2_pos mz) + ez = Zpos (digits2_pos mx) + ex.
Proof.
  unfold shl_align. destruct (ex' - ex) as [|d|d] eqn:E; cbn [fst snd].
  - split; lia.
  - split; lia.
  - rewrite digits2_pos_iter_xO. split; lia.
Qed.

Lemma binary_round_no_overflow (s : bool) (mx : positive) (ex : Z) :
  ex <= 970 -> Zpos (digits2_pos mx) + ex <= 1023 ->
  not_infinite (binary_round prec emax s mx ex).
Proof.
  intros He Hd. unfold binary_round.
  pose proof (shl_align_spec mx ex (fexp prec emax (Zpos (digits2_pos mx) + ex)))
    as [E1 E2]. cbv zeta in *.
  destruct (shl_align mx ex (fexp prec emax (Zpos (digits2_pos mx) + ex)))
    as [mz ez]. cbn [fst snd] in *.
  apply binary_round_aux_no_overflow; [lia | lia | cbn [Zdigits2]; lia].
Qed.

(** A mantissa of full width at an exponent in range is kept as it is. *)
Lemma binary_round_aux_exact (s : bool) (mz : positive) (ez : Z) :
  Zpos (digits2_pos mz) = prec -> -1074 <= ez <= 971 ->
  binary_round_aux prec emax s (Zpos mz) ez loc_Exact = S754_finite s mz ez.
Proof.
  intros Hd He. unfold binary_round_aux.
  assert (E : shr_fexp prec emax (Zpos mz) ez loc_Exact =
              ({| shr_m := Zpos mz; shr_r := false; shr_s := false |}, ez)).
  { unfold shr_fexp. cbn [Zdigits2]. rewrite Hd.
    replace (fexp prec emax (prec + ez) - ez) with 0
      by (unfold fexp, SpecFloat.emin, emax, prec; lia).
    reflexivity. }
  rewrite E. cbn [shr_m loc_of_shr_record round_nearest_even]. rewrite E.
  cbn [shr_m]. replace (ez <=? emax - prec) with true; [reflexivity|].
  symmetry. apply Z.leb_le. unfold emax, prec. lia.
Qed.

(** An integer below [2^53] is held exactly, as a positive finite number. *)
Lemma of_Z_finite (n : Z) :
  0 < n < 2 ^ prec -> exists m e, of_Z n = S754_finite false m e.
Proof.
  intros [H0 H]. destruct n as [|p|p]; try lia.
  unfold of_Z, binary_normalize, binary_round.
  assert (Hd : Zpos (digits2_pos p) <= prec).
  { change (Zpos (digits2_pos p)) with (Zdigits2 (Zpos p)).
    apply Zdigits2_le_of_lt_pow; [unfold prec|]; lia. }
  pose proof (shl_align_spec p 0 (fexp prec emax (Zpos (digits2_pos p) + 0)))
    as [E1 E2]. cbv zeta in *.
  destruct (shl_align p 0 (fexp prec emax (Zpos (digits2_pos p) + 0)))
    as [mz ez]. cbn [fst snd] in *.
  assert (Hez : ez = Zpos (digits2_pos p) - prec)
    by (unfold fexp, SpecFloat.emin, emax, prec in *; lia).
  exists mz, ez. apply binary_round_aux_exact; unfold prec in *; lia.
Qed.

Lemma of_nat_cases (n : nat) :
  Z.of_nat n < 2 ^ prec ->
  (n = 0%nat /\ of_nat n = S754_zero false) \/
  ((0 < n)%nat /\ exists m e, of_nat n = S754_finite false m e).
Proof.
  intros H. destruct n as [|n].
  - left. split; reflexivity.
  - right. split; [lia|]. apply of_Z_finite. lia.
Qed.

(** *** Comparison *)

Lemma SFcompare_antisym (x y : number) :
  SFcompare y x = option_map CompOpp (SFcompare x y).
Proof.
  destruct x as [[]|[]| |[] mx ex], y as [[]|[]| |[] my ey]; try reflexivity;
    cbn [SFcompare option_map]; rewrite (Z.compare_antisym ex ey);
    pose proof (Pos.compare_cont_antisym mx my Eq) as H; cbn [CompOpp] in H;
    destruct (ex ?= ey); cbn [CompOpp]; try reflexivity;
    rewrite <- H; reflexivity.
Qed.

Lemma le_not_gt (x y : number) : le x y = true -> lt y x = false.
Proof.
  unfold le, lt, SFleb, SFltb. rewrite (SFcompare_antisym x y).
  destruct (SFcompare x y) as [[]|]; simpl; congruence.
Qed.

Lemma not_gt_le (x y : number) :
  not_nan x -> not_nan y -> lt y x = false -> le x y = true.
Proof.
  unfold le, lt, SFleb, SFltb, not_nan. rewrite (SFcompare_antisym x y).
  intros Hx Hy.
  destruct (SFcompare x y) as [[]|] eqn:E; simpl; try congruence.
  intros _. destruct x as [[]|[]| |[] mx ex], y as [[]|[]| |[] my ey];
    simpl in E; congruence.
Qed.

Lemma Math_min_le_100 (x : number) :
  not_nan x -> le (Math_min x (of_Z 100)) (of_Z 100) = true.
Proof.
  intros Hx. change (of_Z 100) with (S754_finite false 7036874417766400 (-46)).
  unfold Math_min.
  destruct x as [[]|[]| |sx mx ex]; try reflexivity.
  - now contradiction Hx.
  - destruct (lt (S754_finite false 7036874417766400 (-46))
               (S754_finite sx mx ex)) eqn:E; [reflexivity|].
    apply not_gt_le; [discriminate | discriminate | exact E].
Qed.

Lemma small_integer_le_100 (n : Z) :
  0 <= n <= 100 -> le (of_Z n) (of_Z 100) = true.
Proof.
  intros H.
  assert (Hn : n = Z.of_nat (Z.to_nat n)) by lia.
  assert (Hle : (Z.to_nat n <= 100)%nat) by lia.
  rewrite Hn. revert Hle. generalize (Z.to_nat n). intros k Hle.
  do 101 (destruct k as [|k]; [vm_compute; reflexivity|]).
  exfalso. lia.
Qed.

Lemma negative_le_100 (x : number) :
  signed true x -> le x (of_Z 100) = true.
Proof.
  change (of_Z 100) with (S754_finite false 7036874417766400 (-46)).
  destruct x as [s|s| |s m e]; simpl.
  - intros ->. reflexivity.
  - intros ->. reflexivity.
  - contradiction.
  - intros [-> _]. reflexivity.
Qed.

(** Rounding keeps a number that is at most 100 at most 100. *)
Lemma Math_round_le_100 (y : number) :
  bounded_mantissa y ->
  le y (of_Z 100) = true -> le (Math_round y) (of_Z 100) = true.
Proof.
  destruct y as [s|s| |s m e]; cbn [Math_round].
  1-3: intros _ H; exact H.
  intros Hb Hle. destruct (0 <=? e) eqn:He; [exact Hle|].
  apply Z.leb_gt in He. cbv zeta.
  remember (- e) as k eqn:Ek.
  assert (Hk : 0 < k) by lia.
  assert (HP : 0 < 2 ^ k) by (apply Z.pow_pos_nonneg; lia).
  assert (HP2 : 2 ^ (k + 1) = 2 * 2 ^ k) by (rewrite Z.pow_add_r by lia; lia).
  rewrite Z.shiftr_div_pow2 by lia. rewrite HP2.
  remember ((cond_Zopp s (2 * Zpos m) + 2 ^ k) / (2 * 2 ^ k)) as n eqn:En.
  destruct (n =? 0) eqn:En0.
  - destruct s; reflexivity.
  - apply Z.eqb_neq in En0. destruct s; cbn [cond_Zopp] in En.
    + assert (Hn : n < 1) by (subst n; apply Z.div_lt_upper_bound; lia).
      destruct n as [|p|p]; try lia.
      apply negative_le_100. apply (binary_round_signed true p 0).
    + assert (Hn0 : 0 <= n) by (subst n; apply Z.div_pos; lia).
      apply small_integer_le_100. split; [lia|].
      assert (Hn : n < 101); [|lia].
      subst n. apply Z.div_lt_upper_bound; [lia|].
      change (of_Z 100) with (S754_finite false 7036874417766400 (-46)) in Hle.
      unfold le, SFleb in Hle. cbn [SFcompare] in Hle.
      cbn [bounded_mantissa] in Hb.
      change (2 ^ prec) with 9007199254740992 in Hb.
      destruct (Z.compare_spec e (-46)) as [E|E|E]; try discriminate Hle.
      * assert (Hm : Zpos m <= 7036874417766400).
        { unfold Z.le. cbn [Z.compare]. unfold Pos.compare. intros HG.
          rewrite HG in Hle. discriminate Hle. }
        assert (Hk46 : k = 46) by lia. rewrite Hk46 in *.
        change (2 ^ 46) with 70368744177664 in *. lia.
      * assert (H47 : 2 ^ 47 <= 2 ^ k) by (apply Z.pow_le_mono_r; lia).
        change (2 ^ 47) with 140737488355328 in H47. lia.
Qed.

(** *** The readability formula is not NaN when there is a word *)

Lemma of_nat_zero_or_pos (n : nat) :
  Z.of_nat n < 2 ^ prec -> zero_or_pos (of_nat n).
Proof.
  intros H. destruct (of_nat_cases n H) as [[_ E]|[_ E]]; [now left | now right].
Qed.

Lemma of_nat_pos_finite (n : nat) :
  (0 < n)%nat -> Z.of_nat n < 2 ^ prec -> pos_finite (of_nat n).
Proof.
  intros H0 H. destruct (of_nat_cases n H) as [[E _]|[_ E]]; [lia | exact E].
Qed.

Lemma div_signed (x y : number) :
  zero_or_pos x -> zero_or_pos y -> not_nan (div x y) -> signed false (div x y).
Proof.
  intros [->|[mx [ex ->]]] [->|[my [ey ->]]] Hn; cbn; try reflexivity.
  - now contradiction Hn.
  - pose proof (SFdiv_core_binary_nonneg mx my ex ey) as H.
    destruct (SFdiv_core_binary prec emax (Zpos mx) ex (Zpos my) ey)
      as [[mz ez] lz].
    apply binary_round_aux_signed. exact H.
Qed.

Lemma div_not_nan (x y : number) :
  zero_or_pos x -> zero_or_pos y -> pos_finite x \/ pos_finite y ->
  not_nan (div x y).
Proof.
  intros [->|[mx [ex ->]]] [->|[my [ey ->]]] H; cbn; try discriminate.
  - destruct H as [[? [? H]]|[? [? H]]]; discriminate H.
  - pose proof (SFdiv_core_binary_nonneg mx my ex ey) as H0.
    destruct (SFdiv_core_binary prec emax (Zpos mx) ex (Zpos my) ey)
      as [[mz ez] lz].
    eapply signed_not_nan. apply binary_round_aux_signed. exact H0.
Qed.

Lemma sub_not_nan_finite (x y : number) :
  signed false x -> pos_finite y -> not_nan (sub x y).
Proof.
  intros Hx [my [ey ->]]. destruct x as [sx|sx| |sx mx ex]; cbn in *.
  - discriminate.
  - discriminate.
  - contradiction.
  - apply binary_normalize_ok.
Qed.

Lemma abs_signed (x : number) :
  not_nan x -> bounded_mantissa x -> signed false (abs x).
Proof.
  destruct x; cbn; intros Hn Hb; auto.
Qed.

Lemma mul_signed (x y : number) :
  signed false x -> pos_finite y -> signed false (mul x y).
Proof.
  intros Hx [my [ey ->]]. destruct x as [sx|sx| |sx mx ex]; cbn in *.
  - now subst.
  - now subst.
  - contradiction.
  - destruct Hx as [-> _]. apply binary_round_aux_signed. lia.
Qed.

(** [100 - a] for a non-negative [a]: neither NaN nor +Infinity. *)
Lemma sub_100_signed (a : number) :
  signed false a ->
  not_nan (sub (of_Z 100) a) /\ not_pos_infinity (sub (of_Z 100) a) /\
  bounded_mantissa (sub (of_Z 100) a).
Proof.
  intros Ha. split; [|split].
  3: { apply sub_bounded; [apply of_Z_bounded | eapply signed_bounded; eauto]. }
  all: change (of_Z 100) with (S754_finite false 7036874417766400 (-46));
    destruct a as [sa|sa| |sa ma ea]; cbn [signed] in Ha;
    try contradiction; try (subst sa; discriminate).
  - destruct Ha as [-> _]. apply binary_normalize_ok.
  - destruct Ha as [-> _]. unfold sub, SFsub. cbv zeta. cbn [cond_Zopp].
    set (ez := Z.min (-46) ea).
    pose proof (shl_align_spec 7036874417766400 (-46) ez) as [E1 E2].
    cbv zeta in E1, E2.
    set (mx := fst (shl_align 7036874417766400 (-46) ez)) in *.
    set (my := fst (shl_align ma ea ez)) in *.
    change (Zpos (digits2_pos 7036874417766400)) with 53 in E2.
    unfold binary_normalize, not_pos_infinity.
    destruct (Zpos mx - Zpos my) as [|p|p] eqn:Ep; [discriminate| |].
    + assert (Hd : Zpos (digits2_pos p) <= Zpos (digits2_pos mx)).
      { change (Zdigits2 (Zpos p) <= Zdigits2 (Zpos mx)).
        apply Zdigits2_mono. lia. }
      pose proof (binary_round_no_overflow false p ez ltac:(lia) ltac:(lia)) as H.
      intros Hinf. rewrite Hinf in H. exact H.
    + pose proof (binary_round_signed true p ez) as H.
      intros Hinf. rewrite Hinf in H. discriminate H.
Qed.

Lemma sub_not_nan_final (t b : number) :
  not_nan t -> not_pos_infinity t -> signed false b -> not_nan (sub t b).
Proof.
  unfold not_nan, not_pos_infinity. intros Ht Hp Hb.
  destruct b as [sb|sb| |sb mb eb]; cbn [signed] in Hb;
    [subst sb | subst sb | contradiction | destruct Hb as [-> _]];
    (destruct t as [[]|[]| |st mt et];
     [ .. | exfalso; apply Ht; reflexivity | ]);
    try (exfalso; apply Hp; reflexivity);
    unfold sub, SFsub; cbv beta iota zeta;
    first [ discriminate | apply (proj2 (binary_normalize_ok _ _)) ].
Qed.

Lemma readability_formula_bounded (w s c : nat) :
  bounded_mantissa (readability_formula w s c).
Proof.
  unfold readability_formula, of_nat.
  repeat first [ apply sub_bounded | apply mul_bounded | apply div_bounded
               | apply abs_bounded | apply of_Z_bounded ].
Qed.

Lemma readability_formula_not_nan (w s c : nat) :
  (0 < w)%nat ->
  Z.of_nat w < 2 ^ prec -> Z.of_nat s < 2 ^ prec -> Z.of_nat c < 2 ^ prec ->
  not_nan (readability_formula w s c).
Proof.
  intros Hw0 Hw Hs Hc. unfold readability_formula.
  pose proof (of_nat_pos_finite w Hw0 Hw) as HW.
  pose proof (of_nat_zero_or_pos s Hs) as HS.
  pose proof (of_nat_zero_or_pos c Hc) as HC.
  assert (H15 : pos_finite (of_Z 15)) by (apply of_Z_finite; split; reflexivity).
  assert (H2 : pos_finite (of_Z 2)) by (apply of_Z_finite; split; reflexivity).
  assert (H50 : pos_finite (of_Z 50)) by (apply of_Z_finite; split; reflexivity).
  assert (Havg : signed false (div (of_nat w) (of_nat s))).
  { apply div_signed; [now right | assumption |].
    apply div_not_nan; [now right | assumption | now left]. }
  assert (Hd : not_nan (sub (div (of_nat w) (of_nat s)) (of_Z 15)))
    by now apply sub_not_nan_finite.
  assert (Ha : signed false
                 (mul (abs (sub (div (of_nat w) (of_nat s)) (of_Z 15))) (of_Z 2))).
  { apply mul_signed; [|assumption]. apply abs_signed; [assumption|].
    apply sub_bounded; [eapply signed_bounded; eauto | apply of_Z_bounded]. }
  destruct (sub_100_signed _ Ha) as [Ht1 [Ht2 _]].
  apply sub_not_nan_final; [assumption | assumption |].
  apply mul_signed; [|assumption].
  apply div_signed; [assumption | now right |].
  apply div_not_nan; [assumption | now right | now right].
Qed.

(** *** Counting words and sentences *)

Lemma words_all_empty (inrun : bool) (cur s : string) :
  forallb (fun w => negb (0 <? String.length w)%nat)
          (split_from is_whitespace inrun cur s) =
  negb (0 <? String.length cur)%nat && all_chars is_whitespace s.
Proof.
  revert inrun cur; induction s as [|c s IH]; intros inrun cur.
  - cbn [split_from forallb all_chars]. now rewrite !andb_true_r.
  - cbn [split_from all_chars]. destruct (is_whitespace c) eqn:Ec.
    + cbn [andb]. destruct inrun.
      * apply IH.
      * cbn [forallb]. rewrite IH. reflexivity.
    + rewrite IH, length_append. cbn [String.length andb].
      replace (0 <? String.length cur + 1)%nat with true
        by (symmetry; apply Nat.ltb_lt; lia).
      now rewrite andb_false_r.
Qed.

(** There is no word exactly when the text is blank. *)
Lemma word_count_zero_iff (content : string) :
  List.length (words_of content) = 0%nat <->
  all_chars is_whitespace content = true.
Proof.
  unfold words_of, split.
  rewrite filter_length_zero_iff, words_all_empty. reflexivity.
Qed.

Lemma fragment_count_le (p : string -> bool) (sep : ascii -> bool) :
  (forall f, p f = true -> (1 <= String.length f)%nat) ->
  forall (s cur : string) (inrun : bool),
    (List.length (filter p (split_from sep inrun cur s))
     <= String.length cur + String.length s)%nat.
Proof.
  intros Hp. induction s as [|c s IH]; intros cur inrun.
  - cbn [split_from filter]. destruct (p cur) eqn:E; cbn [List.length].
    + apply Hp in E. lia.
    + lia.
  - cbn [split_from String.length]. destruct (sep c).
    + destruct inrun.
      * specialize (IH cur true). lia.
      * cbn [filter]. specialize (IH "" true). cbn [String.length] in IH.
        destruct (p cur) eqn:E; cbn [List.length]; [apply Hp in E|]; lia.
    + specialize (IH (cur ++ String c "") false).
      rewrite length_append in IH. cbn [String.length] in IH. lia.
Qed.

Lemma word_count_le (content : string) :
  (List.length (words_of content) <= String.length content)%nat.
Proof.
  unfold words_of, split.
  apply (fragment_count_le _ is_whitespace
           (fun f H => proj1 (Nat.ltb_lt _ _) H) content "" false).
Qed.

Lemma sentence_count_le (content : string) :
  (List.length (sentences_of content) <= String.length content)%nat.
Proof.
  unfold sentences_of, split.
  apply (fragment_count_le _ is_sentence_end) with (cur := "") (inrun := false).
  intros f H. destruct f as [|c f]; [discriminate H | cbn; lia].
Qed.

Lemma complex_count_le (content : string) :
  (complexWords_of content <= List.length (words_of content))%nat.
Proof. unfold complexWords_of. apply filter_length_le. Qed.

(** *** Sub-score ranges *)

Lemma readabilityScore_formula (content : string) :
  readabilityScore content =
  Math_min
    (readability_formula (List.length (words_of content))
                         (List.length (sentences_of content))
                         (complexWords_of content))
    (of_Z 100).
Proof. reflexivity. Qed.

(** The rounded readability score never compares above 100. *)
Lemma readability_not_above_100 (content : string) :
  lt (of_Z 100) (readability (breakdown (analyzeResume content))) = false.
Proof.
  unfold analyzeResume, breakdown_of. cbn [breakdown readability].
  rewrite readabilityScore_formula.
  pose proof (readability_formula_bounded
                (List.length (words_of content))
                (List.length (sentences_of content))
                (complexWords_of content)) as Hb.
  destruct (readability_formula _ _ _) as [s|s| |s m e] eqn:E.
  4: { apply le_not_gt, Math_round_le_100.
       - apply Math_min_bounded; [exact Hb | apply of_Z_bounded].
       - apply Math_min_le_100. discriminate. }
  3: reflexivity.
  all: apply le_not_gt, Math_round_le_100;
    [ apply Math_min_bounded; [exact Hb | apply of_Z_bounded]
    | apply Math_min_le_100; discriminate ].
Qed.

(** With a word in the text the rounded readability score is at most 100. *)
Lemma readability_le_100 (content : string) :
  (0 <? String.length (trim content))%nat = true ->
  Z.of_nat (String.length content) < 2 ^ 53 ->
  le (readability (breakdown (analyzeResume content))) (of_Z 100) = true.
Proof.
  intros Hne Hlen.
  assert (Hw : (0 < List.length (words_of content))%nat).
  { destruct (List.length (words_of content)) eqn:E; [|lia].
    apply word_count_zero_iff, trim_blank_iff in E. congruence. }
  pose proof (word_count_le content) as Hw1.
  pose proof (sentence_count_le content) as Hs1.
  pose proof (complex_count_le content) as Hc1.
  unfold analyzeResume, breakdown_of. cbn [breakdown readability].
  rewrite readabilityScore_formula.
  apply Math_round_le_100.
  - apply Math_min_bounded;
      [apply readability_formula_bounded | apply of_Z_bounded].
  - apply Math_min_le_100. apply readability_formula_not_nan;
      [assumption | change (2 ^ prec) with (2 ^ 53); lia ..].
Qed.

Lemma keyword_points_ok (n : nat) :
  (n <= 27)%nat ->
  Math_round (Math_min (mul (div (of_nat n) (of_nat 27)) (of_Z 100)) (of_Z 100))
  = of_Z (keyword_points n) /\ 0 <= keyword_points n <= 100.
Proof.
  intros H.
  do 28 (destruct n as [|n]; [vm_compute; repeat split; discriminate|]).
  exfalso. lia.
Qed.

Lemma keywords_rounded_points (content : string) :
  keywords (breakdown (analyzeResume content)) =
    of_Z (keyword_points (List.length (matchedKeywords_of content))) /\
  0 <= keyword_points (List.length (matchedKeywords_of content)) <= 100.
Proof.
  unfold analyzeResume, breakdown_of, keywordScore. cbn [breakdown keywords].
  change (List.length jobKeywords) with 27%nat.
  apply keyword_points_ok.
  change 27%nat with (List.length jobKeywords). apply filter_length_le.
Qed.

Lemma grammar_rounded_points (content : string) :
  let n := List.length (grammarIssues_of content) in
  (n <= 3)%nat /\
  grammarScore content = sub (of_Z 100) (mul (of_nat n) (of_Z 15)) /\
  grammar (breakdown (analyzeResume content)) = of_Z (100 - 15 * Z.of_nat n).
Proof.
  cbv zeta. unfold analyzeResume, breakdown_of, grammarScore.
  cbn [breakdown grammar]. rewrite grammarIssues_cases.
  destruct (includes (toLowerCase content) " i "),
           (test_class_at_end is_sentence_end (trim content)),
           (includes content "  ");
    vm_compute; repeat split; auto.
Qed.

End NumberFacts.

(** ** Ranges of the sub-scores *)

(** C2, as the code has it.  For every text the rounded formatting, keyword
    and grammar scores hold integers between 0 and 100, and the rounded
    readability score never compares above 100.  For a text that is not
    blank (the only texts the component passes on) and of a length below
    2^53 (as every string of the language is) the rounded readability score
    is at most 100.  It is not floored at 0: a sentence of 100 one-letter
    words scores below 0. *)
Theorem subscore_ranges (content : string) :
  let b := breakdown (analyzeResume content) in
  integer_between 0 100 (formatting b) /\
  integer_between 0 100 (keywords b) /\
  integer_between 0 100 (grammar b) /\
  lt (of_Z 100) (readability b) = false /\
  ((0 <? String.length (trim content))%nat = true ->
   Z.of_nat (String.length content) < 2 ^ 53 ->
   le (readability b) (of_Z 100) = true) /\
  lt (readability (breakdown (analyzeResume many_words_text))) (of_Z 0) = true.
Proof.
  cbv zeta. repeat split.
  - exists (formatting_points content). split.
    + pose proof (formatting_points_range content). lia.
    + apply formatting_rounded_points.
  - destruct (keywords_rounded_points content) as [E H].
    exists (keyword_points (List.length (matchedKeywords_of content))).
    split; assumption.
  - destruct (grammar_rounded_points content) as [Hn [_ E]].
    exists (100 - 15 * Z.of_nat (List.length (grammarIssues_of content))).
    split; [lia | exact E].
  - apply readability_not_above_100.
  - apply readability_le_100.
Qed.

Lemma subscore_ranges_witness :
  le (readability (breakdown (analyzeResume "Resume"))) (of_Z 100) = true.
Proof.
  apply (proj1 (proj2 (proj2 (proj2 (proj2 (subscore_ranges "Resume")))))).
  - reflexivity.
  - reflexivity.
Defined.

(** C2, as stated, fails on the empty text: there are no words and no
    sentences, the average is 0/0, and the readability score is NaN, which
    is not at most 100. *)
Lemma readability_of_empty_text :
  readability (breakdown (analyzeResume "")) = NaN /\
  le (readability (breakdown (analyzeResume ""))) (of_Z 100) = false /\
  readability (breakdown (analyzeResume "   ")) = NaN.
Proof.
  vm_compute. repeat split.
Qed.

(** * Further properties of the scorer *)

Import Notions.

(** ** More on keywords *)

Lemma jobKeywords_lower_case (k : string) :
  In k jobKeywords -> toLowerCase k = k.
Proof.
  intros H.
  assert (E : forallb (fun k => String.eqb (toLowerCase k) k) jobKeywords = true)
    by (vm_compute; reflexivity).
  rewrite forallb_forall in E. apply String.eqb_eq. now apply E.
Qed.

Lemma jobKeywords_NoDup : NoDup jobKeywords.
Proof.
  unfold jobKeywords.
  repeat (constructor; [cbn [In]; intuition discriminate|]). constructor.
Qed.

(** X1.  The matched keywords are exactly the entries of [jobKeywords] that
    occur as substrings of the lower-cased text.  No keyword is listed twice
    and at most 27 are listed. *)
Theorem matched_keywords_are_the_contained_ones (content k : string) :
  (In k (matchedKeywords (analyzeResume content)) <->
   In k jobKeywords /\ contains (toLowerCase content) k) /\
  NoDup (matchedKeywords (analyzeResume content)) /\
  (List.length (matchedKeywords (analyzeResume content)) <= 27)%nat.
Proof.
  unfold analyzeResume, matchedKeywords_of, text_of. cbn [matchedKeywords].
  split; [|split].
  - rewrite filter_In. split; intros [Hk H]; split; try assumption.
    + rewrite (jobKeywords_lower_case k Hk) in H. now apply includes_spec.
    + rewrite (jobKeywords_lower_case k Hk). now apply includes_spec.
  - apply NoDup_filter, jobKeywords_NoDup.
  - apply (filter_length_le _ jobKeywords).
Qed.

Lemma forallb_Zrange (P : Z -> bool) (lo : Z) (n : nat) :
  forallb P (Zrange lo n) = true ->
  forall z, lo <= z < lo + Z.of_nat n -> P z = true.
Proof.
  intros H z Hz. rewrite forallb_forall in H. apply H.
  unfold Zrange. apply in_map_iff. exists (Z.to_nat (z - lo)). split; [lia|].
  apply in_seq. lia.
Qed.

(** On integers from 0 to 100 the relational operators on numbers agree
    with the order of the integers. *)
Lemma small_integer_compare (z c : Z) :
  0 <= z <= 100 -> 0 <= c <= 100 ->
  lt (of_Z z) (of_Z c) = (z <? c) /\ le (of_Z c) (of_Z z) = (c <=? z).
Proof.
  intros Hz Hc.
  assert (E : forallb (fun z => forallb (fun c =>
                Bool.eqb (lt (of_Z z) (of_Z c)) (z <? c) &&
                Bool.eqb (le (of_Z c) (of_Z z)) (c <=? z))
                (Zrange 0 101)) (Zrange 0 101) = true)
    by (vm_compute; reflexivity).
  pose proof (forallb_Zrange _ _ _ E z ltac:(lia)) as E1. cbv beta in E1.
  pose proof (forallb_Zrange _ _ _ E1 c ltac:(lia)) as E2. cbv beta in E2.
  apply andb_true_iff in E2 as [E2 E3].
  apply Bool.eqb_prop in E2, E3. now split.
Qed.

Lemma keyword_points_lt_60 (n : nat) :
  keyword_points n < 60 <-> (n <= 16)%nat.
Proof.
  unfold keyword_points. split; intros H.
  - destruct (le_lt_dec n 16) as [|Hn]; [assumption|]. exfalso.
    assert (63 <= (200 * Z.of_nat n + 27) / 54); [|lia].
    change 63 with (3427 / 54). apply Z.div_le_mono; lia.
  - assert ((200 * Z.of_nat n + 27) / 54 <= 59); [|lia].
    change 59 with (3227 / 54). apply Z.div_le_mono; lia.
Qed.

Lemma keyword_points_mono (n m : nat) :
  (n <= m)%nat -> keyword_points n <= keyword_points m.
Proof. intros H. unfold keyword_points. apply Z.div_le_mono; lia. Qed.

Lemma keyword_points_full (n : nat) :
  (n <= 27)%nat -> (keyword_points n = 100 <-> n = 27%nat).
Proof.
  intros Hn. unfold keyword_points. split; intros H.
  - destruct (Nat.eq_dec n 27) as [|Hne]; [assumption|]. exfalso.
    assert ((200 * Z.of_nat n + 27) / 54 <= 96); [|lia].
    change 96 with (5227 / 54). apply Z.div_le_mono; lia.
  - subst n. reflexivity.
Qed.

Lemma matchedKeywords_eq (content : string) :
  matchedKeywords (analyzeResume content) = matchedKeywords_of content.
Proof. reflexivity. Qed.

Lemma grammarIssues_eq (content : string) :
  grammarIssues (analyzeResume content) = grammarIssues_of content.
Proof. reflexivity. Qed.

Lemma breakdown_eq (content : string) :
  breakdown (analyzeResume content) = breakdown_of content.
Proof. reflexivity. Qed.

Lemma suggestions_eq (content : string) :
  suggestions (analyzeResume content) =
  suggestions_of (breakdown_of content) (matchedKeywords_of content).
Proof. reflexivity. Qed.

(** X2.  With [n] matched keywords the keyword score is the integer
    [(200 n + 27) / 54], that is 100 n / 27 rounded to the nearest integer.
    It is 100 only when all 27 keywords are matched, 0 only when none is, and
    below 60 exactly when at most 16 are. *)
Theorem keyword_score_is_rounded_share (content : string) :
  let r := analyzeResume content in
  let n := List.length (matchedKeywords r) in
  keywords (breakdown r) = of_Z ((200 * Z.of_nat n + 27) / 54) /\
  (keywords (breakdown r) = of_Z 100 <-> n = 27%nat) /\
  (keywords (breakdown r) = of_Z 0 <-> n = 0%nat) /\
  (lt (keywords (breakdown r)) (of_Z 60) = true <-> (n <= 16)%nat).
Proof.
  cbv zeta. rewrite matchedKeywords_eq.
  destruct (keywords_rounded_points content) as [E H].
  assert (Hn : (List.length (matchedKeywords_of content) <= 27)%nat)
    by apply (filter_length_le _ jobKeywords).
  remember (List.length (matchedKeywords_of content)) as n eqn:En.
  clear En. split; [rewrite E; reflexivity|]. rewrite E.
  assert (Hinj : forall z, 0 <= z <= 100 ->
            (of_Z (keyword_points n) = of_Z z <-> keyword_points n = z)).
  { intros z Hz. split; [|now intros ->]. intros Heq.
    destruct (small_integer_compare (keyword_points n) z H Hz) as [E1 _].
    destruct (small_integer_compare z (keyword_points n) Hz H) as [E2 _].
    rewrite Heq in E1, E2.
    destruct (small_integer_compare z z Hz Hz) as [E3 _].
    rewrite E3 in E1, E2. rewrite Z.ltb_irrefl in E1, E2.
    symmetry in E1, E2. apply Z.ltb_ge in E1, E2. lia. }
  split; [|split].
  - rewrite (Hinj 100) by lia. now apply keyword_points_full.
  - rewrite (Hinj 0) by lia. unfold keyword_points. split; intros H0.
    + destruct n as [|n]; [reflexivity|]. exfalso.
      assert (4 <= (200 * Z.of_nat (S n) + 27) / 54); [|lia].
      change 4 with (227 / 54). apply Z.div_le_mono; lia.
    + now rewrite H0.
  - destruct (small_integer_compare (keyword_points n) 60 H ltac:(lia)) as [-> _].
    rewrite Z.ltb_lt. apply keyword_points_lt_60.
Qed.

(** ** More on suggestions *)

Lemma suggestions_of_cases (b : ScoreBreakdown) (matched : list string) :
  suggestions_of b matched =
    ((if lt (keywords b) (of_Z 60) then [sug_keywords] else [])
     ++ (if lt (grammar b) (of_Z 80) then [sug_grammar] else [])
     ++ (if lt (readability b) (of_Z 70) then [sug_readability] else [])
     ++ (if lt (formatting b) (of_Z 80) then [sug_formatting] else [])
     ++ (if (List.length matched <? 5)%nat then [sug_skills] else []))%list.
Proof.
  unfold suggestions_of, push.
  destruct (lt (keywords b) (of_Z 60)), (lt (grammar b) (of_Z 80)),
           (lt (readability b) (of_Z 70)), (lt (formatting b) (of_Z 80)),
           (List.length matched <? 5)%nat; reflexivity.
Qed.

Lemma In_conditional (m m' : string) (c : bool) :
  In m (if c then [m'] else []) <-> c = true /\ m' = m.
Proof.
  destruct c; cbn; intuition discriminate.
Qed.

Lemma suggestion_messages_distinct :
  NoDup [sug_keywords; sug_grammar; sug_readability; sug_formatting; sug_skills].
Proof.
  repeat (constructor; [cbn [In]; intuition discriminate|]). constructor.
Qed.

Lemma suggestion_present (content : string) :
  let b := breakdown (analyzeResume content) in
  let s := suggestions (analyzeResume content) in
  (In sug_keywords s <-> lt (keywords b) (of_Z 60) = true) /\
  (In sug_grammar s <-> lt (grammar b) (of_Z 80) = true) /\
  (In sug_readability s <-> lt (readability b) (of_Z 70) = true) /\
  (In sug_formatting s <-> lt (formatting b) (of_Z 80) = true) /\
  (In sug_skills s <->
   (List.length (matchedKeywords (analyzeResume content)) <? 5)%nat = true).
Proof.
  cbv zeta. rewrite suggestions_eq, breakdown_eq, matchedKeywords_eq.
  rewrite suggestions_of_cases.
  generalize (lt (keywords (breakdown_of content)) (of_Z 60)),
             (lt (grammar (breakdown_of content)) (of_Z 80)),
             (lt (readability (breakdown_of content)) (of_Z 70)),
             (lt (formatting (breakdown_of content)) (of_Z 80)),
             (List.length (matchedKeywords_of content) <? 5)%nat.
  intros c1 c2 c3 c4 c5. rewrite !in_app_iff, !In_conditional.
  repeat split; intros H; intuition (try discriminate; try reflexivity).
Qed.

(** X3.  The suggestion on keywords is given exactly when at most 16
    keywords are matched and the one on technical skills exactly when fewer
    than 5 are, so the second never comes without the first.  The suggestion
    on grammar is given exactly when at least two grammar issues were found,
    and the one on formatting exactly when the formatting score is below
    80. *)
Theorem suggestions_meaning (content : string) :
  let r := analyzeResume content in
  let n := List.length (matchedKeywords r) in
  (In sug_keywords (suggestions r) <-> (n <= 16)%nat) /\
  (In sug_skills (suggestions r) <-> (n < 5)%nat) /\
  (In sug_skills (suggestions r) -> In sug_keywords (suggestions r)) /\
  (In sug_grammar (suggestions r) <->
   (2 <= List.length (grammarIssues r))%nat) /\
  (In sug_formatting (suggestions r) <-> formatting_points content < 80).
Proof.
  cbv zeta.
  destruct (suggestion_present content) as [H1 [H2 [_ [H4 H5]]]].
  cbv zeta in *.
  assert (K : In sug_keywords (suggestions (analyzeResume content)) <->
              (List.length (matchedKeywords (analyzeResume content)) <= 16)%nat).
  { rewrite H1. rewrite matchedKeywords_eq.
    destruct (keywords_rounded_points content) as [E H]. rewrite E.
    destruct (small_integer_compare _ 60 H ltac:(lia)) as [-> _].
    rewrite Z.ltb_lt. apply keyword_points_lt_60. }
  assert (S5 : In sug_skills (suggestions (analyzeResume content)) <->
               (List.length (matchedKeywords (analyzeResume content)) < 5)%nat).
  { rewrite H5. apply Nat.ltb_lt. }
  split; [exact K|]. split; [exact S5|]. split; [|split].
  - intros H. apply K. apply S5 in H. lia.
  - rewrite H2, grammarIssues_eq.
    destruct (grammar_rounded_points content) as [Hn [_ E]]. rewrite E.
    destruct (small_integer_compare
                (100 - 15 * Z.of_nat (List.length (grammarIssues_of content)))
                80 ltac:(lia) ltac:(lia)) as [-> _].
    rewrite Z.ltb_lt. lia.
  - rewrite H4, formatting_rounded_points.
    pose proof (formatting_points_range content) as Hr.
    destruct (small_integer_compare (formatting_points content) 80
                ltac:(lia) ltac:(lia)) as [-> _].
    apply Z.ltb_lt.
Qed.

(** ** More on formatting *)

(** X4.  The formatting score is 100 minus the deductions that apply.  The
    two deductions on the length never apply together, so the score is one of
    50, 60, 70, 80, 90 and 100, and the lower bound 0 of [Math.max] is never
    reached.  The score is 100 exactly when the text has from 200 to 5000
    code units and contains an at sign and a standalone group of four
    digits. *)
Theorem formatting_score_values (content : string) :
  let len := String.length content in
  let p := formatting_points content in
  formatting (breakdown (analyzeResume content)) = of_Z p /\
  p = 100 - (if (len <? 200)%nat then 30 else 0)
          - (if (5000 <? len)%nat then 20 else 0)
          - (if includes content "@" then 0 else 10)
          - (if test_year content then 0 else 10) /\
  ((len <? 200)%nat && (5000 <? len)%nat = false) /\
  In p [50; 60; 70; 80; 90; 100] /\
  (p = 100 <->
   (200 <= len <= 5000)%nat /\ contains content "@" /\
   exists t, four_digits t /\ standalone content t).
Proof.
  cbv zeta. split; [apply formatting_rounded_points|].
  rewrite <- includes_spec, <- test_year_spec. unfold formatting_points.
  destruct (Nat.ltb_spec (String.length content) 200) as [E1|E1];
    destruct (Nat.ltb_spec 5000 (String.length content)) as [E2|E2];
    try (exfalso; lia);
    destruct (includes content "@"), (test_year content);
    cbn; repeat split; try lia; try tauto; try discriminate;
    try (intros H; exfalso; lia); try (intros [H _]; exfalso; lia);
    try (intros [_ [H _]]; discriminate H);
    try (intros [_ [_ H]]; discriminate H).
Qed.

Lemma number_eqb_eq (x y : number) : number_eqb x y = true -> x = y.
Proof.
  destruct x as [a|a| |s m e], y as [b|b| |s' m' e']; cbn; try discriminate.
  - intros H. apply Bool.eqb_prop in H. now subst.
  - intros H. apply Bool.eqb_prop in H. now subst.
  - reflexivity.
  - rewrite !andb_true_iff. intros [[H1 H2] H3].
    apply Bool.eqb_prop in H1. apply Pos.eqb_eq in H2. apply Z.eqb_eq in H3.
    now subst.
Qed.

(** Sums of small integers are exact. *)
Lemma add_small_integers (a b : Z) :
  0 <= a <= 300 -> 0 <= b <= 100 -> add (of_Z a) (of_Z b) = of_Z (a + b).
Proof.
  intros Ha Hb.
  assert (E : forallb (fun a => forallb (fun b =>
                number_eqb (add (of_Z a) (of_Z b)) (of_Z (a + b)))
                (Zrange 0 101)) (Zrange 0 301) = true)
    by (vm_compute; reflexivity).
  pose proof (forallb_Zrange _ _ _ E a ltac:(lia)) as E1. cbv beta in E1.
  pose proof (forallb_Zrange _ _ _ E1 b ltac:(lia)) as E2. cbv beta in E2.
  now apply number_eqb_eq.
Qed.

Lemma add_negative_zero (a : Z) :
  0 <= a <= 300 -> add (of_Z a) (S754_zero true) = of_Z a.
Proof.
  intros Ha.
  assert (E : forallb (fun a =>
                number_eqb (add (of_Z a) (S754_zero true)) (of_Z a))
                (Zrange 0 301) = true)
    by (vm_compute; reflexivity).
  pose proof (forallb_Zrange _ _ _ E a ltac:(lia)) as E1. cbv beta in E1.
  now apply number_eqb_eq.
Qed.

(** A quarter of a small integer, rounded: ties go up. *)
Lemma round_quarter (t : Z) :
  0 <= t <= 400 ->
  Math_round (div (of_Z t) (of_Z 4)) = of_Z ((t + 2) / 4).
Proof.
  intros Ht.
  assert (E : forallb (fun t =>
                number_eqb (Math_round (div (of_Z t) (of_Z 4)))
                           (of_Z ((t + 2) / 4)))
                (Zrange 0 401) = true)
    by (vm_compute; reflexivity).
  pose proof (forallb_Zrange _ _ _ E t ltac:(lia)) as E1. cbv beta in E1.
  now apply number_eqb_eq.
Qed.

(** What rounding returns on a number that is at most 100 when the result
    is not below zero: a zero, or an integer from 1 to 100. *)
Lemma Math_round_cases (y : number) :
  bounded_mantissa y ->
  le y (of_Z 100) = true -> le (of_Z 0) (Math_round y) = true ->
  Math_round y = S754_zero true \/
  exists n, 0 <= n <= 100 /\ Math_round y = of_Z n.
Proof.
  change (of_Z 0) with (S754_zero false).
  destruct y as [s|s| |s m e]; cbn [Math_round].
  - intros _ _ _. destruct s; [now left | right]. now exists 0.
  - intros _ H1 H2. destruct s; discriminate.
  - intros _ H1. discriminate.
  - intros Hb Hle H0. destruct (0 <=? e) eqn:He; rewrite ?He in H0.
    + exfalso. apply Z.leb_le in He.
      change (of_Z 100) with (S754_finite false 7036874417766400 (-46)) in Hle.
      destruct s; [discriminate H0|].
      unfold le, SFleb in Hle. cbn [SFcompare] in Hle.
      destruct (Z.compare_spec e (-46)) as [E|E|E];
        try discriminate Hle; lia.
    + apply Z.leb_gt in He. cbv zeta in H0. cbv zeta.
      remember (- e) as k eqn:Ek.
      assert (Hk : 0 < k) by lia.
      assert (HP : 0 < 2 ^ k) by (apply Z.pow_pos_nonneg; lia).
      assert (HP2 : 2 ^ (k + 1) = 2 * 2 ^ k)
        by (rewrite Z.pow_add_r by lia; lia).
      rewrite Z.shiftr_div_pow2 in * by lia. rewrite HP2 in *.
      remember ((cond_Zopp s (2 * Zpos m) + 2 ^ k) / (2 * 2 ^ k)) as n eqn:En.
      destruct (n =? 0) eqn:En0.
      * clear H0. destruct s; [now left | right]. exists 0. split; [lia|].
        reflexivity.
      * apply Z.eqb_neq in En0. destruct s; cbn [cond_Zopp] in En.
        -- assert (Hn : n < 1) by (subst n; apply Z.div_lt_upper_bound; lia).
           destruct n as [|p|p]; try lia.
           pose proof (binary_round_signed true p 0) as Hs.
           change (binary_round prec emax true p 0) with (of_Z (Zneg p)) in Hs.
           destruct (of_Z (Zneg p)) as [s'|s'| |s' m' e']; cbn [signed] in Hs.
           ++ subst s'. now left.
           ++ subst s'. discriminate H0.
           ++ contradiction.
           ++ destruct Hs as [-> _]. discriminate H0.
        -- right. exists n. split; [|reflexivity].
           assert (Hn0 : 0 <= n) by (subst n; apply Z.div_pos; lia).
           split; [lia|]. assert (Hn : n < 101); [|lia].
           subst n. apply Z.div_lt_upper_bound; [lia|].
           change (of_Z 100) with (S754_finite false 7036874417766400 (-46)) in Hle.
           unfold le, SFleb in Hle. cbn [SFcompare] in Hle.
           cbn [bounded_mantissa] in Hb.
           change (2 ^ prec) with 9007199254740992 in Hb.
           destruct (Z.compare_spec e (-46)) as [E|E|E]; try discriminate Hle.
           ++ assert (Hm : Zpos m <= 7036874417766400).
              { unfold Z.le. cbn [Z.compare]. unfold Pos.compare. intros HG.
                rewrite HG in Hle. discriminate Hle. }
              assert (Hk46 : k = 46) by lia. rewrite Hk46 in *.
              change (2 ^ 46) with 70368744177664 in *. lia.
           ++ assert (H47 : 2 ^ 47 <= 2 ^ k) by (apply Z.pow_le_mono_r; lia).
              change (2 ^ 47) with 140737488355328 in H47. lia.
Qed.

Lemma overall_eq (content : string) :
  overall (analyzeResume content) = overall_of (breakdown_of content).
Proof. reflexivity. Qed.

Lemma readability_eq (content : string) :
  readability (breakdown_of content) = Math_round (readabilityScore content).
Proof. reflexivity. Qed.

Lemma integer_subscores (content : string) :
  exists f k g,
    (0 <= f <= 100 /\ 0 <= k <= 100 /\ 0 <= g <= 100) /\
    formatting (breakdown_of content) = of_Z f /\
    keywords (breakdown_of content) = of_Z k /\
    grammar (breakdown_of content) = of_Z g.
Proof.
  exists (formatting_points content),
    (keyword_points (List.length (matchedKeywords_of content))),
    (100 - 15 * Z.of_nat (List.length (grammarIssues_of content))).
  pose proof (formatting_points_range content) as Hf.
  destruct (keywords_rounded_points content) as [Ek Hk].
  destruct (grammar_rounded_points content) as [Hn [_ Eg]].
  rewrite breakdown_eq in Ek, Eg.
  repeat split; try lia; try assumption.
  rewrite <- breakdown_eq. apply formatting_rounded_points.
Qed.

(** X5.  When the readability score is not negative, the four scores are
    integers from 0 to 100 (the readability score possibly the negative
    zero), and the overall score is the integer [(f + k + g + d + 2) / 4],
    their mean rounded half up, which lies between 0 and 100. *)
Theorem overall_in_range_when_readability_not_negative (content : string) :
  let r := analyzeResume content in
  le (of_Z 0) (readability (breakdown r)) = true ->
  exists f k g d,
    (0 <= f <= 100 /\ 0 <= k <= 100 /\ 0 <= g <= 100 /\ 0 <= d <= 100) /\
    formatting (breakdown r) = of_Z f /\
    keywords (breakdown r) = of_Z k /\
    grammar (breakdown r) = of_Z g /\
    (readability (breakdown r) = of_Z d \/
     d = 0 /\ readability (breakdown r) = S754_zero true) /\
    overall r = of_Z ((f + k + g + d + 2) / 4) /\
    0 <= (f + k + g + d + 2) / 4 <= 100.
Proof.
  cbv zeta. rewrite breakdown_eq, overall_eq. intros H0.
  destruct (integer_subscores content) as [f [k [g [Hr [Ef [Ek Eg]]]]]].
  assert (Hd : readability (breakdown_of content) = S754_zero true \/
               exists n, 0 <= n <= 100 /\
                         readability (breakdown_of content) = of_Z n).
  { rewrite readability_eq in *. rewrite readabilityScore_formula in *.
    pose proof (readability_formula_bounded
                  (List.length (words_of content))
                  (List.length (sentences_of content))
                  (complexWords_of content)) as Hb.
    destruct (readability_formula _ _ _) as [s|s| |s m e] eqn:E.
    3: discriminate H0.
    all: apply Math_round_cases;
      [ apply Math_min_bounded; [exact Hb | apply of_Z_bounded]
      | apply Math_min_le_100; discriminate
      | exact H0 ]. }
  assert (Hq : forall t, 0 <= t <= 400 -> 0 <= (t + 2) / 4 <= 100).
  { intros t Ht. split.
    - apply Z.div_pos; lia.
    - change 100 with (402 / 4). apply Z.div_le_mono; lia. }
  unfold overall_of. rewrite Ef, Ek, Eg.
  rewrite !add_small_integers by lia.
  destruct Hd as [Ed | [d [Hd Ed]]]; rewrite Ed.
  - exists f, k, g, 0. rewrite add_negative_zero by lia.
    rewrite round_quarter by lia. replace (f + k + g + 0) with (f + k + g) by lia.
    split; [lia|]. do 3 (split; [reflexivity|]).
    split; [right; split; reflexivity|]. split; [reflexivity|]. apply Hq; lia.
  - exists f, k, g, d. rewrite add_small_integers by lia.
    rewrite round_quarter by lia.
    split; [lia|]. do 3 (split; [reflexivity|]).
    split; [left; reflexivity|]. split; [reflexivity|]. apply Hq; lia.
Qed.

Lemma overall_in_range_when_readability_not_negative_witness :
  exists f k g d,
    overall (analyzeResume "Resume") = of_Z ((f + k + g + d + 2) / 4) /\
    0 <= (f + k + g + d + 2) / 4 <= 100.
Proof.
  destruct (overall_in_range_when_readability_not_negative "Resume" eq_refl)
    as [f [k [g [d [_ [_ [_ [_ [_ H]]]]]]]]].
  now exists f, k, g, d.
Defined.

(** ** Where NaN and the infinities come from *)

Lemma all_chars_impl (p q : ascii -> bool) (s : string) :
  (forall c, p c = true -> q c = true) ->
  all_chars p s = true -> all_chars q s = true.
Proof.
  intros Hpq. induction s as [|c s IH]; [reflexivity|].
  cbn [all_chars]. rewrite !andb_true_iff. intros [H1 H2]. auto.
Qed.

Lemma blank_counts (content : string) :
  blank content ->
  List.length (words_of content) = 0%nat /\
  List.length (sentences_of content) = 0%nat /\
  complexWords_of content = 0%nat.
Proof.
  intros H. apply trim_blank_iff in H.
  assert (Hw : List.length (words_of content) = 0%nat)
    by now apply word_count_zero_iff.
  split; [exact Hw|]. split.
  - apply sentence_count_zero_iff. revert H. apply all_chars_impl.
    intros c Hc. unfold blank_or_end. now rewrite Hc.
  - pose proof (complex_count_le content). lia.
Qed.

Lemma not_blank_iff (content : string) :
  ~ blank content <-> (0 <? String.length (trim content))%nat = true.
Proof.
  unfold blank. destruct (0 <? String.length (trim content))%nat; split; congruence.
Qed.

Lemma add_nan_r (x : number) : add x NaN = NaN.
Proof. destruct x as [[]|[]| |[]]; reflexivity. Qed.

Lemma add_finite_not_nan (x y : number) :
  zero_or_pos x -> not_nan y -> not_nan (add x y).
Proof.
  unfold not_nan. intros [->|[mx [ex ->]]] Hy;
    destruct y as [[]|[]| |sy my ey]; try (exfalso; apply Hy; reflexivity);
    unfold add, SFadd; cbv beta iota zeta;
    first [ discriminate | apply (proj2 (binary_normalize_ok _ _)) ].
Qed.

Lemma div_finite_not_nan (x y : number) :
  not_nan x -> pos_finite y -> not_nan (div x y).
Proof.
  unfold not_nan. intros Hx [my [ey ->]].
  destruct x as [sx|sx| |sx mx ex]; try (exfalso; apply Hx; reflexivity);
    unfold div, SFdiv; cbv beta iota; try discriminate.
  pose proof (SFdiv_core_binary_nonneg mx my ex ey) as H0.
  destruct (SFdiv_core_binary prec emax (Zpos mx) ex (Zpos my) ey)
    as [[mz ez] lz].
  apply (signed_not_nan (xorb sx false)). apply binary_round_aux_signed. exact H0.
Qed.

Lemma mul_finite_not_nan (x y : number) :
  signed false x -> pos_finite y -> not_nan (mul x y).
Proof.
  intros Hx Hy. eapply signed_not_nan. now apply mul_signed.
Qed.

Lemma Math_round_not_nan (x : number) : not_nan x -> not_nan (Math_round x).
Proof.
  unfold not_nan. destruct x as [s|s| |s m e]; cbn [Math_round]; try easy.
  intros _. destruct (0 <=? e); [discriminate|]. cbv zeta.
  match goal with |- context [Z.eqb ?n 0] => destruct (Z.eqb n 0) end;
    [discriminate|]. apply (proj2 (binary_normalize_ok _ _)).
Qed.

Lemma Math_round_nan_inv (x : number) : Math_round x = NaN -> x = NaN.
Proof.
  intros H. destruct x as [s|s| |s m e]; try discriminate H; [reflexivity|].
  exfalso. apply (Math_round_not_nan (S754_finite s m e)); [discriminate|].
  exact H.
Qed.

Lemma small_integer_zero_or_pos (z : Z) : 0 <= z <= 400 -> zero_or_pos (of_Z z).
Proof.
  intros H. destruct (Z.eq_dec z 0) as [->|Hz]; [now left|].
  right. apply of_Z_finite. change (2 ^ prec) with 9007199254740992. lia.
Qed.

Lemma avg_metric_eq (content : string) :
  avgWordsPerSentence (readabilityMetrics (analyzeResume content)) =
  div (Math_round (mul (avgWordsPerSentence_of content) (of_Z 10))) (of_Z 10).
Proof. reflexivity. Qed.

Lemma sentences_metric_eq (content : string) :
  sentences (readabilityMetrics (analyzeResume content)) =
  List.length (sentences_of content).
Proof. reflexivity. Qed.

Lemma count_bounds (content : string) :
  Z.of_nat (String.length content) < 2 ^ 53 ->
  Z.of_nat (List.length (words_of content)) < 2 ^ prec /\
  Z.of_nat (List.length (sentences_of content)) < 2 ^ prec /\
  Z.of_nat (complexWords_of content) < 2 ^ prec.
Proof.
  intros H. change (2 ^ prec) with (2 ^ 53).
  pose proof (word_count_le content). pose proof (sentence_count_le content).
  pose proof (complex_count_le content). lia.
Qed.

Lemma not_blank_word (content : string) :
  (0 <? String.length (trim content))%nat = true ->
  (0 < List.length (words_of content))%nat.
Proof.
  intros Hne. destruct (List.length (words_of content)) eqn:E; [|lia].
  apply word_count_zero_iff, trim_blank_iff in E. congruence.
Qed.

Lemma average_signed (content : string) :
  (0 <? String.length (trim content))%nat = true ->
  Z.of_nat (String.length content) < 2 ^ 53 ->
  signed false (avgWordsPerSentence_of content).
Proof.
  intros Hne Hlen. destruct (count_bounds content Hlen) as [Hw [Hs _]].
  pose proof (of_nat_pos_finite _ (not_blank_word content Hne) Hw) as HW.
  pose proof (of_nat_zero_or_pos _ Hs) as HS.
  unfold avgWordsPerSentence_of.
  apply div_signed; [now right | assumption |].
  apply div_not_nan; [now right | assumption | now left].
Qed.

Lemma literal_pos_finite :
  pos_finite (of_Z 4) /\ pos_finite (of_Z 10) /\ pos_finite (of_Z 15) /\
  pos_finite (of_Z 2) /\ pos_finite (of_Z 50).
Proof. repeat split; apply of_Z_finite; split; reflexivity. Qed.

Lemma scores_not_nan (content : string) :
  (0 <? String.length (trim content))%nat = true ->
  Z.of_nat (String.length content) < 2 ^ 53 ->
  not_nan (readability (breakdown_of content)) /\
  not_nan (overall_of (breakdown_of content)) /\
  not_nan (div (Math_round (mul (avgWordsPerSentence_of content) (of_Z 10)))
               (of_Z 10)).
Proof.
  intros Hne Hlen. destruct literal_pos_finite as [H4 [H10 _]].
  assert (N1 : not_nan (readability (breakdown_of content))).
  { pose proof (readability_le_100 content Hne Hlen) as H.
    rewrite breakdown_eq in H. intros E. rewrite E in H. discriminate H. }
  split; [exact N1|]. split.
  - unfold overall_of.
    destruct (integer_subscores content) as [f [k [g [Hr [-> [-> ->]]]]]].
    rewrite !add_small_integers by lia.
    apply Math_round_not_nan, div_finite_not_nan; [|exact H4].
    apply add_finite_not_nan; [apply small_integer_zero_or_pos; lia|].
    exact N1.
  - apply div_finite_not_nan; [|exact H10].
    apply Math_round_not_nan, mul_finite_not_nan; [|exact H10].
    now apply average_signed.
Qed.

Lemma scores_nan_on_blank (content : string) :
  blank content ->
  readability (breakdown_of content) = NaN /\
  overall_of (breakdown_of content) = NaN /\
  div (Math_round (mul (avgWordsPerSentence_of content) (of_Z 10))) (of_Z 10)
  = NaN.
Proof.
  intros Hb. destruct (blank_counts content Hb) as [Ew [Es Ec]].
  assert (B1 : readability (breakdown_of content) = NaN).
  { rewrite readability_eq, readabilityScore_formula, Ew, Es, Ec.
    vm_compute. reflexivity. }
  split; [exact B1|]. split.
  - unfold overall_of. rewrite B1, add_nan_r. reflexivity.
  - unfold avgWordsPerSentence_of. rewrite Ew, Es. vm_compute. reflexivity.
Qed.

(** X6.  For a text of fewer than 2^53 code units, the readability score,
    the overall score and the average number of words per sentence are NaN
    exactly when the text is empty or white space only. *)
Theorem not_a_number_exactly_on_blank_text (content : string) :
  Z.of_nat (String.length content) < 2 ^ 53 ->
  let r := analyzeResume content in
  (readability (breakdown r) = NaN <-> blank content) /\
  (overall r = NaN <-> blank content) /\
  (avgWordsPerSentence (readabilityMetrics r) = NaN <-> blank content).
Proof.
  intros Hlen. cbv zeta.
  rewrite breakdown_eq, overall_eq, avg_metric_eq.
  assert (C : blank content \/
              (0 <? String.length (trim content))%nat = true).
  { unfold blank. destruct (0 <? String.length (trim content))%nat; auto. }
  destruct C as [Hb | Hne].
  - destruct (scores_nan_on_blank content Hb) as [E1 [E2 E3]].
    rewrite E1, E2, E3. repeat split; auto.
  - destruct (scores_not_nan content Hne Hlen) as [N1 [N2 N3]].
    assert (Hnb : ~ blank content) by (unfold blank; congruence).
    repeat split; intros H; try contradiction;
      exfalso; first [now apply N1 | now apply N2 | now apply N3].
Qed.

Lemma not_a_number_exactly_on_blank_text_witness :
  readability (breakdown (analyzeResume "   ")) = NaN /\
  overall (analyzeResume "   ") = NaN.
Proof.
  destruct (not_a_number_exactly_on_blank_text "   " eq_refl) as [H1 [H2 _]].
  split; [apply H1 | apply H2]; reflexivity.
Defined.

Lemma sub_infinity_l (y : number) :
  pos_finite y -> sub Infinity y = Infinity.
Proof. intros [m [e ->]]. reflexivity. Qed.

Lemma mul_infinity_l (y : number) :
  pos_finite y -> mul Infinity y = Infinity.
Proof. intros [m [e ->]]. reflexivity. Qed.

Lemma div_infinity_l (s : bool) (y : number) :
  pos_finite y -> div (S754_infinity s) y = S754_infinity s.
Proof. intros [m [e ->]]. destruct s; reflexivity. Qed.

Lemma sub_neg_infinity_l (y : number) :
  signed false y -> sub NegInfinity y = NegInfinity.
Proof.
  destruct y as [s|s| |s m e]; cbn [signed]; intros H.
  - subst s. reflexivity.
  - subst s. reflexivity.
  - contradiction.
  - destruct H as [-> _]. reflexivity.
Qed.

Lemma add_neg_infinity_r (x : number) :
  zero_or_pos x -> add x NegInfinity = NegInfinity.
Proof. intros [->|[m [e ->]]]; reflexivity. Qed.

(** X7.  A text that is not blank and consists of white space and the
    characters . ! ? only has words and no sentence: the sentence count is
    0, the average number of words per sentence is Infinity, the readability
    score and the overall score are -Infinity, and the suggestion on
    readability is given. *)
Theorem text_without_sentence_scores_minus_infinity (content : string) :
  (0 <? String.length (trim content))%nat = true ->
  all_chars blank_or_end content = true ->
  Z.of_nat (String.length content) < 2 ^ 53 ->
  let r := analyzeResume content in
  sentences (readabilityMetrics r) = 0%nat /\
  avgWordsPerSentence (readabilityMetrics r) = Infinity /\
  readability (breakdown r) = NegInfinity /\
  overall r = NegInfinity /\
  In sug_readability (suggestions r).
Proof.
  intros Hne Hall Hlen. cbv zeta.
  destruct literal_pos_finite as [H4 [H10 [H15 [H2 H50]]]].
  destruct (count_bounds content Hlen) as [Hw [_ Hc]].
  pose proof (of_nat_pos_finite _ (not_blank_word content Hne) Hw) as HW.
  pose proof (of_nat_zero_or_pos _ Hc) as HC.
  assert (Es : List.length (sentences_of content) = 0%nat)
    by now apply sentence_count_zero_iff.
  assert (Eavg : avgWordsPerSentence_of content = Infinity).
  { unfold avgWordsPerSentence_of. rewrite Es.
    destruct HW as [m [e ->]]. reflexivity. }
  assert (Er : readability (breakdown_of content) = NegInfinity).
  { rewrite readability_eq. unfold readabilityScore.
    rewrite Eavg, (sub_infinity_l _ H15).
    change (abs Infinity) with Infinity. rewrite (mul_infinity_l _ H2).
    change (sub (of_Z 100) Infinity) with NegInfinity.
    rewrite sub_neg_infinity_l; [reflexivity|].
    apply mul_signed; [|exact H50].
    apply div_signed; [assumption | now right |].
    apply div_not_nan; [assumption | now right | now right]. }
  split; [rewrite sentences_metric_eq; exact Es|].
  split.
  { rewrite avg_metric_eq, Eavg, (mul_infinity_l _ H10).
    change (Math_round Infinity) with Infinity. unfold Infinity.
    now apply div_infinity_l. }
  split; [rewrite breakdown_eq; exact Er|].
  split.
  { rewrite overall_eq. unfold overall_of.
    destruct (integer_subscores content) as [f [k [g [Hr [-> [-> ->]]]]]].
    rewrite !add_small_integers by lia. rewrite Er.
    rewrite add_neg_infinity_r by (apply small_integer_zero_or_pos; lia).
    unfold NegInfinity. rewrite (div_infinity_l true _ H4). reflexivity. }
  destruct (suggestion_present content) as [_ [_ [H _]]]. cbv zeta in H.
  apply H. rewrite breakdown_eq, Er. reflexivity.
Qed.

Lemma text_without_sentence_scores_minus_infinity_witness :
  overall (analyzeResume "...") = NegInfinity /\
  avgWordsPerSentence (readabilityMetrics (analyzeResume "...")) = Infinity.
Proof.
  destruct (text_without_sentence_scores_minus_infinity "..."
              eq_refl eq_refl eq_refl) as [_ [H1 [_ [H2 _]]]].
  split; assumption.
Defined.

(** ** Words and sentences *)

Lemma split_from_fragments (sep : ascii -> bool) (s : string) :
  forall (cur : string) (inrun : bool) (pre : string),
    (inrun = true -> cur = "") ->
    all_chars (fun c => negb (sep c)) cur = true ->
    Forall (fun f => all_chars (fun c => negb (sep c)) f = true /\
                     contains (pre ++ cur ++ s) f)
           (split_from sep inrun cur s).
Proof.
  induction s as [|c s IH]; intros cur inrun pre Hrun Hcur.
  - cbn [split_from]. constructor; [|constructor]. split; [assumption|].
    now exists pre, "".
  - cbn [split_from]. destruct (sep c) eqn:Ec.
    + destruct inrun.
      * rewrite (Hrun eq_refl). cbn [append].
        replace (pre ++ String c s) with ((pre ++ String c "") ++ "" ++ s)
          by (now rewrite append_assoc).
        apply IH; auto.
      * constructor.
        -- split; [assumption|]. now exists pre, (String c s).
        -- replace (pre ++ cur ++ String c s)
             with ((pre ++ cur ++ String c "") ++ "" ++ s)
             by (now rewrite !append_assoc).
           apply IH; auto.
    + replace (pre ++ cur ++ String c s)
        with (pre ++ (cur ++ String c "") ++ s)
        by (now rewrite !append_assoc).
      apply IH; [discriminate|].
      rewrite all_chars_append. cbn [all_chars]. now rewrite Hcur, Ec.
Qed.

(** X8.  Every word that is counted is a non-empty substring of the text
    without white space.  Every sentence that is counted is a substring of
    the text without . ! ? that has a character other than white space.  The
    number of complex words is at most the number of words, which is at most
    the length of the text, and so is the number of sentences. *)
Theorem words_and_sentences_are_fragments (content : string) :
  Forall (fun w => w <> "" /\
                   all_chars (fun c => negb (is_whitespace c)) w = true /\
                   contains content w)
         (words_of content) /\
  Forall (fun s => all_chars (fun c => negb (is_sentence_end c)) s = true /\
                   all_chars is_whitespace s = false /\
                   contains content s)
         (sentences_of content) /\
  (complexWords (readabilityMetrics (analyzeResume content))
   <= List.length (words_of content) <= String.length content)%nat /\
  (sentences (readabilityMetrics (analyzeResume content))
   <= String.length content)%nat.
Proof.
  split; [|split; [|split]].
  - apply Forall_forall. intros w Hw. unfold words_of in Hw.
    apply filter_In in Hw as [Hin Hne].
    pose proof (split_from_fragments is_whitespace content "" false ""
                  ltac:(discriminate) eq_refl) as H.
    rewrite Forall_forall in H. destruct (H w Hin) as [H1 H2].
    split; [|split; assumption]. intros ->. discriminate Hne.
  - apply Forall_forall. intros s Hs. unfold sentences_of in Hs.
    apply filter_In in Hs as [Hin Hne].
    pose proof (split_from_fragments is_sentence_end content "" false ""
                  ltac:(discriminate) eq_refl) as H.
    rewrite Forall_forall in H. destruct (H s Hin) as [H1 H2].
    split; [assumption|]. split; [|assumption].
    destruct (all_chars is_whitespace s) eqn:E; [|reflexivity].
    apply trim_blank_iff in E. congruence.
  - split; [apply complex_count_le | apply word_count_le].
  - apply sentence_count_le.
Qed.

(** ** More on the grammar checks *)

Lemma trimEnd_last_nonblank (s : string) :
  (trimEnd s = "" <-> last_nonblank s = None) /\
  forall p, test_class_at_end p (trimEnd s) =
            match last_nonblank s with Some c => p c | None => false end.
Proof.
  induction s as [|c s [IH1 IH2]]; [split; [split|]; reflexivity|].
  cbn [trimEnd last_nonblank].
  destruct (trimEnd s) as [|a t] eqn:Et.
  - rewrite (proj1 IH1 eq_refl). destruct (is_whitespace c).
    + split; [split; reflexivity | reflexivity].
    + split; [split; discriminate | reflexivity].
  - destruct (last_nonblank s) as [d|] eqn:El.
    + split; [split; discriminate|]. intros p. specialize (IH2 p).
      cbn [test_class_at_end] in *. exact IH2.
    + exfalso. destruct IH1 as [_ H]. discriminate (H eq_refl).
Qed.

Lemma trimStart_last_nonblank (s : string) :
  last_nonblank (trimStart s) = last_nonblank s.
Proof.
  induction s as [|c s IH]; [reflexivity|].
  cbn [trimStart]. destruct (is_whitespace c) eqn:Ec; [|reflexivity].
  rewrite IH. cbn [last_nonblank]. rewrite Ec.
  now destruct (last_nonblank s).
Qed.

Lemma end_punctuation_test (content : string) :
  test_class_at_end is_sentence_end (trim content) =
  match last_nonblank content with
  | Some c => is_sentence_end c
  | None => false
  end.
Proof.
  unfold trim. rewrite (proj2 (trimEnd_last_nonblank _)).
  now rewrite trimStart_last_nonblank.
Qed.

Lemma last_nonblank_append_blank (s w : string) :
  all_chars is_whitespace w = true ->
  last_nonblank (s ++ w) = last_nonblank s.
Proof.
  intros Hw. induction s as [|c s IH].
  - cbn [append]. induction w as [|d w IHw]; [reflexivity|].
    cbn [all_chars] in Hw. apply andb_true_iff in Hw as [Hd Hw].
    cbn [last_nonblank]. rewrite (IHw Hw), Hd. reflexivity.
  - cbn [append last_nonblank]. now rewrite IH.
Qed.

Lemma grammar_messages_distinct :
  msg_lowercase_i <> msg_missing_punctuation /\
  msg_lowercase_i <> msg_multiple_spaces /\
  msg_missing_punctuation <> msg_multiple_spaces.
Proof.
  repeat split; intros H; apply String.eqb_eq in H; vm_compute in H;
    discriminate H.
Qed.

(** X9.  Each grammar message is reported exactly under its own condition:
    the one on the lowercase i when the lower-cased text contains an i
    between two spaces, the one on the missing punctuation when the last
    character of the text that is not white space is none of . ! ? or there
    is no such character, and the one on spaces when the text contains two
    spaces in a row.  White space appended to the text does not change
    whether the missing punctuation is reported. *)
Theorem grammar_issues_meaning (content : string) :
  let issues := grammarIssues (analyzeResume content) in
  (In msg_lowercase_i issues <-> contains (toLowerCase content) " i ") /\
  (In msg_missing_punctuation issues <->
   match last_nonblank content with
   | Some c => is_sentence_end c = false
   | None => True
   end) /\
  (In msg_multiple_spaces issues <-> contains content "  ") /\
  (forall w, all_chars is_whitespace w = true ->
     (In msg_missing_punctuation (grammarIssues (analyzeResume (content ++ w)))
      <-> In msg_missing_punctuation issues)).
Proof.
  cbv zeta.
  assert (P : forall c,
             In msg_missing_punctuation (grammarIssues (analyzeResume c)) <->
             match last_nonblank c with
             | Some d => is_sentence_end d = false
             | None => True
             end).
  { intros c. rewrite grammarIssues_eq, grammarIssues_cases.
    rewrite end_punctuation_test.
    destruct grammar_messages_distinct as [D1 [D2 D3]].
    rewrite !in_app_iff, !In_conditional.
    destruct (last_nonblank c) as [d|].
    - destruct (is_sentence_end d); cbn [In]; intuition congruence.
    - cbn [In]. intuition congruence. }
  destruct grammar_messages_distinct as [D1 [D2 D3]].
  split; [|split; [|split]].
  - rewrite <- includes_spec, grammarIssues_eq, grammarIssues_cases.
    rewrite !in_app_iff, !In_conditional.
    destruct (test_class_at_end is_sentence_end (trim content));
      cbn [In]; intuition congruence.
  - apply P.
  - rewrite <- includes_spec, grammarIssues_eq, grammarIssues_cases.
    rewrite !in_app_iff, !In_conditional.
    destruct (test_class_at_end is_sentence_end (trim content));
      cbn [In]; intuition congruence.
  - intros w Hw. rewrite !P. now rewrite last_nonblank_append_blank.
Qed.

(** * The components around the scorer *)

(** ** The scoring component *)

Section ComponentFacts.

Import Component.

Lemma Inv_mount (content : string) : Inv (mount content).
Proof. unfold Inv, mount; cbn. repeat split; discriminate. Qed.

Lemma Inv_run_effect (st : State) : Inv st -> Inv (run_effect st).
Proof.
  intros _. unfold run_effect, Inv.
  destruct (truthy (trim (resumeContent st))) eqn:E;
    cbn [timer isAnalyzing effectPending resumeContent analysis].
  - split; [|split; [|split]].
    + intros c [= <-]. repeat split. exact E.
    + reflexivity.
    + discriminate.
    + intros _ H. congruence.
  - split; [|split; [|split]].
    + discriminate.
    + intros _ H. congruence.
    + intros _ H. congruence.
    + intros _ _. split; reflexivity.
Qed.

Lemma Inv_flush (st : State) : Inv st -> Inv (flush st).
Proof.
  intros H. unfold flush. destruct (effectPending st); [|assumption].
  now apply Inv_run_effect.
Qed.

Lemma flush_not_pending (st : State) : effectPending (flush st) = false.
Proof.
  unfold flush. destruct (effectPending st) eqn:E; [|assumption].
  unfold run_effect. now destruct (truthy (trim (resumeContent st))).
Qed.

Lemma Inv_timer_fired (st : State) : Inv st -> Inv (timer_fired st).
Proof.
  intros H. unfold timer_fired.
  destruct (timer st) as [c|] eqn:E; [|exact H].
  destruct H as [I1 _].
  destruct (I1 c E) as [Ha [Hb Hc]]. unfold Inv.
  cbn [timer isAnalyzing effectPending resumeContent analysis].
  split; [|split; [|split]].
  - discriminate.
  - discriminate.
  - intros Hp _ _. now rewrite (Hc Hp).
  - intros Hp Hblank. rewrite <- (Hc Hp) in Hblank. congruence.
Qed.

Lemma Inv_rerender (content : string) (st : State) :
  Inv st -> Inv (rerender content st).
Proof.
  intros H. apply Inv_flush in H. unfold rerender. cbv zeta.
  destruct (String.eqb content (resumeContent (flush st))); [assumption|].
  destruct H as [I1 _]. unfold Inv.
  cbn [timer isAnalyzing effectPending resumeContent analysis].
  split; [|split; [|split]].
  - intros c Hc. destruct (I1 c Hc) as [Ha [Hb _]].
    split; [exact Ha|]. split; [exact Hb | discriminate].
  - discriminate.
  - discriminate.
  - discriminate.
Qed.

Lemma Inv_step (st : State) (ev : Event) : Inv st -> Inv (step st ev).
Proof.
  destruct ev; cbn [step];
    auto using Inv_rerender, Inv_flush, Inv_timer_fired.
Qed.

Lemma Inv_run (content : string) (evs : list Event) : Inv (run content evs).
Proof.
  unfold run. generalize (Inv_mount content). generalize (mount content).
  induction evs as [|ev evs IH]; intros st H; [exact H|].
  cbn [fold_left]. apply IH. now apply Inv_step.
Qed.

Lemma render_Results (st : State) (a : ResumeAnalysis) :
  render st = Results a <->
  truthy (trim (resumeContent st)) = true /\ isAnalyzing st = false /\
  analysis st = Some a.
Proof.
  unfold render.
  destruct (truthy (trim (resumeContent st))), (isAnalyzing st),
           (analysis st) as [b|]; cbn; split;
    try discriminate; try (intros [? [? ?]]; discriminate).
  - intros [= ->]. auto.
  - intros [_ [_ [= ->]]]. reflexivity.
Qed.

(** X10.  In every state the scoring component reaches from its mount by
    renders, effects and timer callbacks, once the effect of the last render
    has run: results on display are the analysis of the current text; while
    the component shows that it is analysing, the timer of the current text
    is pending; the component does not return null; and a pending timer is
    that of the current text, the one of an earlier text having been
    cleared. *)
Theorem displayed_results_are_current (content : string) (evs : list Event) :
  let st := run content evs in
  effectPending st = false ->
  (forall a, render st = Results a -> a = analyzeResume (resumeContent st)) /\
  (render st = Analyzing -> timer st = Some (resumeContent st)) /\
  render st <> Nothing /\
  (forall c, timer st = Some c -> c = resumeContent st).
Proof.
  cbv zeta. intros Hp. destruct (Inv_run content evs) as [I1 [I2 [I3 _]]].
  split; [|split; [|split]].
  - intros a Ha. apply render_Results in Ha as [Hc [Hi Ha]].
    rewrite (I3 Hp Hc Hi) in Ha. now injection Ha.
  - unfold render.
    destruct (truthy (trim (resumeContent (run content evs)))) eqn:Hc;
      [|discriminate].
    destruct (isAnalyzing (run content evs)) eqn:Hi; cbn.
    + intros _. exact (I2 Hp eq_refl eq_refl).
    + destruct (analysis (run content evs)); discriminate.
  - unfold render.
    destruct (truthy (trim (resumeContent (run content evs)))) eqn:Hc;
      [|discriminate].
    destruct (isAnalyzing (run content evs)) eqn:Hi; cbn; [discriminate|].
    rewrite (I3 Hp eq_refl eq_refl). discriminate.
  - intros c Hc. destruct (I1 c Hc) as [_ [_ H]]. now apply H.
Qed.

Lemma displayed_results_are_current_witness :
  render (run "" [Rerender "Resume"; FlushEffects; TimerFired;
                  Rerender "Resume."; FlushEffects; TimerFired])
  = Results (analyzeResume "Resume.").
Proof.
  destruct (displayed_results_are_current ""
              [Rerender "Resume"; FlushEffects; TimerFired;
               Rerender "Resume."; FlushEffects; TimerFired] eq_refl)
    as [H _].
  remember (run "" [Rerender "Resume"; FlushEffects; TimerFired;
                    Rerender "Resume."; FlushEffects; TimerFired]) as st.
  assert (E : exists a, render st = Results a).
  { subst st. eexists. reflexivity. }
  destruct E as [a E]. rewrite E. f_equal. rewrite (H a E).
  subst st. reflexivity.
Defined.

(** After a render with [c], the effect and the timer, the view is the
    analysis of [c], or the placeholder when [c] is blank. *)
Lemma settled_view (c : string) (st : State) :
  Inv st ->
  render (timer_fired (flush (rerender c st))) =
  if truthy (trim c) then Results (analyzeResume c) else Placeholder.
Proof.
  intros H.
  assert (Hc : resumeContent (timer_fired (flush (rerender c st))) = c).
  { unfold timer_fired.
    assert (Hf : resumeContent (flush (rerender c st)) = c).
    { assert (Hr : resumeContent (rerender c st) = c).
      { unfold rerender. cbv zeta.
        destruct (String.eqb_spec c (resumeContent (flush st))); [|reflexivity].
        now symmetry. }
      unfold flush. destruct (effectPending (rerender c st)); [|exact Hr].
      unfold run_effect. rewrite Hr. now destruct (truthy (trim c)). }
    destruct (timer (flush (rerender c st))); [exact Hf | exact Hf]. }
  pose proof (Inv_timer_fired _ (Inv_flush _ (Inv_rerender c _ H)))
    as [I1 [I2 [I3 _]]].
  assert (Hp : effectPending (timer_fired (flush (rerender c st))) = false).
  { unfold timer_fired. pose proof (flush_not_pending (rerender c st)) as Hp.
    destruct (timer (flush (rerender c st))); exact Hp. }
  assert (Ht : timer (timer_fired (flush (rerender c st))) = None).
  { unfold timer_fired.
    destruct (timer (flush (rerender c st))) eqn:E; [reflexivity | exact E]. }
  unfold render. rewrite Hc in *.
  destruct (truthy (trim c)) eqn:Ec; [|reflexivity]. cbn [negb].
  destruct (isAnalyzing (timer_fired (flush (rerender c st)))) eqn:Hi.
  - rewrite (I2 Hp eq_refl eq_refl) in Ht. discriminate Ht.
  - now rewrite (I3 Hp eq_refl eq_refl).
Qed.

(** X11.  Once the effect of the last render has run, the results the
    component displays never hold NaN: they are the analysis of the current
    text, which is not blank, so for a text of fewer than 2^53 code units the
    readability score, the overall score and the average number of words per
    sentence are numbers. *)
Theorem component_never_shows_nan (content : string) (evs : list Event)
  (a : ResumeAnalysis) :
  let st := run content evs in
  effectPending st = false ->
  render st = Results a ->
  Z.of_nat (String.length (resumeContent st)) < 2 ^ 53 ->
  a = analyzeResume (resumeContent st) /\
  readability (breakdown a) <> NaN /\
  overall a <> NaN /\
  avgWordsPerSentence (readabilityMetrics a) <> NaN.
Proof.
  cbv zeta. intros Hp Hr Hlen.
  destruct (Inv_run content evs) as [_ [_ [I3 _]]].
  apply render_Results in Hr as [Hc [Hi Ha]].
  rewrite (I3 Hp Hc Hi) in Ha. injection Ha as <-.
  split; [reflexivity|].
  rewrite breakdown_eq, overall_eq, avg_metric_eq.
  exact (scores_not_nan _ Hc Hlen).
Qed.

Lemma component_never_shows_nan_witness :
  overall (analyzeResume "Resume") <> NaN /\
  readability (breakdown (analyzeResume "Resume")) <> NaN.
Proof.
  destruct (component_never_shows_nan ""
              [Rerender "Resume"; FlushEffects; TimerFired]
              (analyzeResume "Resume") eq_refl eq_refl eq_refl)
    as [_ [H1 [H2 _]]].
  split; assumption.
Defined.

End ComponentFacts.

(** ** The page *)

Section PageFacts.

Import Page.

(** X12.  When the pasted text is not blank, submitting it and letting the
    delay elapse displays the analysis of the text as it was pasted, not
    trimmed, under the file name [Pasted Resume] and with no uploaded file.
    When the pasted text is blank, submitting it changes nothing. *)
Theorem pasted_text_is_analysed (st : State) :
  Component.Inv (scoring st) ->
  let pasted := Upload.pastedText (upload st) in
  let st' := delayElapsed (textSubmitted st) in
  (Component.truthy (trim pasted) = true ->
   resumeContent st' = pasted /\
   filename st' = Some "Pasted Resume" /\
   Upload.uploadedFile (upload st') = None /\
   Component.render (scoring st') = Component.Results (analyzeResume pasted)) /\
  (Component.truthy (trim pasted) = false ->
   resumeContent (textSubmitted st) = resumeContent st /\
   filename (textSubmitted st) = filename st /\
   upload (textSubmitted st) = upload st /\
   scoring (textSubmitted st) = scoring st).
Proof.
  intros HI. cbv zeta. unfold textSubmitted, Upload.handleTextSubmit.
  unfold Component.truthy.
  destruct (0 <? String.length (trim (Upload.pastedText (upload st))))%nat
    eqn:E.
  - split; [intros _ | discriminate].
    cbn [deliver handleResumeContent delayElapsed resumeContent filename
         upload scoring Upload.uploadedFile].
    repeat split.
    rewrite (settled_view _ _ HI). unfold Component.truthy. now rewrite E.
  - split; [discriminate | intros _].
    cbn [deliver resumeContent filename upload scoring]. repeat split.
Qed.

Lemma pasted_text_is_analysed_witness :
  Component.render
    (scoring (delayElapsed (textSubmitted (textTyped "Led a team. " initial))))
  = Component.Results (analyzeResume "Led a team. ").
Proof.
  apply (proj1 (pasted_text_is_analysed (textTyped "Led a team. " initial)
                  (Inv_mount ""))).
  reflexivity.
Defined.

End PageFacts.

(** ** The upload component *)

Section UploadFacts.

Import Upload UploadNotions.

(** X13.  [processFile] always ends with [isProcessing] false and shows
    exactly one toast, the destructive one exactly when a step failed.  The
    file is uploaded when its text could be extracted, its record is inserted
    when the upload went through as well, and the text is handed to the page
    and the file remembered only when the insert went through too.  On
    success the calls are, in order: the upload, the insert, the update of
    the preview, [onResumeContent] and the success toast. *)
Theorem processFile_calls (st : State) (file : File) (o : Outcomes) :
  let st' := fst (processFile st file o) in
  let calls := snd (processFile st file o) in
  isProcessing st' = false /\
  uploadedFile st' =
    (if succeeded file o then Some file else uploadedFile st) /\
  existsb is_OnResumeContent calls = succeeded file o /\
  existsb is_StorageUpload calls = extracted file o /\
  existsb is_DbInsert calls = extracted file o && no_error (uploadError o) /\
  List.length (filter is_Toast calls) = 1%nat /\
  existsb is_error_Toast calls = negb (succeeded file o) /\
  (forall content,
     extract file o = inr content -> succeeded file o = true ->
     calls =
       [StorageUpload (storage_path (now o) file) file;
        DbInsert (name file) (storage_path (now o) file) (size file) None;
        DbUpdatePreview (storage_path (now o) file) (substring 0 1000 content);
        OnResumeContent content (Some (name file));
        Toast "Success" (msg_uploaded file) false]).
Proof.
  cbv zeta. unfold processFile, succeeded, extracted, uploadToStorage.
  destruct (extract file o) as [t|content] eqn:E;
    [|destruct (uploadError o) as [m1|]; [|destruct (dbError o) as [m2|]]];
    cbn; repeat split; try discriminate.
  intros c [= <-] _. reflexivity.
Qed.

(** X14.  A file whose type is none of the three supported ones is
    rejected: nothing is uploaded or inserted and no text is handed to the
    page; the error is logged, a destructive toast shows the message on
    unsupported formats, and the state is unchanged but for [isProcessing]
    being false. *)
Theorem unsupported_type_is_rejected (st : State) (file : File) (o : Outcomes) :
  supported file = false ->
  processFile st file o =
    ({| isDragging := isDragging st; isProcessing := false;
        pastedText := pastedText st; uploadedFile := uploadedFile st |},
     [ConsoleError; Toast "Error" msg_unsupported true]).
Proof.
  unfold supported, processFile, extract. intros H.
  apply orb_false_iff in H as [H H3]. apply orb_false_iff in H as [H1 H2].
  now rewrite H1, H2, H3.
Qed.

Lemma unsupported_type_is_rejected_witness :
  snd (processFile
         {| isDragging := true; isProcessing := false; pastedText := "";
            uploadedFile := None |}
         {| name := "photo.png"; type := "image/png"; size := 10 |}
         {| now := 0; pdf_pages := inr []; docx_value := inr "";
            txt_text := inr "text"; uploadError := None; dbError := None |})
  = [ConsoleError; Toast "Error" msg_unsupported true].
Proof.
  rewrite unsupported_type_is_rejected; reflexivity.
Defined.

(** *** The preview *)

Lemma substring_prefix (n : nat) (s : string) :
  prefix (substring 0 n s) s = true /\
  String.length (substring 0 n s) = Nat.min n (String.length s).
Proof.
  revert s; induction n as [|n IH]; intros s.
  - destruct s; split; reflexivity.
  - destruct s as [|c s]; [split; reflexivity|].
    cbn [substring prefix String.length Nat.min].
    destruct (IH s) as [H1 H2]. rewrite H1, H2.
    split; [|reflexivity]. now destruct (ascii_dec c c).
Qed.

(** X15.  A preview written to the database is a prefix of the extracted
    text, of length the minimum of 1000 and the length of the text; it is
    written for the path of this upload, and the same text is handed to the
    page under the name of the file. *)
Theorem stored_preview_is_prefix (st : State) (file : File) (o : Outcomes)
  (path preview : string) :
  In (DbUpdatePreview path preview) (snd (processFile st file o)) ->
  exists content,
    extract file o = inr content /\
    In (OnResumeContent content (Some (name file)))
       (snd (processFile st file o)) /\
    path = storage_path (now o) file /\
    prefix preview content = true /\
    String.length preview = Nat.min 1000 (String.length content).
Proof.
  unfold processFile, uploadToStorage.
  destruct (extract file o) as [t|content] eqn:E;
    [|destruct (uploadError o) as [m1|]; [|destruct (dbError o) as [m2|]]];
    cbn [snd app In]; intros H;
    repeat (destruct H as [H|H]; try discriminate H); try contradiction.
  injection H as <- <-. exists content.
  destruct (substring_prefix 1000 content) as [H1 H2].
  split; [reflexivity|]. split; [do 3 right; now left|].
  split; [reflexivity|]. split; assumption.
Qed.

Lemma stored_preview_is_prefix_witness :
  exists content,
    prefix "Led a team." content = true /\
    String.length "Led a team." = Nat.min 1000 (String.length content).
Proof.
  destruct (stored_preview_is_prefix
              {| isDragging := false; isProcessing := false; pastedText := "";
                 uploadedFile := None |}
              {| name := "cv.txt"; type := "text/plain"; size := 11 |}
              {| now := 1700000000000; pdf_pages := inr []; docx_value := inr "";
                 txt_text := inr "Led a team."; uploadError := None;
                 dbError := None |}
              "1700000000000_cv.txt" "Led a team.")
    as [content [_ [_ [_ [H1 H2]]]]].
  - cbn. right. right. left. reflexivity.
  - now exists content.
Defined.

End UploadFacts.

(** *** Storage paths *)

Section StoragePaths.

Import Upload.

Lemma string_of_uint_digits (d : Decimal.uint) :
  all_chars is_digit (NilEmpty.string_of_uint d) = true.
Proof. induction d; cbn [NilEmpty.string_of_uint all_chars]; auto. Qed.

Lemma string_of_uint_inj (d d' : Decimal.uint) :
  NilEmpty.string_of_uint d = NilEmpty.string_of_uint d' -> d = d'.
Proof.
  intros H. pose proof (NilEmpty.usu d) as H1. rewrite H in H1.
  rewrite NilEmpty.usu in H1. now injection H1.
Qed.

Lemma digits_then_underscore (a b x y : string) :
  all_chars is_digit a = true -> all_chars is_digit b = true ->
  a ++ "_" ++ x = b ++ "_" ++ y -> a = b /\ x = y.
Proof.
  revert b. induction a as [|c a IH]; intros [|d b] Ha Hb H.
  - cbn in H. injection H as ->. now split.
  - cbn in H. injection H as <- _. cbn in Hb. discriminate Hb.
  - cbn in H. injection H as -> _. cbn in Ha. discriminate Ha.
  - cbn [append] in H. injection H as -> H.
    cbn [all_chars] in Ha, Hb.
    apply andb_true_iff in Ha as [_ Ha]. apply andb_true_iff in Hb as [_ Hb].
    destruct (IH b Ha Hb H) as [-> ->]. now split.
Qed.

(** X16.  Two uploads get the same storage path only when they have the
    same time stamp and the same file name. *)
Theorem storage_path_injective (now1 now2 : N) (file1 file2 : File) :
  storage_path now1 file1 = storage_path now2 file2 ->
  now1 = now2 /\ name file1 = name file2.
Proof.
  unfold storage_path, string_of_N. intros H.
  apply digits_then_underscore in H as [H1 H2];
    try apply string_of_uint_digits.
  split; [|exact H2].
  apply DecimalN.Unsigned.to_uint_inj. now apply string_of_uint_inj.
Qed.

Lemma storage_path_injective_witness :
  (1700000000000 = 1700000000000)%N /\
  storage_path 1700000000000 {| name := "cv.pdf"; type := mime_pdf; size := 1 |}
  = "1700000000000_cv.pdf".
Proof.
  split; [|reflexivity].
  apply (storage_path_injective _ _
           {| name := "cv.pdf"; type := mime_pdf; size := 1 |}
           {| name := "cv.pdf"; type := mime_txt; size := 2 |}).
  reflexivity.
Defined.

End StoragePaths.

Section PageFileFacts.

Import Page UploadNotions.

(** X17.  After a [processFile] that went through and the delay, the page
    displays the analysis of the extracted text under the name of the file,
    or the placeholder when the extracted text is blank.  After one that
    failed, the text, the file name, the scoring component and the
    remembered file are as before. *)
Theorem uploaded_file_is_analysed (st : State) (file : Upload.File)
  (o : Upload.Outcomes) :
  Component.Inv (scoring st) ->
  let st1 := fileProcessed file o st in
  let st' := delayElapsed st1 in
  (forall content,
     Upload.extract file o = inr content -> succeeded file o = true ->
     resumeContent st' = content /\
     filename st' = Some (Upload.name file) /\
     Upload.uploadedFile (upload st') = Some file /\
     Component.render (scoring st') =
       if Component.truthy (trim content)
       then Component.Results (analyzeResume content)
       else Component.Placeholder) /\
  (succeeded file o = false ->
   resumeContent st1 = resumeContent st /\ filename st1 = filename st /\
   scoring st1 = scoring st /\
   Upload.uploadedFile (upload st1) = Upload.uploadedFile (upload st)).
Proof.
  intros HI. cbv zeta.
  unfold fileProcessed, Upload.processFile, succeeded, extracted,
    Upload.uploadToStorage.
  destruct (Upload.extract file o) as [t|content] eqn:E;
    [|destruct (Upload.uploadError o) as [m1|];
      [|destruct (Upload.dbError o) as [m2|]]];
    cbn [Upload.on_error app deliver handleResumeContent delayElapsed
         resumeContent filename upload scoring Upload.uploadedFile
         andb no_error];
    (split; [intros c Hc Hs; try discriminate Hs
            | intros Hs; try discriminate Hs; repeat split]).
  injection Hc as <-. repeat split. now apply settled_view.
Qed.

Lemma uploaded_file_is_analysed_witness :
  Component.render
    (scoring (delayElapsed
       (fileProcessed
          {| Upload.name := "empty.txt"; Upload.type := Upload.mime_txt;
             Upload.size := 2 |}
          {| Upload.now := 1700000000000; Upload.pdf_pages := inr [];
             Upload.docx_value := inr ""; Upload.txt_text := inr "  ";
             Upload.uploadError := None; Upload.dbError := None |}
          initial)))
  = Component.Placeholder.
Proof.
  refine (proj2 (proj2 (proj2
            (proj1 (uploaded_file_is_analysed initial _ _ (Inv_mount ""))
               "  " _ _)))); reflexivity.
Defined.

(** X18.  Clearing the upload empties the text, the file name, the pasted
    text and the remembered file, and the placeholder is displayed.  Once the
    effect has run, no analysis is kept and no timer is pending, so an
    analysis that was under way never arrives. *)
Theorem clearing_cancels_the_analysis (st : State) :
  Component.Inv (scoring st) ->
  let st' := uploadCleared st in
  resumeContent st' = "" /\ filename st' = None /\
  Upload.pastedText (upload st') = "" /\
  Upload.uploadedFile (upload st') = None /\
  Component.render (scoring st') = Component.Placeholder /\
  Component.analysis (Component.flush (scoring st')) = None /\
  Component.timer (Component.flush (scoring st')) = None /\
  Component.timer_fired (Component.flush (scoring st'))
  = Component.flush (scoring st').
Proof.
  intros HI. cbv zeta. unfold uploadCleared, Upload.clearUpload.
  cbn [deliver handleResumeContent resumeContent filename upload scoring
       Upload.pastedText Upload.uploadedFile].
  do 4 (split; [reflexivity|]).
  assert (Hc : Component.resumeContent (Component.rerender "" (scoring st))
               = "").
  { unfold Component.rerender. cbv zeta.
    destruct (String.eqb_spec "" (Component.resumeContent
                                    (Component.flush (scoring st))));
      [now symmetry | reflexivity]. }
  split.
  { unfold Component.render. now rewrite Hc. }
  pose proof (Inv_rerender "" _ HI) as HI1.
  pose proof (Inv_flush _ HI1) as [_ [_ [_ I5]]].
  assert (Hc2 : Component.resumeContent
                  (Component.flush (Component.rerender "" (scoring st))) = "").
  { unfold Component.flush.
    destruct (Component.effectPending (Component.rerender "" (scoring st)));
      [|exact Hc].
    unfold Component.run_effect. rewrite Hc. reflexivity. }
  rewrite Hc2 in I5.
  destruct (I5 (flush_not_pending _) eq_refl) as [Ha Ht].
  split; [exact Ha|]. split; [exact Ht|].
  unfold Component.timer_fired. now rewrite Ht.
Qed.

Lemma clearing_cancels_the_analysis_witness :
  Component.render
    (scoring (uploadCleared
                (textSubmitted (textTyped "Led a team. " initial))))
  = Component.Placeholder.
Proof.
  refine (proj1 (proj2 (proj2 (proj2 (proj2
            (clearing_cancels_the_analysis
               (textSubmitted (textTyped "Led a team. " initial)) _)))))).
  apply (Inv_rerender "Led a team. " _ (Inv_mount "")).
Defined.

End PageFileFacts.

(** ** Colours, icons and the badge *)

Section DisplayFacts.

Import Display.

Lemma small_integer_ge (z c : Z) :
  0 <= z <= 100 -> 0 <= c <= 100 -> ge (of_Z z) (of_Z c) = (c <=? z).
Proof.
  intros Hz Hc.
  assert (E : forallb (fun z => forallb (fun c =>
                Bool.eqb (ge (of_Z z) (of_Z c)) (c <=? z))
                (Zrange 0 101)) (Zrange 0 101) = true)
    by (vm_compute; reflexivity).
  pose proof (forallb_Zrange _ _ _ E z ltac:(lia)) as E1. cbv beta in E1.
  pose proof (forallb_Zrange _ _ _ E1 c ltac:(lia)) as E2. cbv beta in E2.
  now apply Bool.eqb_prop in E2.
Qed.

Lemma getScoreColor_integer (z : Z) :
  0 <= z <= 100 ->
  getScoreColor (of_Z z) =
  if 80 <=? z then "success" else if 60 <=? z then "warning"
  else "destructive".
Proof.
  intros Hz. unfold getScoreColor.
  now rewrite !small_integer_ge by lia.
Qed.

(** X19.  The colour and the icon of a score, and the label and the variant
    of the badge, always fall in the same of three classes.  For an integer
    score from 0 to 100 the class is the first from 80 on, the second from 60
    to 79 and the third below 60; NaN and -Infinity fall in the third. *)
Theorem score_classes_agree (score : number) :
  (getScoreColor score = "success" <-> getScoreIcon score = CheckCircle) /\
  (getScoreColor score = "warning" <-> getScoreIcon score = AlertCircle) /\
  (getScoreColor score = "destructive" <-> getScoreIcon score = XCircle) /\
  (getScoreColor score = "success" <-> badgeLabel score = "Excellent") /\
  (getScoreColor score = "warning" <-> badgeLabel score = "Good") /\
  (getScoreColor score = "destructive" <->
   badgeLabel score = "Needs Improvement") /\
  (getScoreColor score = "success" <-> badgeVariant score = "default") /\
  (getScoreColor score = "warning" <-> badgeVariant score = "secondary") /\
  (forall z, 0 <= z <= 100 -> score = of_Z z ->
     (getScoreColor score = "success" <-> 80 <= z) /\
     (getScoreColor score = "warning" <-> 60 <= z < 80) /\
     (getScoreColor score = "destructive" <-> z < 60)) /\
  getScoreColor NaN = "destructive" /\
  getScoreColor NegInfinity = "destructive".
Proof.
  assert (H : forall z, 0 <= z <= 100 -> score = of_Z z ->
     (getScoreColor score = "success" <-> 80 <= z) /\
     (getScoreColor score = "warning" <-> 60 <= z < 80) /\
     (getScoreColor score = "destructive" <-> z < 60)).
  { intros z Hz ->. rewrite getScoreColor_integer by assumption.
    destruct (Z.leb_spec 80 z); [|destruct (Z.leb_spec 60 z)];
      repeat split; intros; try discriminate; try lia. }
  assert (G :
    (getScoreColor score = "success" <-> getScoreIcon score = CheckCircle) /\
    (getScoreColor score = "warning" <-> getScoreIcon score = AlertCircle) /\
    (getScoreColor score = "destructive" <-> getScoreIcon score = XCircle) /\
    (getScoreColor score = "success" <-> badgeLabel score = "Excellent") /\
    (getScoreColor score = "warning" <-> badgeLabel score = "Good") /\
    (getScoreColor score = "destructive" <->
     badgeLabel score = "Needs Improvement") /\
    (getScoreColor score = "success" <-> badgeVariant score = "default") /\
    (getScoreColor score = "warning" <-> badgeVariant score = "secondary")).
  { unfold getScoreColor, getScoreIcon, badgeLabel, badgeVariant.
    destruct (ge score (of_Z 80)), (ge score (of_Z 60));
      repeat split; intros; try discriminate; reflexivity. }
  destruct G as (G1 & G2 & G3 & G4 & G5 & G6 & G7 & G8).
  repeat (split; [assumption|]).
  split; reflexivity.
Qed.

(** X20.  The suggestions on grammar and on formatting are given exactly
    when the bar of that score is not in the success colour, and the one on
    keywords exactly when the bar of the keyword score is in the destructive
    colour.  The grammar bar is destructive only with all three issues, and
    the formatting bar only at the score 50. *)
Theorem bars_and_suggestions (content : string) :
  let r := analyzeResume content in
  let b := breakdown r in
  (In sug_grammar (suggestions r) <->
   getScoreColor (grammar b) <> "success") /\
  (In sug_formatting (suggestions r) <->
   getScoreColor (formatting b) <> "success") /\
  (In sug_keywords (suggestions r) <->
   getScoreColor (keywords b) = "destructive") /\
  (getScoreColor (grammar b) = "destructive" <->
   List.length (grammarIssues r) = 3%nat) /\
  (getScoreColor (formatting b) = "destructive" <->
   formatting_points content = 50).
Proof.
  cbv zeta.
  destruct (suggestion_present content) as [H1 [H2 [_ [H4 _]]]].
  cbv zeta in *. rewrite H1, H2, H4. clear H1 H2 H4.
  rewrite grammarIssues_eq, formatting_rounded_points.
  destruct (keywords_rounded_points content) as [Ek Hk].
  destruct (grammar_rounded_points content) as [Hn [_ Eg]].
  pose proof (formatting_points_range content) as Hf.
  assert (Hf50 : In (formatting_points content) [50; 60; 70; 80; 90; 100]).
  { unfold formatting_points.
    destruct (Nat.ltb_spec (String.length content) 200);
      destruct (Nat.ltb_spec 5000 (String.length content));
      try (exfalso; lia);
      destruct (includes content "@"), (test_year content); cbn; auto 10. }
  rewrite Ek, Eg.
  remember (List.length (grammarIssues_of content)) as n eqn:En. clear En.
  remember (keyword_points (List.length (matchedKeywords_of content))) as k.
  clear Heqk. remember (formatting_points content) as f. clear Heqf.
  rewrite !getScoreColor_integer by lia.
  destruct (small_integer_compare (100 - 15 * Z.of_nat n) 80
              ltac:(lia) ltac:(lia)) as [-> _].
  destruct (small_integer_compare f 80 ltac:(lia) ltac:(lia)) as [-> _].
  destruct (small_integer_compare k 60 Hk ltac:(lia)) as [-> _].
  rewrite !Z.ltb_lt.
  repeat split.
  all: repeat match goal with
         | |- context [Z.leb ?a ?b] => destruct (Z.leb_spec a b)
         end; intros; try discriminate; try lia; try congruence.
  all: cbn [In] in Hf50; lia.
Qed.

End DisplayFacts.

(** ** Row level security *)

Section SecurityFacts.

Import RowLevelSecurity.

(** X21.  The policies of the table admit a row without owner for every
    caller, signed in or not, and a row with an owner for that owner only.
    The row the upload component inserts has no owner, so every caller is
    admitted to it; it holds the name of the file, the path of the upload and
    no preview.  The trigger changes [updated_at] only and so not who is
    admitted. *)
Theorem rows_without_owner_are_open :
  (forall caller row, user_id row = None -> admits caller row = true) /\
  (forall caller u row,
     user_id row = Some u -> (admits caller row = true <-> caller = Some u)) /\
  (forall caller new_id t call row,
     inserted_row new_id t call = Some row -> admits caller row = true) /\
  (forall caller new_id t st file o call row,
     In call (snd (Upload.processFile st file o)) ->
     inserted_row new_id t call = Some row ->
     admits caller row = true /\ admits None row = true /\
     filename row = Upload.name file /\
     file_path row = Upload.storage_path (Upload.now o) file /\
     content_preview row = None) /\
  (forall caller t row,
     admits caller (update_updated_at_column t row) = admits caller row /\
     uploaded_at (update_updated_at_column t row) = uploaded_at row).
Proof.
  assert (A : forall caller row, user_id row = None -> admits caller row = true).
  { intros caller row H. unfold admits, policy. rewrite H.
    now destruct caller. }
  assert (B : forall caller new_id t call row,
             inserted_row new_id t call = Some row -> admits caller row = true).
  { intros caller new_id t call row H. apply A.
    destruct call; try discriminate H. now injection H as <-. }
  split; [exact A|]. split; [|split; [exact B|split]].
  - intros caller u row H. unfold admits, policy. rewrite H.
    destruct caller as [v|]; cbn.
    + destruct (N.eqb_spec v u); split; intros; subst; congruence.
    + split; discriminate.
  - intros caller new_id t st file o call row Hin H.
    split; [exact (B _ _ _ _ _ H)|]. split; [exact (B _ _ _ _ _ H)|].
    destruct call; try discriminate H. injection H as <-.
    cbn [filename file_path content_preview].
    revert Hin. unfold Upload.processFile, Upload.uploadToStorage.
    destruct (Upload.extract file o) as [e|content];
      [|destruct (Upload.uploadError o) as [m1|];
        [|destruct (Upload.dbError o) as [m2|]]];
      cbn [snd app In Upload.on_error]; intros Hin;
      repeat (destruct Hin as [Hin|Hin]; try discriminate Hin);
      try contradiction; injection Hin as <- <- <- <-; auto.
  - intros caller t row. split; reflexivity.
Qed.

End SecurityFacts.

(** * The overall score, over the integers *)

(** ** Exact arithmetic on integers *)

Section ExactFacts.

Lemma Zdigits2_mul_pow2 (m j : Z) :
  0 < m -> 0 <= j -> Zdigits2 (m * 2 ^ j) = Zdigits2 m + j.
Proof.
  intros Hm Hj.
  assert (0 < 2 ^ j) by (apply Z.pow_pos_nonneg; lia).
  rewrite !Zdigits2_log2 by nia.
  rewrite Z.log2_mul_pow2 by lia. lia.
Qed.

Lemma Zdigits2_shiftr (m n : Z) :
  0 <= n -> 0 < Z.shiftr m n -> Zdigits2 (Z.shiftr m n) = Zdigits2 m - n.
Proof.
  intros Hn H.
  assert (Hm : 0 < m).
  { destruct (Z.lt_trichotomy m 0) as [Hneg|[->|Hp]]; [|now rewrite Z.shiftr_0_l in H|assumption].
    exfalso. pose proof (Z.shiftr_neg m n). lia. }
  rewrite !Zdigits2_log2 by lia.
  rewrite Z.log2_shiftr by lia.
  assert (0 <= Z.log2 m - n); [|lia].
  destruct (Z.le_gt_cases n (Z.log2 m)) as [|Hlt]; [lia|]. exfalso.
  rewrite Z.shiftr_eq_0 in H; lia.
Qed.

Lemma Zdigits2_succ (m : Z) : 0 <= m -> Zdigits2 (m + 1) <= Zdigits2 m + 1.
Proof.
  intros Hm. pose proof (Zdigits2_nonneg m) as Hd.
  apply Zdigits2_le_of_lt_pow; [lia|].
  pose proof (Zdigits2_lt_pow m Hm) as H.
  rewrite Z.pow_add_r by lia. lia.
Qed.

Lemma Zdigits2_ge_pow (m : Z) : 0 < m -> 2 ^ (Zdigits2 m - 1) <= m.
Proof.
  intros Hm. rewrite Zdigits2_log2 by assumption.
  replace (Z.log2 m + 1 - 1) with (Z.log2 m) by lia.
  apply Z.log2_spec. assumption.
Qed.

(** Shifting out zero bits leaves the location exact. *)
Lemma shr_1_exact (q : Z) :
  0 <= q ->
  shr_1 {| shr_m := 2 * q; shr_r := false; shr_s := false |}
  = {| shr_m := q; shr_r := false; shr_s := false |}.
Proof. intros H. destruct q as [|p|p]; [reflexivity | reflexivity | lia]. Qed.

Lemma iter_pos_shr_1_exact (p : positive) (q : Z) :
  0 <= q ->
  iter_pos shr_1 p {| shr_m := q * 2 ^ Zpos p; shr_r := false; shr_s := false |}
  = {| shr_m := q; shr_r := false; shr_s := false |}.
Proof.
  revert q. induction p as [p IH|p IH|]; intros q Hq; cbn [iter_pos].
  - assert (H : 0 < 2 ^ Zpos p) by (apply Z.pow_pos_nonneg; lia).
    assert (E : 2 ^ Zpos p~1 = 2 * (2 ^ Zpos p * 2 ^ Zpos p)).
    { replace (Zpos p~1) with (1 + (Zpos p + Zpos p)) by lia.
      rewrite Z.pow_add_r by lia. rewrite (Z.pow_add_r 2 (Zpos p)) by lia.
      reflexivity. }
    rewrite E.
    replace (q * (2 * (2 ^ Zpos p * 2 ^ Zpos p)))
      with (2 * ((q * 2 ^ Zpos p) * 2 ^ Zpos p)) by ring.
    rewrite shr_1_exact by nia. rewrite IH by nia. now apply IH.
  - assert (H : 0 < 2 ^ Zpos p) by (apply Z.pow_pos_nonneg; lia).
    assert (E : 2 ^ Zpos p~0 = 2 ^ Zpos p * 2 ^ Zpos p).
    { replace (Zpos p~0) with (Zpos p + Zpos p) by lia.
      apply Z.pow_add_r; lia. }
    rewrite E.
    replace (q * (2 ^ Zpos p * 2 ^ Zpos p))
      with ((q * 2 ^ Zpos p) * 2 ^ Zpos p) by ring.
    rewrite IH by nia. now apply IH.
  - replace (q * 2 ^ 1) with (2 * q) by lia. now apply shr_1_exact.
Qed.

(** A mantissa of full width followed by [n] zero bits is kept. *)
Lemma binary_round_aux_exact_shr (s : bool) (P : positive) (E n : Z) :
  Zpos (digits2_pos P) = prec -> 0 <= n -> -1074 <= E + n <= 971 ->
  binary_round_aux prec emax s (Zpos P * 2 ^ n) E loc_Exact
  = S754_finite s P (E + n).
Proof.
  intros Hd Hn He.
  destruct (Z.eq_dec n 0) as [->|Hn0].
  { rewrite Z.pow_0_r, Z.mul_1_r, Z.add_0_r.
    apply binary_round_aux_exact; [assumption | lia]. }
  unfold binary_round_aux.
  assert (E1 : shr_fexp prec emax (Zpos P * 2 ^ n) E loc_Exact =
               ({| shr_m := Zpos P; shr_r := false; shr_s := false |}, E + n)).
  { unfold shr_fexp. rewrite Zdigits2_mul_pow2 by lia.
    cbn [Zdigits2]. rewrite Hd.
    replace (fexp prec emax (prec + n + E) - E) with n
      by (unfold fexp, SpecFloat.emin, emax, prec; lia).
    destruct n as [|p|p]; try lia.
    cbn [shr shr_record_of_loc]. now rewrite iter_pos_shr_1_exact. }
  rewrite E1. cbn [shr_m loc_of_shr_record round_nearest_even].
  assert (E2 : shr_fexp prec emax (Zpos P) (E + n) loc_Exact =
               ({| shr_m := Zpos P; shr_r := false; shr_s := false |}, E + n)).
  { unfold shr_fexp. cbn [Zdigits2]. rewrite Hd.
    replace (fexp prec emax (prec + (E + n)) - (E + n)) with 0
      by (unfold fexp, SpecFloat.emin, emax, prec; lia).
    reflexivity. }
  rewrite E2. cbn [shr_m].
  replace (E + n <=? emax - prec) with true; [reflexivity|].
  symmetry. apply Z.leb_le. unfold emax, prec. lia.
Qed.

Lemma Pos_iter_xO (m d : positive) :
  Zpos (Pos.iter xO m d) = Zpos m * 2 ^ Zpos d.
Proof.
  induction d as [|d IH] using Pos.peano_ind.
  - cbn [Pos.iter]. rewrite Pos2Z.inj_xO. lia.
  - rewrite Pos.iter_succ, Pos2Z.inj_xO, IH, Pos2Z.inj_succ, Z.pow_succ_r by lia.
    ring.
Qed.

Lemma shl_align_value (mx : positive) (ex ez : Z) :
  ez <= ex ->
  shl_align mx ex ez = (Z.to_pos (Zpos mx * 2 ^ (ex - ez)), ez).
Proof.
  intros H. unfold shl_align.
  destruct (ez - ex) as [|d|d] eqn:E; try lia.
  - replace (ex - ez) with 0 by lia. rewrite Z.pow_0_r, Z.mul_1_r.
    cbn. f_equal. lia.
  - replace (ex - ez) with (Zpos d) by lia.
    rewrite <- Pos_iter_xO. now rewrite Pos2Z.id.
Qed.

Lemma shl_align_keep (mx : positive) (ex ez : Z) :
  ex <= ez -> shl_align mx ex ez = (mx, ex).
Proof.
  intros H. unfold shl_align. destruct (ez - ex) as [|d|d] eqn:E; try lia; reflexivity.
Qed.

(** The two ways in which [binary_round] is exact: the mantissa is padded
    to full width, or its low bits are zero. *)
Lemma binary_round_exact (s : bool) (M P : positive) (E e' : Z) :
  Zpos (digits2_pos P) = prec -> -1074 <= e' <= 971 ->
  (E <= e' /\ Zpos M = Zpos P * 2 ^ (e' - E)) \/
  (e' <= E /\ Zpos P = Zpos M * 2 ^ (E - e')) ->
  binary_round prec emax s M E = S754_finite s P e'.
Proof.
  intros Hd He H. unfold binary_round.
  change (Zpos (digits2_pos M)) with (Zdigits2 (Zpos M)).
  change (Zpos (digits2_pos P)) with (Zdigits2 (Zpos P)) in Hd.
  destruct H as [[HE HM]|[HE HP]].
  - assert (Hf : fexp prec emax (Zdigits2 (Zpos M) + E) = e').
    { rewrite HM, Zdigits2_mul_pow2, Hd by lia.
      unfold fexp, SpecFloat.emin, emax, prec. lia. }
    rewrite Hf, shl_align_keep by assumption. rewrite HM.
    replace e' with (E + (e' - E)) at 2 by lia.
    apply binary_round_aux_exact_shr; [assumption | lia | lia].
  - assert (Hf : fexp prec emax (Zdigits2 (Zpos M) + E) = e').
    { assert (Zdigits2 (Zpos P) = Zdigits2 (Zpos M) + (E - e'))
        by (rewrite HP; apply Zdigits2_mul_pow2; lia).
      unfold fexp, SpecFloat.emin, emax, prec in *. lia. }
    rewrite Hf, shl_align_value by assumption. rewrite <- HP, Pos2Z.id.
    apply binary_round_aux_exact; [assumption | lia].
Qed.

(** The number that holds a non-zero integer below [2^53]. *)
Lemma binary_normalize_shift (c j : Z) :
  c <> 0 -> Z.abs c < 2 ^ prec -> 0 <= j ->
  binary_normalize prec emax (c * 2 ^ j) (- j) false =
  S754_finite (c <? 0)
    (Z.to_pos (Z.abs c * 2 ^ (prec - Zdigits2 (Z.abs c))))
    (Zdigits2 (Z.abs c) - prec).
Proof.
  intros Hc Hlt Hj.
  assert (HP : 0 < 2 ^ j) by (apply Z.pow_pos_nonneg; lia).
  assert (Hd : 1 <= Zdigits2 (Z.abs c) <= prec).
  { split.
    - rewrite Zdigits2_log2 by lia. pose proof (Z.log2_nonneg (Z.abs c)). lia.
    - apply Zdigits2_le_of_lt_pow; [unfold prec; lia | lia]. }
  set (d := Zdigits2 (Z.abs c)) in *.
  assert (HQ : 0 < 2 ^ (prec - d)) by (apply Z.pow_pos_nonneg; lia).
  assert (HPd : Zdigits2 (Z.abs c * 2 ^ (prec - d)) = prec).
  { rewrite Zdigits2_mul_pow2 by lia. fold d. lia. }
  assert (Hgoal : forall s (M : positive),
            Zpos M = Z.abs c * 2 ^ j ->
            binary_round prec emax s M (- j) =
            S754_finite s (Z.to_pos (Z.abs c * 2 ^ (prec - d))) (d - prec)).
  { intros s M HM. apply binary_round_exact.
    - change (Zpos (digits2_pos (Z.to_pos (Z.abs c * 2 ^ (prec - d)))))
        with (Zdigits2 (Zpos (Z.to_pos (Z.abs c * 2 ^ (prec - d))))).
      now rewrite Z2Pos.id by nia.
    - unfold prec in *. lia.
    - rewrite Z2Pos.id by nia. rewrite HM.
      destruct (Z.le_gt_cases (- j) (d - prec)) as [H|H].
      + left. split; [assumption|].
        rewrite <- Z.mul_assoc, <- Z.pow_add_r by lia. do 2 f_equal. lia.
      + right. split; [lia|].
        rewrite <- Z.mul_assoc, <- Z.pow_add_r by lia. do 2 f_equal. lia. }
  destruct c as [|p|p]; [congruence | |].
  - cbn [Z.abs] in *. replace (Zpos p <? 0) with false by reflexivity.
    destruct (Zpos p * 2 ^ j) as [|M|M] eqn:EM; try nia.
    cbn [binary_normalize]. now apply Hgoal.
  - cbn [Z.abs] in *. replace (Zneg p <? 0) with true by reflexivity.
    destruct (Zneg p * 2 ^ j) as [|M|M] eqn:EM; try nia.
    cbn [binary_normalize]. apply Hgoal. lia.
Qed.

Lemma of_Z_form (c : Z) :
  c <> 0 -> Z.abs c < 2 ^ prec ->
  of_Z c = S754_finite (c <? 0)
             (Z.to_pos (Z.abs c * 2 ^ (prec - Zdigits2 (Z.abs c))))
             (Zdigits2 (Z.abs c) - prec).
Proof.
  intros Hc Hlt.
  pose proof (binary_normalize_shift c 0 Hc Hlt ltac:(lia)) as H.
  rewrite Z.pow_0_r, Z.mul_1_r in H. exact H.
Qed.

Lemma of_Z_shift (c j : Z) :
  Z.abs c < 2 ^ prec -> 0 <= j ->
  binary_normalize prec emax (c * 2 ^ j) (- j) false = of_Z c.
Proof.
  intros Hlt Hj. destruct (Z.eq_dec c 0) as [->|Hc]; [reflexivity|].
  rewrite binary_normalize_shift by assumption.
  now rewrite of_Z_form.
Qed.

Lemma of_Z_is_integer (z : Z) : Z.abs z < 2 ^ prec -> is_integer (of_Z z) z.
Proof.
  intros Hlt. destruct (Z.eq_dec z 0) as [->|Hz]; [reflexivity|].
  rewrite of_Z_form by assumption.
  assert (Hd : 1 <= Zdigits2 (Z.abs z) <= prec).
  { split.
    - rewrite Zdigits2_log2 by lia. pose proof (Z.log2_nonneg (Z.abs z)). lia.
    - apply Zdigits2_le_of_lt_pow; [unfold prec; lia | lia]. }
  set (d := Zdigits2 (Z.abs z)) in *.
  assert (HQ : 0 < 2 ^ (prec - d)) by (apply Z.pow_pos_nonneg; lia).
  cbn [is_integer]. rewrite Z2Pos.id by nia.
  destruct (Z.leb_spec 0 (d - prec)) as [H|H].
  - replace (d - prec) with 0 by lia. replace (prec - d) with 0 by lia.
    rewrite !Z.pow_0_r. destruct (Z.ltb_spec z 0); cbn [cond_Zopp]; lia.
  - replace (- (d - prec)) with (prec - d) by lia.
    destruct (Z.ltb_spec z 0); cbn [cond_Zopp]; nia.
Qed.

(** Adding an integer to a positive integer is exact. *)
Lemma add_of_Z_integer (a : Z) (y : number) (b : Z) :
  0 < a < 2 ^ prec -> is_integer y b -> Z.abs (a + b) < 2 ^ prec ->
  add (of_Z a) y = of_Z (a + b).
Proof.
  intros Ha Hy Hab.
  rewrite (of_Z_form a) by lia.
  replace (a <? 0) with false by (symmetry; apply Z.ltb_ge; lia).
  replace (Z.abs a) with a by lia.
  assert (Hd : 1 <= Zdigits2 a <= prec).
  { split.
    - rewrite Zdigits2_log2 by lia. pose proof (Z.log2_nonneg a). lia.
    - apply Zdigits2_le_of_lt_pow; [unfold prec; lia | lia]. }
  set (d := Zdigits2 a) in *.
  assert (HQ : 0 < 2 ^ (prec - d)) by (apply Z.pow_pos_nonneg; lia).
  destruct y as [sy|sy| |sy m e]; cbn [is_integer] in Hy; try contradiction.
  - subst b. rewrite Z.add_0_r. cbn [add SFadd].
    rewrite (of_Z_form a) by lia.
    replace (a <? 0) with false by (symmetry; apply Z.ltb_ge; lia).
    replace (Z.abs a) with a by lia. reflexivity.
  - unfold add, SFadd. cbv zeta.
    set (ez := Z.min (d - prec) e).
    assert (Hez : ez <= 0) by (subst ez; lia).
    rewrite (shl_align_value _ (d - prec) ez) by (subst ez; lia).
    rewrite (shl_align_value m e ez) by (subst ez; lia).
    cbn [fst]. rewrite Z2Pos.id by nia.
    assert (HA : 0 < 2 ^ (d - prec - ez))
      by (apply Z.pow_pos_nonneg; subst ez; lia).
    assert (HB : 0 < 2 ^ (e - ez))
      by (apply Z.pow_pos_nonneg; subst ez; lia).
    rewrite !Z2Pos.id by nia.
    cbn [cond_Zopp].
    assert (E1 : a * 2 ^ (prec - d) * 2 ^ (d - prec - ez) = a * 2 ^ (- ez)).
    { rewrite <- Z.mul_assoc, <- Z.pow_add_r by (subst ez; lia).
      do 2 f_equal. lia. }
    assert (E2 : cond_Zopp sy (Zpos m * 2 ^ (e - ez)) = b * 2 ^ (- ez)).
    { destruct (Z.leb_spec 0 e) as [He|He].
      - subst b. replace (- ez) with ((e - ez) - e) by lia.
        assert (0 < 2 ^ e) by (apply Z.pow_pos_nonneg; lia).
        replace (2 ^ (e - ez)) with (2 ^ e * 2 ^ (e - ez - e)).
        2: { rewrite <- Z.pow_add_r by (subst ez; lia). f_equal. lia. }
        destruct sy; cbn [cond_Zopp]; ring.
      - replace (2 ^ (- ez)) with (2 ^ (- e) * 2 ^ (e - ez)).
        2: { rewrite <- Z.pow_add_r by (subst ez; lia). f_equal. lia. }
        rewrite Z.mul_assoc, <- Hy.
        destruct sy; cbn [cond_Zopp]; ring. }
    rewrite E1, E2, <- Z.mul_add_distr_r.
    replace ez with (- (- ez)) at 2 by lia.
    apply of_Z_shift; [assumption | lia].
Qed.

(** Dividing a number of full width by 4 lowers its exponent by 2. *)
Lemma div_4_exact (s : bool) (P : positive) (e : Z) :
  Zpos (digits2_pos P) = prec -> -1071 <= e <= 973 ->
  div (S754_finite s P e) (of_Z 4) = S754_finite s P (e - 2).
Proof.
  intros Hd He.
  change (of_Z 4) with (S754_finite false 4503599627370496 (-50)).
  unfold div, SFdiv, SFdiv_core_binary. cbv zeta.
  change (Zdigits2 (Zpos P)) with (Zpos (digits2_pos P)). rewrite Hd.
  change (Zdigits2 4503599627370496) with 53.
  replace (Z.min (fexp prec emax (prec + e - (53 + -50))) (e - -50))
    with (e - 3) by (unfold fexp, SpecFloat.emin, emax, prec; lia).
  replace (e - -50 - (e - 3)) with 53 by lia.
  rewrite Z.shiftl_mul_pow2 by lia.
  assert (E : Z.div_eucl (Zpos P * 2 ^ 53) 4503599627370496
              = (Zpos P * 2 ^ 1, 0)).
  { pose proof (Z.div_eucl_eq (Zpos P * 2 ^ 53) 4503599627370496
                  ltac:(lia)) as H1.
    pose proof (Z.mod_pos_bound (Zpos P * 2 ^ 53) 4503599627370496
                  ltac:(lia)) as H2.
    unfold Z.modulo in H2.
    destruct (Z.div_eucl (Zpos P * 2 ^ 53) 4503599627370496) as [q r].
    change (2 ^ 53) with 9007199254740992 in *. change (2 ^ 1) with 2.
    f_equal; lia. }
  rewrite E. cbn [xorb].
  replace (xorb s false) with s by (destruct s; reflexivity).
  change (new_location 4503599627370496 0) with loc_Exact.
  replace (e - 2) with (e - 3 + 1) by lia.
  apply binary_round_aux_exact_shr; [assumption | lia | lia].
Qed.

(** The mean of four integers whose sum is [t], rounded: the integer [n]
    with [n - 1/2 <= t/4 < n + 1/2]. *)
Lemma round_quarter_integer (t : Z) :
  Z.abs t < 2 ^ prec ->
  exists n, (4 * n - 2 <= t < 4 * n + 2) /\
            is_integer (Math_round (div (of_Z t) (of_Z 4))) n.
Proof.
  intros Ht. exists ((t + 2) / 4). split.
  { pose proof (Z.div_mod (t + 2) 4 ltac:(lia)).
    pose proof (Z.mod_pos_bound (t + 2) 4 ltac:(lia)). lia. }
  destruct (Z.eq_dec t 0) as [->|H0]; [reflexivity|].
  rewrite (of_Z_form t) by assumption.
  assert (Hd : 1 <= Zdigits2 (Z.abs t) <= prec).
  { split.
    - rewrite Zdigits2_log2 by lia. pose proof (Z.log2_nonneg (Z.abs t)). lia.
    - apply Zdigits2_le_of_lt_pow; [unfold prec; lia | lia]. }
  set (d := Zdigits2 (Z.abs t)) in *.
  assert (HQ : 0 < 2 ^ (prec - d)) by (apply Z.pow_pos_nonneg; lia).
  assert (HPd : Zdigits2 (Z.abs t * 2 ^ (prec - d)) = prec).
  { rewrite Zdigits2_mul_pow2 by lia. fold d. lia. }
  rewrite div_4_exact.
  2: { change (Zpos (digits2_pos (Z.to_pos (Z.abs t * 2 ^ (prec - d)))))
         with (Zdigits2 (Zpos (Z.to_pos (Z.abs t * 2 ^ (prec - d))))).
       now rewrite Z2Pos.id by nia. }
  2: unfold prec in *; lia.
  cbn [Math_round].
  replace (0 <=? d - prec - 2) with false
    by (symmetry; apply Z.leb_gt; unfold prec in *; lia).
  cbv zeta. rewrite Z2Pos.id by nia.
  remember (- (d - prec - 2)) as k eqn:Ek.
  assert (Hk : 2 <= k) by (unfold prec in *; lia).
  assert (Hpk : prec - d = k - 2) by lia. rewrite Hpk in *.
  assert (HK : 0 < 2 ^ (k - 2)) by (apply Z.pow_pos_nonneg; lia).
  assert (E1 : 2 ^ k = 4 * 2 ^ (k - 2)).
  { replace k with (2 + (k - 2)) at 1 by lia.
    now rewrite Z.pow_add_r by lia. }
  assert (E2 : 2 ^ (k + 1) = 8 * 2 ^ (k - 2)).
  { replace (k + 1) with (3 + (k - 2)) by lia.
    now rewrite Z.pow_add_r by lia. }
  assert (E3 : cond_Zopp (t <? 0) (2 * (Z.abs t * 2 ^ (k - 2)))
               = (2 * t) * 2 ^ (k - 2)).
  { destruct (Z.ltb_spec t 0); cbn [cond_Zopp]; nia. }
  rewrite Z.shiftr_div_pow2, E1, E2, E3 by lia.
  replace (2 * t * 2 ^ (k - 2) + 4 * 2 ^ (k - 2))
    with ((2 * (t + 2)) * 2 ^ (k - 2)) by ring.
  rewrite Z.div_mul_cancel_r by lia.
  replace 8 with (2 * 4) by reflexivity.
  rewrite Z.div_mul_cancel_l by lia.
  destruct ((t + 2) / 4 =? 0) eqn:En.
  - apply Z.eqb_eq in En. rewrite En. reflexivity.
  - apply of_Z_is_integer.
    assert (- 2 ^ prec < (t + 2) / 4 < 2 ^ prec); [|lia].
    change (2 ^ prec) with 9007199254740992 in *.
    pose proof (Z.div_mod (t + 2) 4 ltac:(lia)).
    pose proof (Z.mod_pos_bound (t + 2) 4 ltac:(lia)). lia.
Qed.

(** [Math.round] gives the nearest integer, a tie going up. *)
Lemma Math_round_nearest (y : number) :
  bounded_mantissa y -> not_nan y -> not_infinite y ->
  exists n, nearest_integer y n /\ is_integer (Math_round y) n.
Proof.
  destruct y as [s|s| |s m e]; cbn [bounded_mantissa not_infinite];
    intros Hb Hn Hi; try contradiction.
  - exists 0. split; reflexivity.
  - cbn [Math_round nearest_integer].
    destruct (Z.leb_spec 0 e) as [He|He].
    + exists (cond_Zopp s (Zpos m * 2 ^ e)). split; [reflexivity|].
      cbn [is_integer]. replace (0 <=? e) with true; [reflexivity|].
      symmetry. now apply Z.leb_le.
    + cbv zeta. remember (- e) as k eqn:Ek.
      assert (Hk : 1 <= k) by lia.
      assert (HK : 0 < 2 ^ k) by (apply Z.pow_pos_nonneg; lia).
      assert (E2 : 2 ^ (k + 1) = 2 * 2 ^ k)
        by (rewrite Z.pow_add_r by lia; lia).
      rewrite Z.shiftr_div_pow2, E2 by lia.
      remember ((cond_Zopp s (2 * Zpos m) + 2 ^ k) / (2 * 2 ^ k)) as n eqn:En.
      pose proof (Z.div_mod (cond_Zopp s (2 * Zpos m) + 2 ^ k) (2 * 2 ^ k)
                    ltac:(lia)) as H1.
      pose proof (Z.mod_pos_bound (cond_Zopp s (2 * Zpos m) + 2 ^ k)
                    (2 * 2 ^ k) ltac:(lia)) as H2.
      rewrite <- En in H1.
      assert (E3 : 2 * cond_Zopp s (Zpos m) = cond_Zopp s (2 * Zpos m))
        by (destruct s; cbn [cond_Zopp]; lia).
      exists n. split.
      * rewrite E3. nia.
      * destruct (n =? 0) eqn:En0.
        -- apply Z.eqb_eq in En0. now rewrite En0.
        -- apply of_Z_is_integer.
           assert (H2k : 2 <= 2 ^ k).
           { change 2 with (2 ^ 1) at 1. apply Z.pow_le_mono_r; lia. }
           assert (Hm : Z.abs (cond_Zopp s (2 * Zpos m)) < 2 * 2 ^ prec)
             by (destruct s; cbn [cond_Zopp]; lia).
           change (2 ^ prec) with 9007199254740992 in *. nia.
Qed.

End ExactFacts.

(** ** Magnitudes *)

Section MagnitudeFacts.

Lemma mag_le_mono (p p' : Z) (x : number) :
  p <= p' -> mag_le p x -> mag_le p' x.
Proof. destruct x; cbn [mag_le]; intros; try assumption; lia. Qed.

Lemma Zdigits2_pos (m : Z) : 0 < m -> 1 <= Zdigits2 m.
Proof.
  intros H. rewrite Zdigits2_log2 by assumption.
  pose proof (Z.log2_nonneg m). lia.
Qed.

Lemma binary_round_aux_mag (s : bool) (M E : Z) (l : location) (p : Z) :
  0 <= M -> Zdigits2 M + E <= p -> E <= 970 -> -1074 <= p <= 1000 ->
  mag_le (p + 1) (binary_round_aux prec emax s M E l).
Proof.
  intros HM Hd HE Hp. unfold binary_round_aux.
  pose proof (shr_fexp_spec M E l HM) as [S1 E1]. cbv zeta in S1, E1.
  destruct (shr_fexp prec emax M E l) as [mrs' e']. cbn [fst snd] in *.
  pose proof (round_nearest_even_range (shr_m mrs') (loc_of_shr_record mrs'))
    as H2.
  set (m2 := round_nearest_even (shr_m mrs') (loc_of_shr_record mrs')) in *.
  set (n1 := Z.max 0 (fexp prec emax (Zdigits2 M + E) - E)) in *.
  assert (Hn1 : 0 <= n1) by (subst n1; lia).
  assert (Hm1 : 0 <= shr_m mrs') by (rewrite S1; now apply Z.shiftr_nonneg).
  assert (Hm2 : 0 <= m2) by lia.
  pose proof (Zdigits2_nonneg M) as HdM.
  assert (Hd1 : Zdigits2 (shr_m mrs') + e' <= p).
  { destruct (Z.eq_dec (shr_m mrs') 0) as [E0|N0].
    - rewrite E0. cbn [Zdigits2]. subst e' n1.
      unfold fexp, SpecFloat.emin, emax, prec in *. lia.
    - rewrite S1 in *. rewrite Zdigits2_shiftr by lia. lia. }
  assert (Hd2 : Zdigits2 m2 + e' <= p + 1).
  { assert (Zdigits2 m2 <= Zdigits2 (shr_m mrs') + 1); [|lia].
    apply Z.le_trans with (Zdigits2 (shr_m mrs' + 1)).
    - apply Zdigits2_mono. lia.
    - now apply Zdigits2_succ. }
  pose proof (shr_fexp_spec m2 e' loc_Exact Hm2) as [S2 E2].
  cbv zeta in S2, E2.
  destruct (shr_fexp prec emax m2 e' loc_Exact) as [mrs'' e'']. cbn [fst snd] in *.
  set (n2 := Z.max 0 (fexp prec emax (Zdigits2 m2 + e') - e')) in *.
  assert (Hn2 : 0 <= n2) by (subst n2; lia).
  destruct (shr_m mrs'') as [|m|m] eqn:Em; [exact I | |].
  - assert (He'' : e'' <= emax - prec).
    { subst e'' e' n1 n2. unfold fexp, SpecFloat.emin, emax, prec in *. lia. }
    apply Z.leb_le in He''. rewrite He''. cbn [mag_le].
    rewrite S2. rewrite Zdigits2_shiftr by lia. lia.
  - exfalso. pose proof (Z.shiftr_nonneg m2 n2). lia.
Qed.

Lemma binary_round_mag (s : bool) (m : positive) (E p : Z) :
  Zdigits2 (Zpos m) + E <= p -> -1074 <= p <= 1000 ->
  mag_le (p + 1) (binary_round prec emax s m E).
Proof.
  intros Hd Hp. unfold binary_round.
  pose proof (shl_align_spec m E (fexp prec emax (Zpos (digits2_pos m) + E)))
    as [E1 E2]. cbv zeta in E1, E2.
  destruct (shl_align m E (fexp prec emax (Zpos (digits2_pos m) + E)))
    as [mz ez]. cbn [fst snd] in *.
  cbn [Zdigits2] in Hd.
  apply binary_round_aux_mag; [lia | cbn [Zdigits2]; lia | | assumption].
  subst ez. unfold fexp, SpecFloat.emin, emax, prec in *. lia.
Qed.

Lemma binary_normalize_mag (M E p : Z) :
  Zdigits2 (Z.abs M) + E <= p -> -1074 <= p <= 1000 ->
  mag_le (p + 1) (binary_normalize prec emax M E false).
Proof.
  intros Hd Hp. destruct M as [|m|m]; cbn [binary_normalize Z.abs] in *.
  - exact I.
  - now apply binary_round_mag.
  - now apply binary_round_mag.
Qed.

Lemma Zdigits2_shl_align (mx : positive) (ex ez : Z) :
  ez <= ex ->
  Zdigits2 (Zpos (fst (shl_align mx ex ez))) + ez = Zdigits2 (Zpos mx) + ex.
Proof.
  intros H. pose proof (shl_align_spec mx ex ez) as [E1 E2].
  cbv zeta in E1, E2. cbn [Zdigits2]. lia.
Qed.

Lemma sum_mag (sx sy : bool) (mx my : positive) (ex ey p : Z) (minus : bool) :
  Zdigits2 (Zpos mx) + ex <= p -> Zdigits2 (Zpos my) + ey <= p ->
  let ez := Z.min ex ey in
  let a := cond_Zopp sx (Zpos (fst (shl_align mx ex ez))) in
  let b := cond_Zopp sy (Zpos (fst (shl_align my ey ez))) in
  Zdigits2 (Z.abs (if minus then a - b else a + b)) + ez <= p + 1.
Proof.
  intros Hx Hy ez a b.
  pose proof (Zdigits2_shl_align mx ex ez ltac:(subst ez; lia)) as Dx.
  pose proof (Zdigits2_shl_align my ey ez ltac:(subst ez; lia)) as Dy.
  set (A := Zpos (fst (shl_align mx ex ez))) in *.
  set (B := Zpos (fst (shl_align my ey ez))) in *.
  assert (HA : 0 < A) by (subst A; lia).
  assert (HB : 0 < B) by (subst B; lia).
  pose proof (Zdigits2_lt_pow A ltac:(lia)) as LA.
  pose proof (Zdigits2_lt_pow B ltac:(lia)) as LB.
  pose proof (Zdigits2_pos A HA) as PA.
  pose proof (Zdigits2_pos B HB) as PB.
  assert (Hk : 0 <= p - ez) by lia.
  assert (LA' : A < 2 ^ (p - ez)).
  { apply Z.lt_le_trans with (2 ^ Zdigits2 A); [assumption|].
    apply Z.pow_le_mono_r; lia. }
  assert (LB' : B < 2 ^ (p - ez)).
  { apply Z.lt_le_trans with (2 ^ Zdigits2 B); [assumption|].
    apply Z.pow_le_mono_r; lia. }
  assert (Z.abs (if minus then a - b else a + b) < 2 ^ (p - ez + 1)).
  { rewrite Z.pow_add_r by lia. subst a b.
    destruct minus, sx, sy; cbn [cond_Zopp]; lia. }
  assert (Zdigits2 (Z.abs (if minus then a - b else a + b)) <= p - ez + 1);
    [|lia].
  apply Zdigits2_le_of_lt_pow; lia.
Qed.

Lemma sub_mag (p : Z) (x y : number) :
  -1074 <= p <= 990 -> mag_le p x -> mag_le p y -> mag_le (p + 2) (sub x y).
Proof.
  intros Hp Hx Hy.
  destruct x as [sx|sx| |sx mx ex]; cbn [mag_le] in Hx; try contradiction;
    destruct y as [sy|sy| |sy my ey]; cbn [mag_le] in Hy; try contradiction.
  - destruct sx, sy; exact I.
  - unfold sub, SFsub. cbn [mag_le]. lia.
  - unfold sub, SFsub. cbn [mag_le]. lia.
  - unfold sub, SFsub. cbv zeta.
    replace (p + 2) with (p + 1 + 1) by lia.
    apply binary_normalize_mag; [|lia].
    apply (sum_mag sx sy mx my ex ey p true); assumption.
Qed.

Lemma mul_mag (p q : Z) (x y : number) :
  -500 <= p <= 450 -> -500 <= q <= 450 ->
  mag_le p x -> mag_le q y -> mag_le (p + q + 1) (mul x y).
Proof.
  intros Hp Hq Hx Hy.
  destruct x as [sx|sx| |sx mx ex]; cbn [mag_le] in Hx; try contradiction;
    destruct y as [sy|sy| |sy my ey]; cbn [mag_le] in Hy; try contradiction;
    try exact I.
  unfold mul, SFmul.
  pose proof (Zdigits2_pos (Zpos mx) ltac:(lia)) as Px.
  pose proof (Zdigits2_pos (Zpos my) ltac:(lia)) as Py.
  apply binary_round_aux_mag; [lia | | lia | lia].
  assert (Zdigits2 (Zpos (mx * my)) <= Zdigits2 (Zpos mx) + Zdigits2 (Zpos my));
    [|lia].
  apply Zdigits2_le_of_lt_pow; [lia|].
  pose proof (Zdigits2_lt_pow (Zpos mx) ltac:(lia)).
  pose proof (Zdigits2_lt_pow (Zpos my) ltac:(lia)).
  rewrite Z.pow_add_r by lia. rewrite Pos2Z.inj_mul. nia.
Qed.

Lemma abs_mag (p : Z) (x : number) : mag_le p x -> mag_le p (abs x).
Proof. destruct x; cbn; auto. Qed.

Lemma SFdiv_core_binary_mag (m1 m2 : positive) (e1 e2 P : Z) :
  Zdigits2 (Zpos m1) + e1 - (Zdigits2 (Zpos m2) + e2) + 1 <= P ->
  -1074 <= P <= 1000 ->
  let '(q, e', l) := SFdiv_core_binary prec emax (Zpos m1) e1 (Zpos m2) e2 in
  0 <= q /\ Zdigits2 q + e' <= P /\ e' <= 970.
Proof.
  intros HD HP. unfold SFdiv_core_binary.
  set (d1 := Zdigits2 (Zpos m1)) in *. set (d2 := Zdigits2 (Zpos m2)) in *.
  set (e' := Z.min (fexp prec emax (d1 + e1 - (d2 + e2))) (e1 - e2)).
  set (s := e1 - e2 - e').
  assert (Hs : 0 <= s) by (subst s e'; lia).
  assert (He' : e' <= P /\ e' <= 970).
  { subst e'. unfold fexp, SpecFloat.emin, emax, prec. lia. }
  set (m' := match s with
             | 0 => Zpos m1
             | Zpos _ => Z.shiftl (Zpos m1) s
             | Zneg _ => 0
             end).
  assert (Hm' : m' = Zpos m1 * 2 ^ s).
  { subst m'. clearbody s. destruct s as [|k|k]; [| |lia].
    - change (2 ^ 0) with 1. lia.
    - now rewrite Z.shiftl_mul_pow2 by lia. }
  assert (HS : 0 < 2 ^ s) by (apply Z.pow_pos_nonneg; lia).
  pose proof (Z_div_mod m' (Zpos m2) ltac:(lia)) as H.
  destruct (Z.div_eucl m' (Zpos m2)) as [q r]. destruct H as [H1 H2].
  assert (Hq : 0 <= q) by nia.
  split; [assumption|]. split; [|apply He'].
  destruct (Z.eq_dec q 0) as [->|Hq0]; [cbn [Zdigits2]; lia|].
  pose proof (Zdigits2_ge_pow q ltac:(lia)) as Lq.
  pose proof (Zdigits2_ge_pow (Zpos m2) ltac:(lia)) as L2. fold d2 in L2.
  pose proof (Zdigits2_lt_pow (Zpos m1) ltac:(lia)) as U1. fold d1 in U1.
  pose proof (Zdigits2_pos q ltac:(lia)) as Pq.
  pose proof (Zdigits2_pos (Zpos m2) ltac:(lia)) as P2. fold d2 in P2.
  pose proof (Zdigits2_pos (Zpos m1) ltac:(lia)) as P1. fold d1 in P1.
  assert (HL : 2 ^ (Zdigits2 q - 1 + (d2 - 1)) < 2 ^ (d1 + s)).
  { rewrite !Z.pow_add_r by lia.
    assert (0 < 2 ^ (Zdigits2 q - 1)) by (apply Z.pow_pos_nonneg; lia).
    assert (0 < 2 ^ (d2 - 1)) by (apply Z.pow_pos_nonneg; lia).
    apply Z.le_lt_trans with (q * Zpos m2); [nia|].
    apply Z.le_lt_trans with m'; [lia|]. rewrite Hm'. nia. }
  apply Z.pow_lt_mono_r_iff in HL; [|lia|lia].
  subst s. lia.
Qed.

Lemma div_mag (p q : Z) (x y : number) (sy : bool) (my : positive) (ey : Z) :
  -400 <= p <= 400 -> -400 <= q <= 400 ->
  mag_le p x -> y = S754_finite sy my ey -> q <= Zdigits2 (Zpos my) + ey ->
  mag_le (p - q + 2) (div x y).
Proof.
  intros Hp Hq Hx -> Hy.
  destruct x as [sx|sx| |sx mx ex]; cbn [mag_le] in Hx; try contradiction.
  - exact I.
  - unfold div, SFdiv.
    assert (HD : Zdigits2 (Zpos mx) + ex - (Zdigits2 (Zpos my) + ey) + 1
                 <= p - q + 1) by lia.
    assert (HP : -1074 <= p - q + 1 <= 1000) by lia.
    pose proof (SFdiv_core_binary_mag mx my ex ey (p - q + 1) HD HP) as H.
    destruct (SFdiv_core_binary prec emax (Zpos mx) ex (Zpos my) ey)
      as [[mz ez] lz].
    destruct H as [H0 [H1 H2]].
    replace (p - q + 2) with (p - q + 1 + 1) by lia.
    apply binary_round_aux_mag; [assumption | assumption | assumption | lia].
Qed.

Lemma of_Z_mag (z L : Z) :
  Z.abs z < 2 ^ L -> 0 <= L <= prec -> mag_le L (of_Z z).
Proof.
  intros Hz HL. destruct (Z.eq_dec z 0) as [->|H0]; [exact I|].
  assert (Hlt : Z.abs z < 2 ^ prec).
  { apply Z.lt_le_trans with (2 ^ L); [assumption|].
    apply Z.pow_le_mono_r; lia. }
  rewrite of_Z_form by assumption. cbn [mag_le].
  assert (Hd : 1 <= Zdigits2 (Z.abs z) <= L).
  { split; [apply Zdigits2_pos; lia|].
    apply Zdigits2_le_of_lt_pow; lia. }
  assert (HQ : 0 < 2 ^ (prec - Zdigits2 (Z.abs z)))
    by (apply Z.pow_pos_nonneg; lia).
  rewrite Z2Pos.id by nia. rewrite Zdigits2_mul_pow2 by lia. lia.
Qed.

Lemma of_Z_finite_mag (z : Z) :
  0 < z < 2 ^ prec ->
  exists m e, of_Z z = S754_finite false m e /\ 1 <= Zdigits2 (Zpos m) + e.
Proof.
  intros Hz. rewrite of_Z_form by lia.
  replace (z <? 0) with false by (symmetry; apply Z.ltb_ge; lia).
  replace (Z.abs z) with z by lia.
  assert (Hd : 1 <= Zdigits2 z <= prec).
  { split; [apply Zdigits2_pos; lia|].
    apply Zdigits2_le_of_lt_pow; [unfold prec|]; lia. }
  assert (HQ : 0 < 2 ^ (prec - Zdigits2 z)) by (apply Z.pow_pos_nonneg; lia).
  eexists. eexists. split; [reflexivity|].
  rewrite Z2Pos.id by nia. rewrite Zdigits2_mul_pow2 by lia. lia.
Qed.

Lemma Math_min_mag (p : Z) (x y : number) :
  mag_le p x -> mag_le p y -> mag_le p (Math_min x y).
Proof.
  intros Hx Hy. unfold Math_min.
  destruct x as [[]|[]| |sx mx ex]; cbn [mag_le] in Hx; try contradiction;
    destruct y as [[]|[]| |sy my ey]; cbn [mag_le] in Hy; try contradiction;
    try exact I;
    match goal with
    | |- context [if ?c then _ else _] => destruct c
    end; cbn [mag_le]; auto.
Qed.

(** The raw readability score of a text of fewer than [2^32] words with a
    sentence is finite and below [2^42] in magnitude. *)
Lemma readability_formula_mag (w s c : nat) :
  (0 < w)%nat -> (0 < s)%nat -> (c <= w)%nat ->
  Z.of_nat w < 2 ^ 32 -> Z.of_nat s < 2 ^ 32 ->
  mag_le 42 (readability_formula w s c).
Proof.
  intros Hw0 Hs0 Hc Hw Hs.
  change (2 ^ 32) with 4294967296 in *.
  assert (B53 : 4294967296 < 2 ^ prec) by reflexivity.
  destruct (of_Z_finite_mag (Z.of_nat w) ltac:(lia)) as [mw [ew [Ew Mw]]].
  destruct (of_Z_finite_mag (Z.of_nat s) ltac:(lia)) as [ms [es [Es Ms]]].
  assert (HW : mag_le 32 (of_nat w))
    by (apply of_Z_mag; [change (2 ^ 32) with 4294967296; lia | unfold prec; lia]).
  assert (HC : mag_le 32 (of_nat c))
    by (apply of_Z_mag; [change (2 ^ 32) with 4294967296; lia | unfold prec; lia]).
  assert (H15 : mag_le 33 (of_Z 15))
    by (apply of_Z_mag; [change (2 ^ 33) with 8589934592; lia | unfold prec; lia]).
  assert (H2 : mag_le 2 (of_Z 2))
    by (apply of_Z_mag; [change (2 ^ 2) with 4; lia | unfold prec; lia]).
  assert (H100 : mag_le 38 (of_Z 100))
    by (apply of_Z_mag; [change (2 ^ 38) with 274877906944; lia | unfold prec; lia]).
  assert (H50 : mag_le 6 (of_Z 50))
    by (apply of_Z_mag; [change (2 ^ 6) with 64; lia | unfold prec; lia]).
  unfold readability_formula.
  assert (Ha : mag_le 33 (div (of_nat w) (of_nat s))).
  { replace 33 with (32 - 1 + 2) by lia.
    apply (div_mag 32 1 _ _ false ms es); [lia | lia | assumption | exact Es | assumption]. }
  assert (Hu : mag_le 38
                 (mul (abs (sub (div (of_nat w) (of_nat s)) (of_Z 15))) (of_Z 2))).
  { replace 38 with (35 + 2 + 1) by lia.
    apply mul_mag; [lia | lia | | assumption].
    apply abs_mag. replace 35 with (33 + 2) by lia.
    apply sub_mag; [lia | assumption | assumption]. }
  assert (Ht : mag_le 40
                 (sub (of_Z 100)
                      (mul (abs (sub (div (of_nat w) (of_nat s)) (of_Z 15)))
                           (of_Z 2)))).
  { replace 40 with (38 + 2) by lia.
    apply sub_mag; [lia | assumption | assumption]. }
  assert (Hb : mag_le 40 (mul (div (of_nat c) (of_nat w)) (of_Z 50))).
  { replace 40 with (33 + 6 + 1) by lia.
    apply mul_mag; [lia | lia | | assumption].
    replace 33 with (32 - 1 + 2) by lia.
    apply (div_mag 32 1 _ _ false mw ew); [lia | lia | assumption | exact Ew | assumption]. }
  replace 42 with (40 + 2) by lia.
  apply sub_mag; [lia | assumption | assumption].
Qed.

Lemma mag_le_finite (p : Z) (x : number) :
  mag_le p x -> not_nan x /\ not_infinite x.
Proof.
  destruct x; cbn [mag_le not_infinite]; intros H; try contradiction;
    split; try exact I; discriminate.
Qed.

(** The integer nearest to a number below [2^p] in magnitude is at most
    [2^p] in magnitude. *)
Lemma nearest_integer_bound (p : Z) (y : number) (n : Z) :
  0 <= p -> mag_le p y -> nearest_integer y n -> Z.abs n <= 2 ^ p.
Proof.
  intros Hp Hm Hn.
  assert (HP : 0 < 2 ^ p) by (apply Z.pow_pos_nonneg; lia).
  destruct y as [s|s| |s m e]; cbn [mag_le nearest_integer] in *;
    try contradiction.
  - subst n. cbn. lia.
  - pose proof (Zdigits2_lt_pow (Zpos m) ltac:(lia)) as U.
    pose proof (Zdigits2_pos (Zpos m) ltac:(lia)) as P1.
    destruct (Z.leb_spec 0 e) as [He|He].
    + assert (HE : 0 < 2 ^ e) by (apply Z.pow_pos_nonneg; lia).
      assert (Zpos m * 2 ^ e < 2 ^ p).
      { apply Z.lt_le_trans with (2 ^ (Zdigits2 (Zpos m) + e)).
        - rewrite Z.pow_add_r by lia. nia.
        - apply Z.pow_le_mono_r; lia. }
      subst n. destruct s; cbn [cond_Zopp]; lia.
    + remember (- e) as k eqn:Ek.
      assert (HK : 0 < 2 ^ k) by (apply Z.pow_pos_nonneg; lia).
      assert (Hmk : Zpos m < 2 ^ p * 2 ^ k).
      { rewrite <- Z.pow_add_r by lia.
        apply Z.lt_le_trans with (2 ^ Zdigits2 (Zpos m)); [assumption|].
        apply Z.pow_le_mono_r; lia. }
      destruct s; cbn [cond_Zopp] in Hn; nia.
Qed.

Lemma is_integer_unique (x : number) (a b : Z) :
  is_integer x a -> is_integer x b -> a = b.
Proof.
  destruct x as [s|s| |s m e]; cbn [is_integer]; try contradiction.
  - congruence.
  - destruct (0 <=? e) eqn:He; [congruence|].
    apply Z.leb_gt in He. intros Ha Hb.
    assert (0 < 2 ^ (- e)) by (apply Z.pow_pos_nonneg; lia). nia.
Qed.

End MagnitudeFacts.

(** ** The overall score is the rounded mean *)

Section OverallFacts.

Lemma strict_equal_refl (x : number) (z : Z) :
  is_integer x z -> strict_equal x x = true.
Proof.
  destruct x as [s|s| |s m e]; cbn [is_integer]; try contradiction; intros _.
  - reflexivity.
  - unfold strict_equal, SFeqb. cbn [SFcompare].
    rewrite Z.compare_refl.
    assert (E : Pos.compare_cont Eq m m = Eq) by apply Pos.compare_refl.
    rewrite E. destruct s; reflexivity.
Qed.

(** A raw score that rounds to the integer [v]. *)
Lemma rounded_score (raw : number) (v : Z) :
  bounded_mantissa raw -> not_nan raw -> not_infinite raw ->
  Math_round raw = of_Z v -> Z.abs v < 2 ^ prec ->
  is_integer (Math_round raw) v /\ nearest_integer raw v.
Proof.
  intros Hb Hn Hi E Hv.
  destruct (Math_round_nearest raw Hb Hn Hi) as [n [H1 H2]].
  assert (Hv' : is_integer (Math_round raw) v)
    by (rewrite E; now apply of_Z_is_integer).
  rewrite (is_integer_unique _ _ _ Hv' H2). split; assumption.
Qed.

Lemma keywordScore_mag (content : string) :
  mag_le 14 (keywordScore content) /\ bounded_mantissa (keywordScore content).
Proof.
  unfold keywordScore. change (List.length jobKeywords) with 27%nat.
  assert (Hn : (List.length (matchedKeywords_of content) <= 27)%nat)
    by apply (filter_length_le _ jobKeywords).
  split.
  - destruct (of_Z_finite_mag 27 ltac:(split; reflexivity)) as [m [e [E M]]].
    apply Math_min_mag.
    + replace 14 with (6 + 7 + 1) by lia.
      apply mul_mag; [lia | lia | |].
      * replace 6 with (5 - 1 + 2) by lia.
        apply (div_mag 5 1 _ _ false m e); [lia | lia | | exact E | assumption].
        apply of_Z_mag; [change (2 ^ 5) with 32; lia | unfold prec; lia].
      * apply of_Z_mag; [change (2 ^ 7) with 128; lia | unfold prec; lia].
    + apply of_Z_mag; [change (2 ^ 14) with 16384; lia | unfold prec; lia].
  - unfold of_nat.
    repeat first [ apply Math_min_bounded | apply mul_bounded
                 | apply div_bounded | apply of_Z_bounded ].
Qed.

Lemma grammarScore_mag (content : string) :
  mag_le 14 (grammarScore content) /\ bounded_mantissa (grammarScore content).
Proof.
  destruct (grammar_rounded_points content) as [Hn [E _]]. cbv zeta in *.
  rewrite E. split.
  - replace 14 with (12 + 2) by lia. apply sub_mag; [lia | |].
    + apply of_Z_mag; [change (2 ^ 12) with 4096; lia | unfold prec; lia].
    + replace 12 with (5 + 6 + 1) by lia.
      apply mul_mag; [lia | lia | |].
      * apply of_Z_mag; [change (2 ^ 5) with 32; lia | unfold prec; lia].
      * apply of_Z_mag; [change (2 ^ 6) with 64; lia | unfold prec; lia].
  - unfold of_nat.
    repeat first [ apply sub_bounded | apply mul_bounded | apply of_Z_bounded ].
Qed.

Lemma readabilityScore_mag (content : string) :
  (0 < List.length (sentences_of content))%nat ->
  Z.of_nat (String.length content) < 2 ^ 32 ->
  mag_le 42 (readabilityScore content) /\
  bounded_mantissa (readabilityScore content).
Proof.
  intros Hs Hlen.
  assert (Hw : (0 < List.length (words_of content))%nat).
  { apply not_blank_word.
    destruct (0 <? String.length (trim content))%nat eqn:E; [reflexivity|].
    destruct (blank_counts content E) as [_ [H _]]. lia. }
  pose proof (word_count_le content) as Hw1.
  pose proof (sentence_count_le content) as Hs1.
  pose proof (complex_count_le content) as Hc1.
  rewrite readabilityScore_formula. split.
  - apply Math_min_mag.
    + apply readability_formula_mag; try assumption; lia.
    + apply of_Z_mag; [change (2 ^ 42) with 4398046511104; lia | unfold prec; lia].
  - apply Math_min_bounded;
      [apply readability_formula_bounded | apply of_Z_bounded].
Qed.

Lemma formatting_eq (content : string) :
  formatting (breakdown_of content) = Math_round (formattingScore content).
Proof. reflexivity. Qed.

Lemma keywords_eq (content : string) :
  keywords (breakdown_of content) = Math_round (keywordScore content).
Proof. reflexivity. Qed.

Lemma grammar_eq (content : string) :
  grammar (breakdown_of content) = Math_round (grammarScore content).
Proof. reflexivity. Qed.

Lemma overall_mean4 (content : string) :
  overall (analyzeResume content) =
  Math_round
    (mean4 (formatting (breakdown (analyzeResume content)))
           (keywords (breakdown (analyzeResume content)))
           (grammar (breakdown (analyzeResume content)))
           (readability (breakdown (analyzeResume content)))).
Proof.
  unfold analyzeResume, breakdown_of, overall_of, mean4.
  cbn [overall breakdown formatting keywords grammar readability].
  reflexivity.
Qed.

End OverallFacts.

(** C1.  For a text with a sentence and fewer than [2^32] code units, each
    of the four sub-scores is an integer, the nearest to its raw score with a
    tie going up, and the overall score is the integer nearest to the mean of
    these four integers with a tie going up: the [n] with
    [n - 1/2 <= (f + k + g + d) / 4 < n + 1/2].  It is then strictly equal
    to the rounding of the mean as the source computes it. *)
Theorem overall_is_rounded_mean (content : string) :
  (0 < List.length (sentences_of content))%nat ->
  Z.of_nat (String.length content) < 2 ^ 32 ->
  let r := analyzeResume content in
  let b := breakdown r in
  exists f k g d n : Z,
    (is_integer (formatting b) f /\
     nearest_integer (formattingScore content) f) /\
    (is_integer (keywords b) k /\
     nearest_integer (keywordScore content) k) /\
    (is_integer (grammar b) g /\
     nearest_integer (grammarScore content) g) /\
    (is_integer (readability b) d /\
     nearest_integer (readabilityScore content) d) /\
    is_integer (overall r) n /\
    (4 * n - 2 <= f + k + g + d < 4 * n + 2) /\
    strict_equal (overall r)
      (Math_round
         (mean4 (formatting b) (keywords b) (grammar b) (readability b)))
    = true.
Proof.
  intros Hs Hlen. cbv zeta. rewrite <- (overall_mean4 content).
  rewrite breakdown_eq, overall_eq. unfold overall_of.
  rewrite formatting_eq, keywords_eq, grammar_eq, readability_eq.
  (* formatting *)
  pose proof (formatting_rounded_points content) as EF.
  rewrite breakdown_eq, formatting_eq in EF.
  pose proof (formatting_points_range content) as RF.
  pose proof (formattingScore_points content) as EF0.
  remember (formatting_points content) as f eqn:Ef. clear Ef.
  assert (HF : is_integer (Math_round (formattingScore content)) f /\
               nearest_integer (formattingScore content) f).
  { apply rounded_score.
    - rewrite EF0. apply of_Z_bounded.
    - rewrite EF0. apply binary_normalize_ok.
    - rewrite EF0. refine (proj2 (mag_le_finite 7 _ _)).
      apply of_Z_mag; [change (2 ^ 7) with 128; lia | unfold prec; lia].
    - exact EF.
    - change (2 ^ prec) with 9007199254740992. lia. }
  clear EF0.
  (* keywords *)
  destruct (keywords_rounded_points content) as [EK RK].
  rewrite breakdown_eq, keywords_eq in EK.
  remember (keyword_points (List.length (matchedKeywords_of content))) as k
    eqn:Ek. clear Ek.
  destruct (keywordScore_mag content) as [MK BK].
  assert (HK : is_integer (Math_round (keywordScore content)) k /\
               nearest_integer (keywordScore content) k).
  { apply rounded_score.
    - exact BK.
    - exact (proj1 (mag_le_finite _ _ MK)).
    - exact (proj2 (mag_le_finite _ _ MK)).
    - exact EK.
    - change (2 ^ prec) with 9007199254740992. lia. }
  clear MK BK.
  (* grammar *)
  destruct (grammar_rounded_points content) as [RG [_ EG]]. cbv zeta in *.
  rewrite breakdown_eq, grammar_eq in EG.
  remember (100 - 15 * Z.of_nat (List.length (grammarIssues_of content))) as g
    eqn:Eg.
  assert (RG' : 55 <= g <= 100) by lia. clear Eg RG.
  destruct (grammarScore_mag content) as [MG BG].
  assert (HG : is_integer (Math_round (grammarScore content)) g /\
               nearest_integer (grammarScore content) g).
  { apply rounded_score.
    - exact BG.
    - exact (proj1 (mag_le_finite _ _ MG)).
    - exact (proj2 (mag_le_finite _ _ MG)).
    - exact EG.
    - change (2 ^ prec) with 9007199254740992. lia. }
  clear MG BG.
  (* readability *)
  destruct (readabilityScore_mag content Hs Hlen) as [MR BR].
  destruct (Math_round_nearest (readabilityScore content) BR
              (proj1 (mag_le_finite _ _ MR)) (proj2 (mag_le_finite _ _ MR)))
    as [d [ND ID]].
  pose proof (nearest_integer_bound 42 _ d ltac:(lia) MR ND) as RD.
  change (2 ^ 42) with 4398046511104 in RD.
  clear MR BR.
  (* the mean *)
  rewrite EF, EK, EG.
  remember (Math_round (readabilityScore content)) as R eqn:ER.
  rewrite EF in HF. rewrite EK in HK. rewrite EG in HG.
  rewrite (add_of_Z_integer f (of_Z k) k).
  2: change (2 ^ prec) with 9007199254740992; lia.
  2: apply of_Z_is_integer; change (2 ^ prec) with 9007199254740992; lia.
  2: change (2 ^ prec) with 9007199254740992; lia.
  rewrite (add_of_Z_integer (f + k) (of_Z g) g).
  2: change (2 ^ prec) with 9007199254740992; lia.
  2: apply of_Z_is_integer; change (2 ^ prec) with 9007199254740992; lia.
  2: change (2 ^ prec) with 9007199254740992; lia.
  rewrite (add_of_Z_integer (f + k + g) R d).
  2: change (2 ^ prec) with 9007199254740992; lia.
  2: exact ID.
  2: change (2 ^ prec) with 9007199254740992; lia.
  destruct (round_quarter_integer (f + k + g + d)) as [n [Hn In]].
  { change (2 ^ prec) with 9007199254740992. lia. }
  exists f, k, g, d, n.
  split; [exact HF|]. split; [exact HK|]. split; [exact HG|].
  split; [split; [exact ID | exact ND]|].
  split; [exact In|]. split; [exact Hn|].
  exact (strict_equal_refl _ n In).
Qed.

Lemma overall_is_rounded_mean_witness :
  exists f k g d n : Z,
    is_integer (overall (analyzeResume "Led a team.")) n /\
    (4 * n - 2 <= f + k + g + d < 4 * n + 2).
Proof.
  destruct (overall_is_rounded_mean "Led a team."
              ltac:(vm_compute; lia) ltac:(reflexivity))
    as [f [k [g [d [n [_ [_ [_ [_ [Hn [Hm _]]]]]]]]]]].
  exists f, k, g, d, n. split; [exact Hn | exact Hm].
Defined.

(** On the empty text the readability score and the overall score are NaN:
    no integer, and not strictly equal to the rounding of the mean, which is
    NaN as well. *)
Lemma rounded_mean_of_empty_text :
  readability (breakdown (analyzeResume "")) = NaN /\
  overall (analyzeResume "") = NaN /\
  strict_equal
    (overall (analyzeResume ""))
    (Math_round
       (mean4 (formatting (breakdown (analyzeResume "")))
              (keywords (breakdown (analyzeResume "")))
              (grammar (breakdown (analyzeResume "")))
              (readability (breakdown (analyzeResume "")))))
  = false.
Proof.
  vm_compute. repeat split.
Qed.

(** * Keywords and casing beyond Latin-1 *)

Section WideFacts.

Import Wide WideSpec.

Lemma lower_unit_idempotent (u : code_unit) :
  lower_unit (lower_unit u) = lower_unit u.
Proof.
  destruct u; cbn [lower_unit]; try reflexivity.
  now rewrite lower_char_idempotent.
Qed.

Lemma lower_pair_lower_unit (a b : code_unit) :
  lower_pair a b -> lower_unit a = lower_unit b.
Proof.
  intros [u|u|u]; [reflexivity | |]; now rewrite lower_unit_idempotent.
Qed.

Lemma lower_variant_toLowerCase (s t : text) :
  lower_variant s t -> toLowerCase s = toLowerCase t.
Proof.
  induction 1 as [|a b s t Hab _ IH]; [reflexivity|].
  cbn [toLowerCase map]. f_equal; [now apply lower_pair_lower_unit | exact IH].
Qed.

(** The wider model agrees with the model on strings. *)
Lemma of_string_toLowerCase (s : string) :
  toLowerCase (of_string s) = of_string (JSString.toLowerCase s).
Proof.
  induction s as [|c s IH]; [reflexivity|].
  cbn [of_string JSString.toLowerCase toLowerCase map lower_unit].
  f_equal. exact IH.
Qed.

Lemma of_string_prefix (t s : string) :
  prefix (of_string t) (of_string s) = String.prefix t s.
Proof.
  revert s. induction t as [|a t IH]; intros [|b s]; try reflexivity.
  cbn [of_string prefix String.prefix code_unit_eqb]. rewrite IH.
  destruct (ascii_dec a b) as [->|Hne].
  - now rewrite Ascii.eqb_refl.
  - apply Ascii.eqb_neq in Hne. now rewrite Hne.
Qed.

Lemma of_string_includes (s t : string) :
  includes (of_string s) (of_string t) = JSString.includes s t.
Proof.
  induction s as [|c s IH].
  - cbn [of_string includes JSString.includes].
    now rewrite <- (of_string_prefix t "").
  - cbn [of_string includes JSString.includes]. rewrite IH.
    now rewrite <- (of_string_prefix t (String c s)).
Qed.

Lemma of_string_matchedKeywords (s : string) :
  Wide.matchedKeywords_of (of_string s) = ResumeScoring.matchedKeywords_of s.
Proof.
  unfold Wide.matchedKeywords_of, ResumeScoring.matchedKeywords_of,
    Wide.text_of, ResumeScoring.text_of.
  apply filter_ext. intros k.
  now rewrite !of_string_toLowerCase, of_string_includes.
Qed.

Lemma of_string_keywords (s : string) :
  Wide.matchedKeywords_of (of_string s) = matchedKeywords (analyzeResume s) /\
  Wide.keywords_of (of_string s) = keywords (breakdown (analyzeResume s)).
Proof.
  split; [apply of_string_matchedKeywords|].
  unfold Wide.keywords_of, Wide.keywordScore.
  rewrite of_string_matchedKeywords, breakdown_eq.
  unfold breakdown_of, ResumeScoring.keywordScore. cbn [keywords].
  reflexivity.
Qed.

(** The casing of Latin-1 strings is a case of the casing of texts. *)
Lemma case_variant_lower_variant (s t : string) :
  Spec.case_variant s t -> lower_variant (of_string s) (of_string t).
Proof.
  induction 1 as [|a b s t Hab _ IH]; [constructor|].
  cbn [of_string]. constructor; [|exact IH].
  destruct Hab as [a|a _|a _].
  - apply lower_pair_refl.
  - apply (lower_pair_lower (Latin1 a)).
  - apply (lower_pair_lowered (Latin1 a)).
Qed.

End WideFacts.

(** C7.  Two texts that differ only by code units replaced by their lower
    case, or back, get the same matched keywords and the same keyword score;
    for two strings these are the fields of the result of [analyzeResume]. *)
Theorem keyword_analysis_case_invariant (c1 c2 : Wide.text) :
  WideSpec.lower_variant c1 c2 ->
  Wide.matchedKeywords_of c1 = Wide.matchedKeywords_of c2 /\
  Wide.keywords_of c1 = Wide.keywords_of c2 /\
  (forall s1 s2 : string,
     c1 = Wide.of_string s1 -> c2 = Wide.of_string s2 ->
     matchedKeywords (analyzeResume s1) = matchedKeywords (analyzeResume s2) /\
     keywords (breakdown (analyzeResume s1)) =
     keywords (breakdown (analyzeResume s2))).
Proof.
  intros H. apply lower_variant_toLowerCase in H.
  assert (M : Wide.matchedKeywords_of c1 = Wide.matchedKeywords_of c2).
  { unfold Wide.matchedKeywords_of, Wide.text_of. now rewrite H. }
  assert (K : Wide.keywords_of c1 = Wide.keywords_of c2).
  { unfold Wide.keywords_of, Wide.keywordScore. now rewrite M. }
  split; [exact M|]. split; [exact K|].
  intros s1 s2 -> ->.
  destruct (of_string_keywords s1) as [M1 K1].
  destruct (of_string_keywords s2) as [M2 K2].
  rewrite <- M1, <- M2, <- K1, <- K2. split; assumption.
Qed.

Lemma keyword_analysis_case_invariant_witness :
  Wide.matchedKeywords_of WideSpec.docker_with_kelvin = ["docker"] /\
  matchedKeywords (analyzeResume "React and PYTHON") =
  matchedKeywords (analyzeResume "rEACT AND python").
Proof.
  split.
  - rewrite (proj1 (keyword_analysis_case_invariant
                      WideSpec.docker_with_kelvin (Wide.of_string "docker")
                      ltac:(repeat (constructor; [WideSpec.lower_pair_tac|]);
                            constructor))).
    reflexivity.
  - apply (proj2 (proj2 (keyword_analysis_case_invariant
                           (Wide.of_string "React and PYTHON")
                           (Wide.of_string "rEACT AND python")
                           ltac:(repeat (constructor; [WideSpec.lower_pair_tac|]);
                                 constructor)))); reflexivity.
Defined.

(** The long s is a lower case letter whose upper case is S, so the texts
    differ only in casing; but its lower case is itself, so only the second
    text contains the keyword. *)
Lemma long_s_is_not_matched :
  WideSpec.differ_in_casing WideSpec.long_s_kills (Wide.of_string "Skills") /\
  Wide.matchedKeywords_of WideSpec.long_s_kills = [] /\
  Wide.matchedKeywords_of (Wide.of_string "Skills") = ["skills"] /\
  Wide.keywords_of WideSpec.long_s_kills = of_Z 0 /\
  Wide.keywords_of (Wide.of_string "Skills") = of_Z 4.
Proof.
  split.
  - unfold WideSpec.differ_in_casing.
    constructor; [apply WideSpec.case_forms_upper; reflexivity|].
    repeat (constructor;
            [apply WideSpec.case_forms_lower, WideSpec.lower_pair_refl|]).
    constructor.
  - vm_compute. repeat split.
Qed.
